(** * Workflow engine: validation, graph building, task runner, scheduler

    A shallow embedding of the workflow engine (WorkflowFactory, JobFactory,
    JobContext, WorkflowReportGenerator, TaskRunner, taskWorker and the
    workflow status route) and the properties stated about it.

    Conventions.
    - JavaScript values of type [any] are the inductive [JS.Value]; numbers
      are restricted to integers and NaN, strings to their bytes.
    - A property that is [undefined] (a relation that was not loaded, an
      optional field that is absent, a key not yet generated) is [None].
    - The persistence layer is a [Store] of three tables keyed by the
      generated primary key, a uuid string.  The definitions of the
      modules named after the sources insert a new row under the first key
      that is free; the module [Db] takes the keys that the database
      generates, and the order in which it lists rows, as parameters, and
      the reachable stores are defined with it.
    - An entity object held by the program is a value
      separate from its row; [save] writes it back.  What the repository
      calls do to relations follows the entity declarations: [dependant]
      and [Result.task] are the owning sides, [dependencies] and
      [Task.result] the inverse sides; a query loads the relations it lists
      and the eager ones.
    - A promise is its outcome: a function that may throw returns
      [Except].  Logging and the pause of the scheduler between two turns
      have no effect on the store and are left out.

    The definitions come first, module by module as in the sources; the
    facts follow. *)

From stdpp Require Import gmap strings list fin_maps fin_sets pretty.
From Stdlib Require Import ZArith Lia.

#[local] Set Warnings "-register-all,-clear-no-such-hyp".
#[local] Open Scope string_scope.
#[local] Open Scope Z_scope.

(** ** JavaScript values *)

Module JS.

Inductive Value : Type :=
| Undefined
| Null
| Boolean (b : bool)
| Number (n : Z)
| NaN
| Str (s : string)
| Array (xs : list Value)
| Object (fields : list (string * Value)).

(** ToBoolean: the falsy values are undefined, null, false, 0, NaN and
    the empty string. *)
Definition truthy (v : Value) : bool :=
  match v with
  | Undefined | Null | NaN => false
  | Boolean b => b
  | Number n => negb (n =? 0)
  | Str s => negb (String.eqb s EmptyString)
  | Array _ | Object _ => true
  end.

(** [a || b] *)
Definition or (a b : Value) : Value := if truthy a then a else b.

(** Property read [o.name] on an object literal; [o?.name] on any value. *)
Fixpoint get_field (name : string) (fields : list (string * Value)) : Value :=
  match fields with
  | [] => Undefined
  | (k, v) :: rest => if String.eqb k name then v else get_field name rest
  end.

Definition opt_get (v : Value) (name : string) : Value :=
  match v with
  | Object fields => get_field name fields
  | _ => Undefined
  end.

(** [new Error(message)], seen through its [message] property, the only
    one the program reads. *)
Definition Error (message : string) : Value :=
  Object [("message", Str message)].

Definition char (code : nat) : string :=
  String (Ascii.ascii_of_nat code) EmptyString.
Definition dquote : string := char 34.
Definition backslash : string := char 92.
Definition newline : string := char 10.
Definition tab : string := char 9.

Fixpoint join (sep : string) (parts : list string) : string :=
  match parts with
  | [] => EmptyString
  | [p] => p
  | p :: rest => p +:+ sep +:+ join sep rest
  end.

(** JSON string literal: the quote, the backslash and the control
    characters are escaped, the latter by their short form where there is
    one and by their code otherwise. *)
Definition hex_digit (n : nat) : string :=
  char (if (n <? 10)%nat then 48 + n else 87 + n)%nat.

Definition escape_char (c : Ascii.ascii) : string :=
  let n := Ascii.nat_of_ascii c in
  if (n =? 34)%nat then backslash +:+ dquote
  else if (n =? 92)%nat then backslash +:+ backslash
  else if (n =? 8)%nat then backslash +:+ "b"
  else if (n =? 9)%nat then backslash +:+ "t"
  else if (n =? 10)%nat then backslash +:+ "n"
  else if (n =? 12)%nat then backslash +:+ "f"
  else if (n =? 13)%nat then backslash +:+ "r"
  else if (n <? 32)%nat
       then backslash +:+ "u00" +:+ hex_digit (n / 16) +:+ hex_digit (n mod 16)
  else String c EmptyString.

Fixpoint escape (s : string) : string :=
  match s with
  | EmptyString => EmptyString
  | String c rest => escape_char c +:+ escape rest
  end.

Definition quote (s : string) : string := dquote +:+ escape s +:+ dquote.

(** [JSON.stringify] as text, [None] where the built-in returns
    [undefined]. *)
Fixpoint stringify_text (v : Value) : option string :=
  match v with
  | Undefined => None
  | Null | NaN => Some "null"
  | Boolean b => Some (if b then "true" else "false")
  | Number n => Some (pretty n)
  | Str s => Some (quote s)
  | Array xs =>
      Some ("[" +:+ join ","
              (map (fun x => default "null" (stringify_text x)) xs) +:+ "]")
  | Object fields =>
      Some ("{" +:+ join ","
              (omap (fun kv =>
                       match stringify_text (snd kv) with
                       | Some t => Some (quote (fst kv) +:+ ":" +:+ t)
                       | None => None
                       end) fields) +:+ "}")
  end.

Definition JSON_stringify (v : Value) : Value :=
  match stringify_text v with
  | Some t => Str t
  | None => Undefined
  end.

(** ToString, as a template literal applies it. *)
Fixpoint toString (v : Value) : string :=
  match v with
  | Undefined => "undefined"
  | Null => "null"
  | Boolean b => if b then "true" else "false"
  | Number n => pretty n
  | NaN => "NaN"
  | Str s => s
  | Array xs =>
      join "," (map (fun x => match x with
                              | Undefined | Null => EmptyString
                              | _ => toString x
                              end) xs)
  | Object _ => "[object Object]"
  end.

End JS.

(** A computation that returns or throws. *)
Inductive Except (E A : Type) : Type :=
| Return (a : A)
| Throw (e : E).
Arguments Return {E A} a.
Arguments Throw {E A} e.

(** ** Status enumerations *)

Module TaskStatus.
Inductive t : Type := Queued | InProgress | Completed | Failed | Skipped.

#[global] Instance eq_dec : EqDecision t.
Proof. solve_decision. Defined.

Definition value (s : t) : string :=
  match s with
  | Queued => "queued"
  | InProgress => "in_progress"
  | Completed => "completed"
  | Failed => "failed"
  | Skipped => "skipped"
  end.
End TaskStatus.

Module WorkflowStatus.
Inductive t : Type := Initial | InProgress | Completed | Failed.

#[global] Instance eq_dec : EqDecision t.
Proof. solve_decision. Defined.

Definition value (s : t) : string :=
  match s with
  | Initial => "initial"
  | InProgress => "in_progress"
  | Completed => "completed"
  | Failed => "failed"
  end.
End WorkflowStatus.

(** ** Entities

    An entity object carries its columns and whichever relations were
    loaded or assigned; a relation that is [undefined] is [None]. *)

Record Result : Type := Build_Result {
  resultId : option string;
  data : JS.Value;
  error : JS.Value }.

Inductive Task : Type := Build_Task {
  taskId : string;
  clientId : string;
  status : TaskStatus.t;
  workflowId : string;
  progress : option string;
  taskType : string;
  stepNumber : Z;
  result : option Result;
  workflow : option Workflow;
  dependant : option Task;
  dependencies : option (list Task) }
with Workflow : Type := Build_Workflow {
  wf_workflowId : string;
  wf_clientId : string;
  wf_status : WorkflowStatus.t;
  wf_finalResult : option string;
  wf_input : JS.Value;
  wf_tasks : option (list Task) }.

(** [new Result()] *)
Definition new_Result : Result :=
  {| resultId := None; data := JS.Undefined; error := JS.Undefined |}.

Definition set_data (v : JS.Value) (r : Result) : Result :=
  {| resultId := resultId r; data := v; error := error r |}.

Definition set_error (v : JS.Value) (r : Result) : Result :=
  {| resultId := resultId r; data := data r; error := v |}.

Definition set_status (st : TaskStatus.t) (t : Task) : Task :=
  Build_Task (taskId t) (clientId t) st (workflowId t) (progress t)
    (taskType t) (stepNumber t) (result t) (workflow t) (dependant t)
    (dependencies t).

Definition set_progress (p : option string) (t : Task) : Task :=
  Build_Task (taskId t) (clientId t) (status t) (workflowId t) p
    (taskType t) (stepNumber t) (result t) (workflow t) (dependant t)
    (dependencies t).

Definition set_result (r : option Result) (t : Task) : Task :=
  Build_Task (taskId t) (clientId t) (status t) (workflowId t) (progress t)
    (taskType t) (stepNumber t) r (workflow t) (dependant t)
    (dependencies t).

Definition set_dependant (d : option Task) (t : Task) : Task :=
  Build_Task (taskId t) (clientId t) (status t) (workflowId t) (progress t)
    (taskType t) (stepNumber t) (result t) (workflow t) d
    (dependencies t).

Definition set_wf_status (st : WorkflowStatus.t) (w : Workflow) : Workflow :=
  Build_Workflow (wf_workflowId w) (wf_clientId w) st (wf_finalResult w)
    (wf_input w) (wf_tasks w).

Definition set_wf_finalResult (r : option string) (w : Workflow) : Workflow :=
  Build_Workflow (wf_workflowId w) (wf_clientId w) (wf_status w) r
    (wf_input w) (wf_tasks w).

(** [Task.isCompleted] *)
Definition Task_isCompleted (t : Task) : bool :=
  bool_decide (status t ∈
    [TaskStatus.Completed; TaskStatus.Failed; TaskStatus.Skipped]).

(** [Workflow.isCompleted] *)
Definition Workflow_isCompleted (w : Workflow) : bool :=
  bool_decide (wf_status w ∈
    [WorkflowStatus.Completed; WorkflowStatus.Failed]).

(** ** The store

    One table per entity, keyed by the generated primary key.  A row holds
    the entity's columns; the producer-to-consumer edge is the foreign
    key [row_dependantId] on the producer's row, and a result's owner is
    the foreign key [rrow_taskId] on the result's row. *)

Record WorkflowRow : Type := Build_WorkflowRow {
  wrow_clientId : string;
  wrow_status : WorkflowStatus.t;
  wrow_finalResult : option string;
  wrow_input : JS.Value }.

Record TaskRow : Type := Build_TaskRow {
  row_clientId : string;
  row_status : TaskStatus.t;
  row_workflowId : string;
  row_progress : option string;
  row_taskType : string;
  row_stepNumber : Z;
  row_dependantId : option string }.

Record ResultRow : Type := Build_ResultRow {
  rrow_taskId : option string;
  rrow_data : JS.Value;
  rrow_error : JS.Value }.

Record Store : Type := Build_Store {
  workflows : gmap string WorkflowRow;
  tasks : gmap string TaskRow;
  results : gmap string ResultRow }.

Definition empty_store : Store :=
  {| workflows := ∅; tasks := ∅; results := ∅ |}.

Definition set_row_dependantId (d : option string) (r : TaskRow) : TaskRow :=
  Build_TaskRow (row_clientId r) (row_status r) (row_workflowId r)
    (row_progress r) (row_taskType r) (row_stepNumber r) d.

Definition set_rrow_taskId (o : option string) (r : ResultRow) : ResultRow :=
  Build_ResultRow o (rrow_data r) (rrow_error r).

(** A row seen as an entity object with no relation loaded. *)
Definition task_of_row (id : string) (r : TaskRow) : Task :=
  {| taskId := id; clientId := row_clientId r; status := row_status r;
     workflowId := row_workflowId r; progress := row_progress r;
     taskType := row_taskType r; stepNumber := row_stepNumber r;
     result := None; workflow := None; dependant := None;
     dependencies := None |}.

Definition workflow_of_row (id : string) (r : WorkflowRow)
    (ts : option (list Task)) : Workflow :=
  {| wf_workflowId := id; wf_clientId := wrow_clientId r;
     wf_status := wrow_status r; wf_finalResult := wrow_finalResult r;
     wf_input := wrow_input r; wf_tasks := ts |}.

(** The tasks of a workflow, as the [tasks] relation loads them, listed in
    the order of the keys.  The order in which the database lists them is
    not determined by the store: where it matters it is the parameter
    [Db.listing]. *)
Definition tasks_of (wid : string) (s : Store) : list Task :=
  map (fun kv => task_of_row (fst kv) (snd kv))
    (filter (fun kv => row_workflowId (snd kv) = wid)
       (map_to_list (tasks s))).

(** [taskRepository.save(task)] for an entity that has its key: the
    columns are written; the owning side of [dependant] is written when
    the relation is set; the inverse sides ([dependencies], [result]) bind
    the related rows to this task when they are set. *)
Definition taskRepository_save (t : Task) (s : Store) : Store :=
  let fk := match dependant t with
            | Some d => Some (taskId d)
            | None => tasks s !! taskId t ≫= row_dependantId
            end in
  let row := {| row_clientId := clientId t; row_status := status t;
                row_workflowId := workflowId t; row_progress := progress t;
                row_taskType := taskType t; row_stepNumber := stepNumber t;
                row_dependantId := fk |} in
  let tasks1 := <[taskId t := row]> (tasks s) in
  let tasks2 := match dependencies t with
                | Some ds =>
                    foldr (fun d m =>
                             alter (set_row_dependantId (Some (taskId t)))
                               (taskId d) m) tasks1 ds
                | None => tasks1
                end in
  let results1 := match result t ≫= resultId with
                  | Some rid =>
                      alter (set_rrow_taskId (Some (taskId t))) rid (results s)
                  | None => results s
                  end in
  {| workflows := workflows s; tasks := tasks2; results := results1 |}.

(** [resultRepository.save(result)]: a result without key is inserted
    under a free one (here the first; see [Db.resultRepository_insert]),
    which the returned object carries. *)
Definition resultRepository_save (r : Result) (s : Store) : Result * Store :=
  match resultId r with
  | Some rid =>
      (r, {| workflows := workflows s; tasks := tasks s;
             results := <[rid := {| rrow_taskId :=
                                      results s !! rid ≫= rrow_taskId;
                                    rrow_data := data r;
                                    rrow_error := error r |}]> (results s) |})
  | None =>
      let rid := fresh (dom (results s)) in
      ({| resultId := Some rid; data := data r; error := error r |},
       {| workflows := workflows s; tasks := tasks s;
          results := <[rid := {| rrow_taskId := None; rrow_data := data r;
                                 rrow_error := error r |}]> (results s) |})
  end.

(** [workflowRepository.findOne({ where: { workflowId }, relations:
    ['tasks'] })]; the [tasks] relation is also eager. *)
Definition workflowRepository_findOne (wid : string) (s : Store)
    : option Workflow :=
  (fun r => workflow_of_row wid r (Some (tasks_of wid s)))
    <$> workflows s !! wid.

(** [workflowRepository.save(workflow)] for a workflow that has its key. *)
Definition workflowRepository_save (w : Workflow) (s : Store) : Store :=
  {| workflows :=
       <[wf_workflowId w := {| wrow_clientId := wf_clientId w;
                               wrow_status := wf_status w;
                               wrow_finalResult := wf_finalResult w;
                               wrow_input := wf_input w |}]> (workflows s);
     tasks := tasks s; results := results s |}.

(** ** Jobs, the registry and the execution context *)

Record JobContext : Type := Build_JobContext {
  ctx_workflow : option Workflow;
  dependenciesOutputs : list JS.Value }.

(** The [input] getter of [JobContext].  [JSON.parse] is the built-in, taken
    as a parameter. *)
Definition JobContext_input
    (JSON_parse : string -> Except JS.Value JS.Value) (ctx : JobContext)
    : Except JS.Value JS.Value :=
  match ctx_workflow ctx with
  | None =>
      Throw (JS.Error "Cannot read properties of undefined (reading 'input')")
  | Some w =>
      let input := wf_input w in
      if negb (JS.truthy input) then Return JS.Null
      else JSON_parse (JS.toString input)
  end.

(** A job is its [run] method: the outcome of the promise it returns.  It
    may read the store (the report job does). *)
Definition Job : Type := Store -> Task -> JobContext -> Except JS.Value JS.Value.

(** The four implementations registered in [JobFactory.jobMap]; they are
    external collaborators. *)
Record Jobs : Type := Build_Jobs {
  DataAnalysisJob : Job;
  EmailNotificationJob : Job;
  PolygonAreaJob : Job;
  ReportGenerationJob : Job }.

Module JobFactory.

(** The registry: its own four keys.  What the lookup finds for a name
    that the object literal inherits from its prototype is a parameter of
    [Db.get]; [get] below is the lookup for the names that are not
    inherited. *)
Definition jobMap (jobs : Jobs) : gmap string Job :=
  list_to_map
    [ ("analysis", DataAnalysisJob jobs);
      ("notification", EmailNotificationJob jobs);
      ("polygonArea", PolygonAreaJob jobs);
      ("reportGeneration", ReportGenerationJob jobs) ].

Definition get (jobs : Jobs) (taskType : string) : Except JS.Value Job :=
  match jobMap jobs !! taskType with
  | None => Throw (JS.Error ("No job found for task type: " +:+ taskType))
  | Some factoryMethod => Return factoryMethod
  end.

End JobFactory.

(** ** The report generator *)

Module WorkflowReportGenerator.

(** [task.result?.data] and [task.result?.error] *)
Definition result_data (t : Task) : JS.Value :=
  match result t with Some r => data r | None => JS.Undefined end.

Definition result_error (t : Task) : JS.Value :=
  match result t with Some r => error r | None => JS.Undefined end.

Definition stringifyTask (task : Task) : string :=
  "Task ID: " +:+ taskId task +:+ ", " +:+
  "Type: " +:+ taskType task +:+ ", " +:+
  "Status: " +:+ TaskStatus.value (status task) +:+ ", " +:+
  "Result: " +:+ JS.toString (JS.or (result_data task) (JS.Str "none")) +:+ ", " +:+
  "Error: " +:+ JS.toString (JS.or (result_error task) (JS.Str "none")).

Definition generateAggregatedReport (w : Workflow) : Except JS.Value string :=
  match wf_tasks w with
  | None =>
      Throw (JS.Error "Cannot read properties of undefined (reading 'map')")
  | Some ts =>
      Return
        ("Workflow report:" +:+ JS.newline +:+
         "Workflow ID: " +:+ wf_workflowId w +:+ "." +:+ JS.newline +:+
         "Status: " +:+ WorkflowStatus.value (wf_status w) +:+ "." +:+ JS.newline +:+
         "Tasks:" +:+ JS.newline +:+
         JS.join JS.newline (map (fun task => JS.tab +:+ stringifyTask task) ts))
  end.

End WorkflowReportGenerator.

(** ** The task runner *)

Module TaskRunner.

(** [getJobContext] *)
Definition getJobContext (task : Task) : JobContext :=
  let dependenciesOutputs :=
    match dependencies task with
    | Some deps => map WorkflowReportGenerator.result_data deps
    | None => []
    end in
  {| ctx_workflow := workflow task; dependenciesOutputs := dependenciesOutputs |}.

(** The aggregate computed from the freshly read tasks of the workflow. *)
Definition aggregate (ts : list Task) : WorkflowStatus.t :=
  let allCompleted :=
    forallb (fun t => bool_decide (status t = TaskStatus.Completed)) ts in
  let anyFailed :=
    existsb (fun t => bool_decide (status t = TaskStatus.Failed)) ts in
  if anyFailed then WorkflowStatus.Failed
  else if allCompleted then WorkflowStatus.Completed
  else WorkflowStatus.InProgress.

(** What [run] leaves behind: how its promise settled, the task object it
    mutated, and the store. *)
Record Ran : Type := Build_Ran {
  outcome : Except JS.Value unit;
  task_after : Task;
  store_after : Store }.

(** The body of the [try], with its [catch]: the error to rethrow (if any),
    the task and the result as the two blocks leave them. *)
Definition try_job (job : Job) (task : Task) (res : Result) (s : Store)
    : option JS.Value * Task * Result :=
  let context := getJobContext task in
  match job s task context with
  | Return taskResult =>
      let res := set_data (JS.JSON_stringify (JS.or taskResult (JS.Object []))) res in
      let task := set_result (Some res) task in
      let task := set_status TaskStatus.Completed task in
      let task := set_progress None task in
      (None, task, res)
  | Throw err =>
      let task := set_status TaskStatus.Failed task in
      let task := set_progress None task in
      let task := set_dependant
                    (set_status TaskStatus.Skipped <$> dependant task) task in
      let res := set_error (JS.or (JS.opt_get err "message") err) res in
      (Some err, task, res)
  end.

(** The [finally] block.  After a success the task refers to the result
    object being saved, so it sees the generated key; after a failure the
    result was never assigned to the task. *)
Definition finally_save (thrown : option JS.Value) (task : Task)
    (res : Result) (s : Store) : Task * Store :=
  let '(res, s) := resultRepository_save res s in
  let task := match thrown with
              | None => set_result (Some res) task
              | Some _ => task
              end in
  let s := taskRepository_save task s in
  let s := match dependant task with
           | Some d => taskRepository_save d s
           | None => s
           end in
  (task, s).

(** The statements after the [try]: the workflow is read again with its
    tasks, its status recomputed, its report regenerated, and saved. *)
Definition recompute (task : Task) (s : Store) : Except JS.Value unit * Store :=
  match workflow task with
  | None =>
      (Throw (JS.Error
         "Cannot read properties of undefined (reading 'workflowId')"), s)
  | Some w =>
      match workflowRepository_findOne (wf_workflowId w) s with
      | None => (Return (), s)
      | Some currentWorkflow =>
          match wf_tasks currentWorkflow with
          | None =>
              (Throw (JS.Error
                 "Cannot read properties of undefined (reading 'every')"), s)
          | Some ts =>
              let currentWorkflow := set_wf_status (aggregate ts) currentWorkflow in
              match WorkflowReportGenerator.generateAggregatedReport
                      currentWorkflow with
              | Throw err => (Throw err, s)
              | Return finalResult =>
                  let currentWorkflow :=
                    set_wf_finalResult (Some finalResult) currentWorkflow in
                  (Return (), workflowRepository_save currentWorkflow s)
              end
          end
      end
  end.

Definition run (jobs : Jobs) (task : Task) (s : Store) : Ran :=
  let task := set_status TaskStatus.InProgress task in
  let task := set_progress (Some "starting job...") task in
  let s := taskRepository_save task s in
  match JobFactory.get jobs (taskType task) with
  | Throw err => {| outcome := Throw err; task_after := task; store_after := s |}
  | Return job =>
      let res := new_Result in
      let '(thrown, task, res) := try_job job task res s in
      let '(task, s) := finally_save thrown task res s in
      match thrown with
      | Some err =>
          {| outcome := Throw err; task_after := task; store_after := s |}
      | None =>
          let '(o, s) := recompute task s in
          {| outcome := o; task_after := task; store_after := s |}
      end
  end.

End TaskRunner.

(** ** The scheduler *)

Module TaskWorker.

(** The order of the query: [workflowId] ascending, then [stepNumber]
    ascending. *)
Definition key_ltb (a b : string * TaskRow) : bool :=
  match String.compare (row_workflowId (snd a)) (row_workflowId (snd b)) with
  | Lt => true
  | Gt => false
  | Eq => row_stepNumber (snd a) <? row_stepNumber (snd b)
  end.

Definition pick (best : option (string * TaskRow)) (x : string * TaskRow)
    : option (string * TaskRow) :=
  match best with
  | None => Some x
  | Some b => if key_ltb x b then Some x else Some b
  end.

(** The row the query returns: the first of the queued rows in the
    query's order.  (In a reachable store no two queued rows have the same
    rank, see [selection_determined].) *)
Definition first_queued (s : Store) : option (string * TaskRow) :=
  foldl pick None
    (filter (fun kv => row_status (snd kv) = TaskStatus.Queued)
       (map_to_list (tasks s))).

(** The relations that the query loads for the row found: the workflow
    and the dependant task.  The other relations of the task, of its
    workflow and of its dependant are not loaded. *)
Definition load (s : Store) (id : string) (r : TaskRow) : Task :=
  {| taskId := id; clientId := row_clientId r; status := row_status r;
     workflowId := row_workflowId r; progress := row_progress r;
     taskType := row_taskType r; stepNumber := row_stepNumber r;
     result := None;
     workflow := (fun w => workflow_of_row (row_workflowId r) w None)
                   <$> workflows s !! row_workflowId r;
     dependant := row_dependantId r ≫= fun did =>
                    task_of_row did <$> tasks s !! did;
     dependencies := None |}.

(** [taskRepository.findOne({ where: { status: Queued }, order: ...,
    relations: ['workflow', 'dependant'] })] *)
Definition findOne_queued (s : Store) : option Task :=
  (fun kv => load s (fst kv) (snd kv)) <$> first_queued s.

(** One turn of the loop: query, run the task found; an error raised by
    the run is logged and the loop goes on. *)
Definition iteration (jobs : Jobs) (s : Store) : Store :=
  match findOne_queued s with
  | Some task => TaskRunner.store_after (TaskRunner.run jobs task s)
  | None => s
  end.

End TaskWorker.

(** ** The status route *)

Module WorkflowRoutes.

Record StatusBody : Type := Build_StatusBody {
  body_workflowId : string;
  body_status : WorkflowStatus.t;
  completedTasks : nat;
  totalTasks : nat }.

Inductive Response : Type :=
| Ok (body : StatusBody)
| NotFound (message : string)
| InternalServerError (message : string).

(** The body of [GET /:id/status] for a workflow that was found. *)
Definition status_body (w : Workflow) (ts : list Task) : StatusBody :=
  {| body_workflowId := wf_workflowId w;
     body_status := wf_status w;
     completedTasks := length (filter (fun t => Task_isCompleted t = true) ts);
     totalTasks := length ts |}.

Definition get_status (workflowId : string) (s : Store) : Response :=
  match workflowRepository_findOne workflowId s with
  | None => NotFound "Workflow not found"
  | Some w =>
      match wf_tasks w with
      | Some ts => Ok (status_body w ts)
      | None => InternalServerError "Failed to get workflow status"
      end
  end.

End WorkflowRoutes.

(** ** The workflow factory *)

Module WorkflowFactory.

(** A step as [yaml.load] returns it: [dependsOn] may be absent, a single
    number or a list. *)
Inductive RawDependsOn : Type :=
| Absent
| Single (n : Z)
| Many (ns : list Z).

Record RawStep : Type := Build_RawStep {
  raw_taskType : string;
  raw_stepNumber : option Z;
  raw_dependsOn : RawDependsOn }.

Record RawDefinition : Type := Build_RawDefinition {
  raw_name : string;
  raw_steps : list RawStep }.

(** [WorkflowStep]: [stepNumber] is [None] when the document has none;
    [dependsOn] is [None] when it is absent or falsy. *)
Record WorkflowStep : Type := Build_WorkflowStep {
  taskType : string;
  stepNumber : option Z;
  dependsOn : option (list Z) }.

Record WorkflowDefinition : Type := Build_WorkflowDefinition {
  name : string;
  steps : list WorkflowStep }.

(** [parseWorkflowDefinition], after [yaml.load]: a truthy [dependsOn] that
    is not a list becomes a one-element list.  A falsy one (absent, or the
    single number 0) is left as it is, and every later test of
    [step.dependsOn] treats it as absent. *)
Definition normalize (d : RawDependsOn) : option (list Z) :=
  match d with
  | Absent => None
  | Single n => if JS.truthy (JS.Number n) then Some [n] else None
  | Many ns => Some ns
  end.

Definition parseWorkflowDefinition (raw : RawDefinition) : WorkflowDefinition :=
  {| name := raw_name raw;
     steps := map (fun r => {| taskType := raw_taskType r;
                               stepNumber := raw_stepNumber r;
                               dependsOn := normalize (raw_dependsOn r) |})
                (raw_steps raw) |}.

Definition TASK_TYPE_REQUIRED : string := "Task type is required".
Definition STEP_NUMBER_REQUIRED : string := "Step number is required".
Definition DEPENDS_ON_LATER_STEP : string :=
  "Step can not depend on other steps that come after it".
Definition STEP_NUMBERS_NOT_UNIQUE : string := "Step numbers must be unique".

(** [!step.stepNumber] *)
Definition falsy_number (n : option Z) : bool :=
  match n with
  | None => true
  | Some n => negb (JS.truthy (JS.Number n))
  end.

(** [stepNumber >= step.stepNumber]; a comparison with [undefined] is
    false. *)
Definition ge_step (d : Z) (own : option Z) : bool :=
  match own with
  | Some n => n <=? d
  | None => false
  end.

(** The body of the [forEach] callback. *)
Definition validateStep (step : WorkflowStep) : Except string unit :=
  if negb (JS.truthy (JS.Str (taskType step))) then Throw TASK_TYPE_REQUIRED
  else if falsy_number (stepNumber step) then Throw STEP_NUMBER_REQUIRED
  else if match dependsOn step with
          | Some ds => existsb (fun d => ge_step d (stepNumber step)) ds
          | None => false
          end
       then Throw DEPENDS_ON_LATER_STEP
  else Return ().

Fixpoint validateSteps (l : list WorkflowStep) : Except string unit :=
  match l with
  | [] => Return ()
  | step :: rest =>
      match validateStep step with
      | Throw e => Throw e
      | Return _ => validateSteps rest
      end
  end.

Definition validateWorkflowDefinition (workflowDefinition : WorkflowDefinition)
    : Except string unit :=
  match validateSteps (steps workflowDefinition) with
  | Throw e => Throw e
  | Return _ =>
      let stepNumbers := map stepNumber (steps workflowDefinition) in
      let uniqueStepNumbers : gset (option Z) := list_to_set stepNumbers in
      if bool_decide (size uniqueStepNumbers ≠ length stepNumbers)
      then Throw STEP_NUMBERS_NOT_UNIQUE
      else Return ()
  end.

(** [createWorkflow]: the entity before it is saved is its columns. *)
Definition createWorkflow (clientId : string) (input : JS.Value) : WorkflowRow :=
  {| wrow_clientId := clientId;
     wrow_status := WorkflowStatus.Initial;
     wrow_finalResult := None;
     wrow_input := JS.JSON_stringify input |}.

(** [workflowRepository.save(workflow)] for a new workflow: inserted under
    a free key (here the first; see [Db.workflowRepository_insert]),
    returned with it. *)
Definition workflowRepository_insert (w : WorkflowRow) (s : Store)
    : Workflow * Store :=
  let wid := fresh (dom (workflows s)) in
  (workflow_of_row wid w None,
   {| workflows := <[wid := w]> (workflows s);
      tasks := tasks s; results := results s |}).

(** A task entity before it is saved.  It has no key yet; the members of
    [dependencies] are the sibling objects of the array under construction,
    held by reference: here, by their position in that array. *)
Record NewTask : Type := Build_NewTask {
  new_clientId : string;
  new_status : TaskStatus.t;
  new_taskType : string;
  new_stepNumber : option Z;
  new_workflow : Workflow;
  new_workflowId : string;
  new_dependencies : option (list nat) }.

Definition set_new_dependencies (d : option (list nat)) (t : NewTask) : NewTask :=
  Build_NewTask (new_clientId t) (new_status t) (new_taskType t)
    (new_stepNumber t) (new_workflow t) (new_workflowId t) d.

(** [createTasks] *)
Definition createTasks (workflowDef : WorkflowDefinition) (w : Workflow)
    : list NewTask :=
  map (fun step =>
         {| new_clientId := wf_clientId w;
            new_status := TaskStatus.Queued;
            new_taskType := taskType step;
            new_stepNumber := stepNumber step;
            new_workflow := w;
            new_workflowId := wf_workflowId w;
            new_dependencies := None |})
    (steps workflowDef).

(** Position of the first element satisfying [p]: [Array.prototype.find],
    by reference. *)
Fixpoint find_index {A : Type} (p : A -> bool) (l : list A) : option nat :=
  match l with
  | [] => None
  | x :: rest => if p x then Some 0%nat else S <$> find_index p rest
  end.

(** Positions of the elements satisfying [p]: [Array.prototype.filter], by
    reference. *)
Definition filter_indices {A : Type} (p : A -> bool) (l : list A) : list nat :=
  map fst (filter (fun ix => p (snd ix) = true) (imap (fun i x => (i, x)) l)).

(** [step.dependsOn?.includes(t.stepNumber)] *)
Definition includes (ds : list Z) (n : option Z) : bool :=
  match n with
  | Some n => bool_decide (n ∈ ds)
  | None => false
  end.

(** One turn of the [forEach] of [populateDependencies]. *)
Definition populateStep (tasks : list NewTask) (step : WorkflowStep)
    : list NewTask :=
  match dependsOn step with
  | None => tasks
  | Some ds =>
      match find_index
              (fun task => bool_decide (new_stepNumber task = stepNumber step))
              tasks with
      | None => tasks
      | Some i =>
          let deps := filter_indices
                        (fun t => includes ds (new_stepNumber t)) tasks in
          alter (set_new_dependencies (Some deps)) i tasks
      end
  end.

(** [populateDependencies].  Every step has its task in [tasks], so the
    [find] succeeds. *)
Definition populateDependencies (workflowDef : WorkflowDefinition)
    (tasks : list NewTask) : list NewTask :=
  foldl populateStep tasks (steps workflowDef).

(** The row inserted for a new task.  A step number that is not set takes
    the column default. *)
Definition row_of_new (t : NewTask) : TaskRow :=
  {| row_clientId := new_clientId t;
     row_status := new_status t;
     row_workflowId := new_workflowId t;
     row_progress := None;
     row_taskType := new_taskType t;
     row_stepNumber := default 1 (new_stepNumber t);
     row_dependantId := None |}.

(** Binding the members of [dependencies] to their consumer: each gets the
    consumer's key as its [dependant]. *)
Definition bind_dependencies (ids : list string) (consumer : string)
    (refs : list nat) (m : gmap string TaskRow) : gmap string TaskRow :=
  foldl (fun m ref =>
           match ids !! ref with
           | Some did => alter (set_row_dependantId (Some consumer)) did m
           | None => m
           end) m refs.

(** [taskRepository.save(tasks)] for new tasks: every task is inserted under
    a free key (here the first ones; see [Db.taskRepository_save_all]),
    then the [dependencies] relations are bound, in the order of the
    array. *)
Definition taskRepository_save_all (ts : list NewTask) (s : Store) : Store :=
  let ids := fresh_list (length ts) (dom (tasks s)) in
  let inserted :=
    foldl (fun m it => <[fst it := row_of_new (snd it)]> m)
      (tasks s) (zip ids ts) in
  let bound :=
    foldl (fun m it =>
             match new_dependencies (snd it) with
             | Some refs => bind_dependencies ids (fst it) refs m
             | None => m
             end) inserted (zip ids ts) in
  {| workflows := workflows s; tasks := bound; results := results s |}.

(** [createWorkflowFromYAML], from the document that [yaml.load] returns. *)
Definition createWorkflowFromYAML (raw : RawDefinition) (clientId : string)
    (input : JS.Value) (s : Store) : Except string Workflow * Store :=
  let workflowDefinition := parseWorkflowDefinition raw in
  match validateWorkflowDefinition workflowDefinition with
  | Throw e => (Throw e, s)
  | Return _ =>
      let workflow := createWorkflow clientId input in
      let '(savedWorkflow, s) := workflowRepository_insert workflow s in
      let tasks := createTasks workflowDefinition savedWorkflow in
      let tasks := populateDependencies workflowDefinition tasks in
      let s := taskRepository_save_all tasks s in
      (Return savedWorkflow, s)
  end.

End WorkflowFactory.

(** ** What the store does not determine

    The keys are uuids that the database generates: a new row gets some
    key that is not in its table, and which one is not determined by the
    store.  A query without [ORDER BY] returns its rows in an order that
    the database chooses.  What the jobs do depends on the library, on the
    data and on a random draw.  And the lookup of a task type that is none
    of the four keys of [JobFactory.jobMap] finds what the object literal
    inherits under that name, if anything.  In this module each of these is
    a parameter of the call. *)

Module Db.

(** What the lookup [jobMap[taskType]] finds for a name that is not a key
    of the map itself: nothing; or an inherited member whose call throws,
    in [JobFactory.get]; or an inherited member whose call returns a value
    that is no job, so that [job.run] throws a TypeError, in the [try]. *)
Inductive Inherited : Type :=
| NotInherited
| CallThrows (err : JS.Value)
| NotAJob (err : JS.Value).

(** The choices of one turn of the scheduler. *)
Record Turn : Type := Build_Turn {
  jobs : Jobs;
  rid : string;
  listing : list Task -> list Task;
  inherited : string -> Inherited }.

(** [JobFactory.get] *)
Definition get (c : Turn) (taskType : string) : Except JS.Value Job :=
  match JobFactory.jobMap (jobs c) !! taskType with
  | Some factoryMethod => Return factoryMethod
  | None =>
      match inherited c taskType with
      | NotInherited =>
          Throw (JS.Error ("No job found for task type: " +:+ taskType))
      | CallThrows err => Throw err
      | NotAJob err => Return (fun _ _ _ => Throw err)
      end
  end.

(** [resultRepository.save(result)] for a new result, which the database
    inserts under the key [rid]. *)
Definition resultRepository_insert (rid : string) (r : Result) (s : Store)
    : Result * Store :=
  ({| resultId := Some rid; data := data r; error := error r |},
   {| workflows := workflows s; tasks := tasks s;
      results := <[rid := {| rrow_taskId := None; rrow_data := data r;
                             rrow_error := error r |}]> (results s) |}).

(** [workflowRepository.findOne({ where: { workflowId }, relations:
    ['tasks'] })], the tasks coming in the order [listing]. *)
Definition workflowRepository_findOne (listing : list Task -> list Task)
    (wid : string) (s : Store) : option Workflow :=
  (fun r => workflow_of_row wid r (Some (listing (tasks_of wid s))))
    <$> workflows s !! wid.

(** The [finally] block of [TaskRunner.run]. *)
Definition finally_save (rid : string) (thrown : option JS.Value)
    (task : Task) (res : Result) (s : Store) : Task * Store :=
  let '(res, s) := resultRepository_insert rid res s in
  let task := match thrown with
              | None => set_result (Some res) task
              | Some _ => task
              end in
  let s := taskRepository_save task s in
  let s := match dependant task with
           | Some d => taskRepository_save d s
           | None => s
           end in
  (task, s).

(** The statements of [TaskRunner.run] after the [try]. *)
Definition recompute (listing : list Task -> list Task) (task : Task)
    (s : Store) : Except JS.Value unit * Store :=
  match workflow task with
  | None =>
      (Throw (JS.Error
         "Cannot read properties of undefined (reading 'workflowId')"), s)
  | Some w =>
      match workflowRepository_findOne listing (wf_workflowId w) s with
      | None => (Return (), s)
      | Some currentWorkflow =>
          match wf_tasks currentWorkflow with
          | None =>
              (Throw (JS.Error
                 "Cannot read properties of undefined (reading 'every')"), s)
          | Some ts =>
              let currentWorkflow :=
                set_wf_status (TaskRunner.aggregate ts) currentWorkflow in
              match WorkflowReportGenerator.generateAggregatedReport
                      currentWorkflow with
              | Throw err => (Throw err, s)
              | Return finalResult =>
                  let currentWorkflow :=
                    set_wf_finalResult (Some finalResult) currentWorkflow in
                  (Return (), workflowRepository_save currentWorkflow s)
              end
          end
      end
  end.

(** [TaskRunner.run] *)
Definition run (c : Turn) (task : Task) (s : Store) : TaskRunner.Ran :=
  let task := set_status TaskStatus.InProgress task in
  let task := set_progress (Some "starting job...") task in
  let s := taskRepository_save task s in
  match get c (taskType task) with
  | Throw err =>
      {| TaskRunner.outcome := Throw err; TaskRunner.task_after := task;
         TaskRunner.store_after := s |}
  | Return job =>
      let res := new_Result in
      let '(thrown, task, res) := TaskRunner.try_job job task res s in
      let '(task, s) := finally_save (rid c) thrown task res s in
      match thrown with
      | Some err =>
          {| TaskRunner.outcome := Throw err; TaskRunner.task_after := task;
             TaskRunner.store_after := s |}
      | None =>
          let '(o, s) := recompute (listing c) task s in
          {| TaskRunner.outcome := o; TaskRunner.task_after := task;
             TaskRunner.store_after := s |}
      end
  end.

(** One turn of the loop of [taskWorker]. *)
Definition iteration (c : Turn) (s : Store) : Store :=
  match TaskWorker.findOne_queued s with
  | Some task => TaskRunner.store_after (run c task s)
  | None => s
  end.

(** The choices that the database can make in a turn: the key of the new
    result is not in the table, and the tasks of a workflow come in some
    order. *)
Definition legal (c : Turn) (s : Store) : Prop :=
  (rid c ∉ dom (results s)) ∧ ∀ ts, listing c ts ≡ₚ ts.

(** [workflowRepository.save(workflow)] for a new workflow, inserted under
    the key [wid]. *)
Definition workflowRepository_insert (wid : string) (w : WorkflowRow)
    (s : Store) : Workflow * Store :=
  (workflow_of_row wid w None,
   {| workflows := <[wid := w]> (workflows s);
      tasks := tasks s; results := results s |}).

(** [taskRepository.save(tasks)] for new tasks, inserted under the keys
    [ids], one for each task. *)
Definition taskRepository_save_all (ids : list string)
    (ts : list WorkflowFactory.NewTask) (s : Store) : Store :=
  let inserted :=
    foldl (fun m it => <[fst it := WorkflowFactory.row_of_new (snd it)]> m)
      (tasks s) (zip ids ts) in
  let bound :=
    foldl (fun m it =>
             match WorkflowFactory.new_dependencies (snd it) with
             | Some refs => WorkflowFactory.bind_dependencies ids (fst it) refs m
             | None => m
             end) inserted (zip ids ts) in
  {| workflows := workflows s; tasks := bound; results := results s |}.

(** [WorkflowFactory.createWorkflowFromYAML] *)
Definition createWorkflowFromYAML (wid : string) (ids : list string)
    (raw : WorkflowFactory.RawDefinition) (clientId : string)
    (input : JS.Value) (s : Store) : Except string Workflow * Store :=
  let workflowDefinition := WorkflowFactory.parseWorkflowDefinition raw in
  match WorkflowFactory.validateWorkflowDefinition workflowDefinition with
  | Throw e => (Throw e, s)
  | Return _ =>
      let workflow := WorkflowFactory.createWorkflow clientId input in
      let '(savedWorkflow, s) := workflowRepository_insert wid workflow s in
      let tasks := WorkflowFactory.createTasks workflowDefinition savedWorkflow in
      let tasks := WorkflowFactory.populateDependencies workflowDefinition tasks in
      let s := taskRepository_save_all ids tasks s in
      (Return savedWorkflow, s)
  end.

(** The tasks that [createWorkflowFromYAML] hands to the second of its two
    saves, for the workflow that the first one returned. *)
Definition newTasks (raw : WorkflowFactory.RawDefinition)
    (savedWorkflow : Workflow) : list WorkflowFactory.NewTask :=
  let workflowDefinition := WorkflowFactory.parseWorkflowDefinition raw in
  WorkflowFactory.populateDependencies workflowDefinition
    (WorkflowFactory.createTasks workflowDefinition savedWorkflow).

(** The keys that the database can generate for the tasks of a new
    workflow: keys that are in no row, one for each step, all different;
    and for a new workflow and its tasks. *)
Definition fresh_task_keys (ids : list string)
    (raw : WorkflowFactory.RawDefinition) (s : Store) : Prop :=
  NoDup ids ∧
  length ids = length (WorkflowFactory.raw_steps raw) ∧
  ∀ id, id ∈ ids → id ∉ dom (tasks s).

Definition fresh_keys (wid : string) (ids : list string)
    (raw : WorkflowFactory.RawDefinition) (s : Store) : Prop :=
  (wid ∉ dom (workflows s)) ∧ fresh_task_keys ids raw s.

(** The choices that the deterministic definitions above make: the first
    free key, the order of the table, nothing inherited. *)
Definition first (jobs : Jobs) (s : Store) : Turn :=
  {| jobs := jobs; rid := fresh (dom (results s)); listing := fun ts => ts;
     inherited := fun _ => NotInherited |}.

End Db.
(** ** Reachable stores

    The stores that the scheduler can find when it queries for a task.
    The store starts empty.  A request creates a workflow from a document
    that passes validation in two saves, under whatever keys the database
    generates: the workflow first, its tasks later, and the scheduler may
    take turns in between.  Between the two saves the workflow has no
    task, so that no turn writes its row ([iteration_bare_workflow]): the
    second save finds the row as the first one left it.  And the scheduler
    takes one turn of its loop, with whatever the jobs and the database do
    in that turn.

    A turn is taken as a whole.  A save of a request that comes in the
    middle of a turn writes rows that the turn neither reads nor writes,
    under keys that are as free after the turn as they were in the middle
    of it; the store after the turn is the one reached when the save comes
    after the turn.  The stores in the middle of a turn, which the routes
    can see, are not among the reachable ones. *)

Inductive reachable : Store -> Prop :=
| reachable_empty : reachable empty_store
| reachable_workflow wid clientId input s :
    reachable s ->
    wid ∉ dom (workflows s) ->
    reachable
      (snd (Db.workflowRepository_insert wid
              (WorkflowFactory.createWorkflow clientId input) s))
| reachable_tasks wid ids raw clientId input s :
    reachable s ->
    WorkflowFactory.validateWorkflowDefinition
      (WorkflowFactory.parseWorkflowDefinition raw) = Return () ->
    workflows s !! wid = Some (WorkflowFactory.createWorkflow clientId input) ->
    (forall id r, tasks s !! id = Some r -> row_workflowId r <> wid) ->
    Db.fresh_task_keys ids raw s ->
    reachable
      (Db.taskRepository_save_all ids
         (Db.newTasks raw
            (workflow_of_row wid
               (WorkflowFactory.createWorkflow clientId input) None)) s)
| reachable_iteration c s :
    reachable s ->
    Db.legal c s ->
    reachable (Db.iteration c s).

(** ** Sample inputs *)

Module Sample.

Definition geo_input : JS.Value :=
  JS.Object [("geoJson", JS.Object [("type", JS.Str "Feature")])].

(** Step 1 feeds step 2. *)
Definition two_steps : WorkflowFactory.RawDefinition :=
  {| WorkflowFactory.raw_name := "example";
     WorkflowFactory.raw_steps :=
       [ {| WorkflowFactory.raw_taskType := "analysis";
            WorkflowFactory.raw_stepNumber := Some 1;
            WorkflowFactory.raw_dependsOn := WorkflowFactory.Absent |};
         {| WorkflowFactory.raw_taskType := "notification";
            WorkflowFactory.raw_stepNumber := Some 2;
            WorkflowFactory.raw_dependsOn := WorkflowFactory.Single 1 |} ] |}.

(** The analysis job finds no country; the other jobs return nothing. *)
Definition failing_analysis : Jobs :=
  {| DataAnalysisJob := fun _ _ _ => Throw (JS.Error "No country found");
     EmailNotificationJob := fun _ _ _ => Return JS.Undefined;
     PolygonAreaJob := fun _ _ _ => Return JS.Undefined;
     ReportGenerationJob := fun _ _ _ => Return JS.Undefined |}.

(** A single step numbered -1. *)
Definition negative_step : WorkflowFactory.WorkflowDefinition :=
  {| WorkflowFactory.name := "negative";
     WorkflowFactory.steps :=
       [ {| WorkflowFactory.taskType := "analysis";
            WorkflowFactory.stepNumber := Some (-1);
            WorkflowFactory.dependsOn := None |} ] |}.

(** A single step numbered -1 that depends on the step number 0, given as
    a single number and as a list. *)
Definition depends_on_zero : WorkflowFactory.RawDefinition :=
  {| WorkflowFactory.raw_name := "depends-on-zero";
     WorkflowFactory.raw_steps :=
       [ {| WorkflowFactory.raw_taskType := "analysis";
            WorkflowFactory.raw_stepNumber := Some (-1);
            WorkflowFactory.raw_dependsOn := WorkflowFactory.Single 0 |} ] |}.

Definition depends_on_zero_list : WorkflowFactory.RawDefinition :=
  {| WorkflowFactory.raw_name := "depends-on-zero";
     WorkflowFactory.raw_steps :=
       [ {| WorkflowFactory.raw_taskType := "analysis";
            WorkflowFactory.raw_stepNumber := Some (-1);
            WorkflowFactory.raw_dependsOn := WorkflowFactory.Many [0] |} ] |}.

(** A single step whose task type has no job. *)
Definition fax_step : WorkflowFactory.RawDefinition :=
  {| WorkflowFactory.raw_name := "fax";
     WorkflowFactory.raw_steps :=
       [ {| WorkflowFactory.raw_taskType := "sendFax";
            WorkflowFactory.raw_stepNumber := Some 1;
            WorkflowFactory.raw_dependsOn := WorkflowFactory.Absent |} ] |}.

(** A single step computing the area of the polygon. *)
Definition area_step : WorkflowFactory.RawDefinition :=
  {| WorkflowFactory.raw_name := "area";
     WorkflowFactory.raw_steps :=
       [ {| WorkflowFactory.raw_taskType := "polygonArea";
            WorkflowFactory.raw_stepNumber := Some 1;
            WorkflowFactory.raw_dependsOn := WorkflowFactory.Absent |} ] |}.

(** The area job computes the area 0; the other jobs return nothing. *)
Definition zero_area : Jobs :=
  {| DataAnalysisJob := fun _ _ _ => Return JS.Undefined;
     EmailNotificationJob := fun _ _ _ => Return JS.Undefined;
     PolygonAreaJob := fun _ _ _ => Return (JS.Number 0);
     ReportGenerationJob := fun _ _ _ => Return JS.Undefined |}.

(** Every job returns; the analysis job finds a country. *)
Definition succeeding : Jobs :=
  {| DataAnalysisJob := fun _ _ _ => Return (JS.Str "Germany");
     EmailNotificationJob := fun _ _ _ => Return JS.Undefined;
     PolygonAreaJob := fun _ _ _ => Return (JS.Number 12);
     ReportGenerationJob := fun _ _ _ => Return JS.Undefined |}.

(** The analysis job finds a country; the notification job returns the
    upstream outputs it was handed. *)
Definition echoing : Jobs :=
  {| DataAnalysisJob := fun _ _ _ => Return (JS.Str "Germany");
     EmailNotificationJob :=
       fun _ _ ctx => Return (JS.Array (dependenciesOutputs ctx));
     PolygonAreaJob := fun _ _ _ => Return JS.Undefined;
     ReportGenerationJob := fun _ _ _ => Return JS.Undefined |}.

Definition created : Store :=
  snd (WorkflowFactory.createWorkflowFromYAML two_steps "client-1" geo_input
         empty_store).

Definition after_failure : Store := TaskWorker.iteration failing_analysis created.

Definition after_success : Store := TaskWorker.iteration succeeding created.

Definition area_created : Store :=
  snd (WorkflowFactory.createWorkflowFromYAML area_step "client-1" geo_input
         empty_store).

Definition fax_created : Store :=
  snd (WorkflowFactory.createWorkflowFromYAML fax_step "client-1" geo_input
         empty_store).

(** The workflow and the two tasks of [created], as the queries load them. *)
Definition workflow0 : Workflow :=
  {| wf_workflowId := "0"; wf_clientId := "client-1";
     wf_status := WorkflowStatus.Initial; wf_finalResult := None;
     wf_input := JS.JSON_stringify geo_input; wf_tasks := None |}.

Definition second_row : TaskRow :=
  {| row_clientId := "client-1"; row_status := TaskStatus.Queued;
     row_workflowId := "0"; row_progress := None;
     row_taskType := "notification"; row_stepNumber := 2;
     row_dependantId := None |}.

Definition first_task : Task :=
  {| taskId := "0"; clientId := "client-1"; status := TaskStatus.Queued;
     workflowId := "0"; progress := None; taskType := "analysis";
     stepNumber := 1; result := None; workflow := Some workflow0;
     dependant := Some (task_of_row "1" second_row); dependencies := None |}.

(** Step 1 once it succeeded with payload [X], and step 2 holding it as its
    only dependency. *)
Definition analysed (X : JS.Value) : Task :=
  {| taskId := "0"; clientId := "client-1"; status := TaskStatus.Completed;
     workflowId := "0"; progress := None; taskType := "analysis";
     stepNumber := 1;
     result := Some {| resultId := Some "0"; data := X; error := JS.Undefined |};
     workflow := None; dependant := None; dependencies := None |}.

Definition second_task (X : JS.Value) : Task :=
  {| taskId := "1"; clientId := "client-1"; status := TaskStatus.Queued;
     workflowId := "0"; progress := None; taskType := "notification";
     stepNumber := 2; result := None; workflow := Some workflow0;
     dependant := None; dependencies := Some [analysed X] |}.

End Sample.

(** ** The four violations of a workflow definition

    The first four predicates are about the parsed definition, in which a
    [dependsOn] that was the single number 0 is no longer distinguished
    from an absent one. *)

Module Violation.
Import WorkflowFactory.

Definition empty_taskType (def : WorkflowDefinition) : Prop :=
  ∃ step, step ∈ steps def ∧ taskType step = EmptyString.

Definition missing_stepNumber (def : WorkflowDefinition) : Prop :=
  ∃ step, step ∈ steps def ∧
    (stepNumber step = None ∨ stepNumber step = Some 0).

Definition later_dependency (def : WorkflowDefinition) : Prop :=
  ∃ step n ds d, step ∈ steps def ∧ stepNumber step = Some n ∧
    dependsOn step = Some ds ∧ d ∈ ds ∧ n ≤ d.

Definition duplicate_stepNumber (def : WorkflowDefinition) : Prop :=
  ∃ i j a b, i ≠ j ∧ steps def !! i = Some a ∧ steps def !! j = Some b ∧
    stepNumber a = stepNumber b.

(** The dependency set of a step as the document gives it, and the third
    violation on the document itself. *)
Definition dependency_set (d : RawDependsOn) : list Z :=
  match d with
  | Absent => []
  | Single n => [n]
  | Many ns => ns
  end.

Definition raw_later_dependency (raw : RawDefinition) : Prop :=
  ∃ step n d, step ∈ raw_steps raw ∧ raw_stepNumber step = Some n ∧
    d ∈ dependency_set (raw_dependsOn step) ∧ n ≤ d.

(** A step number that is present and positive. *)
Definition positive_stepNumber (step : WorkflowStep) : Prop :=
  ∃ n, stepNumber step = Some n ∧ 0 < n.

End Violation.

(** Number of tasks in a given status. *)
Definition count_status (st : TaskStatus.t) (ts : list Task) : nat :=
  length (filter (fun t => status t = st) ts).

(** The task as [run] hands it to the job: in progress, with its progress
    note set. *)
Definition started (task : Task) : Task :=
  set_progress (Some "starting job...")
    (set_status TaskStatus.InProgress task).

(** A row without its foreign key: the columns of the task itself. *)
Definition columns (r : TaskRow) : TaskRow := set_row_dependantId None r.

(** ** The dependency edges of a store *)

(** [u] is an upstream dependency of the task with key [cid]: the
    [dependant] of [u] is that task. *)
Definition upstream_of (cid : string) (u : TaskRow) : Prop :=
  row_dependantId u = Some cid.

(** Every edge leads to an existing task of the same workflow with a
    greater step number. *)
Definition edges_ordered (m : gmap string TaskRow) : Prop :=
  ∀ uid u cid, m !! uid = Some u → upstream_of cid u →
    ∃ c, m !! cid = Some c ∧ row_workflowId u = row_workflowId c ∧
         row_stepNumber u < row_stepNumber c.

(** What of a row decides the edges and the order of the query. *)
Definition edge_key (r : TaskRow) : string * Z * option string :=
  (row_workflowId r, row_stepNumber r, row_dependantId r).

Definition same_edges (m m' : gmap string TaskRow) : Prop :=
  ∀ id, edge_key <$> m' !! id = edge_key <$> m !! id.

(** A task object that agrees with its row on the workflow, the step
    number and the dependant, and has no dependencies loaded: what the
    query of the scheduler returns. *)
Definition attached (t : Task) (m : gmap string TaskRow) : Prop :=
  dependencies t = None ∧
  ∃ r, m !! taskId t = Some r ∧ workflowId t = row_workflowId r ∧
       stepNumber t = row_stepNumber r ∧
       ∀ d, dependant t = Some d → row_dependantId r = Some (taskId d).

(** Every dependency of a new task is a sibling with a smaller step
    number. *)
Definition dependencies_precede (ts : list WorkflowFactory.NewTask) : Prop :=
  ∀ i t refs j,
    ts !! i = Some t → WorkflowFactory.new_dependencies t = Some refs →
    j ∈ refs →
    ∃ tj m n, ts !! j = Some tj ∧
      WorkflowFactory.new_stepNumber tj = Some m ∧
      WorkflowFactory.new_stepNumber t = Some n ∧ m < n.
(** * More of the code

    The rest of the sources that can be embedded: [take], the results
    route and the analysis route, the four jobs (the geometry library,
    [JSON.parse] and the number drawn by [Math.random()] are parameters),
    and what is needed to state facts about the scheduler over several
    turns: its queue, its edges, the owner of a result. *)

From Stdlib Require QArith.

(** ** [take] *)

Module Take.

(** The own properties of a value: those of an object literal, and for an
    array its indices and its length. *)
Definition props (obj : JS.Value) : gmap string JS.Value :=
  match obj with
  | JS.Object fields => list_to_map fields
  | JS.Array xs =>
      list_to_map (imap (fun i x => (pretty i, x)) xs
                   ++ [("length", JS.Number (Z.of_nat (length xs)))])
  | _ => ∅
  end.

(** [typeof obj === 'object'] *)
Definition typeof_object (obj : JS.Value) : bool :=
  match obj with
  | JS.Null | JS.Array _ | JS.Object _ => true
  | _ => false
  end.

(** [obj === null] *)
Definition is_null (obj : JS.Value) : bool :=
  match obj with
  | JS.Null => true
  | _ => false
  end.

(** The callback of the [reduce]: [if (key in obj) acc[key] = obj[key]],
    where [p] holds the properties that [key in obj] and [obj[key]] see.
    The values are of any type [V]: an inherited property is mostly a
    method, which is no [JS.Value].  The assignment adds the property to
    the plain object [acc], except for the key [__proto__]: that
    assignment calls the setter that [acc] inherits, which adds no
    property. *)
Definition step {V : Type} (p acc : gmap string V) (key : string)
    : gmap string V :=
  match p !! key with
  | Some v => if String.eqb key "__proto__" then acc else <[key := v]> acc
  | None => acc
  end.

(** [keys.reduce(..., {})] over the properties [p] that are seen. *)
Definition pick {V : Type} (p : gmap string V) (keys : list string)
    : gmap string V :=
  foldl (step p) ∅ keys.

(** The properties that [key in obj] and [obj[key]] see: the own ones and,
    where there is no own property of the name, the ones that the value
    inherits from its prototype chain, [proto].  [data] embeds the values
    of the own properties. *)
Definition visible {V : Type} (data : JS.Value -> V) (proto : gmap string V)
    (obj : JS.Value) : gmap string V :=
  (data <$> props obj) ∪ proto.

(** [take(obj, keys)].  [keys] is [None] when it is not an array, and then
    the object itself is returned; the result is the dictionary of the own
    properties of the object returned. *)
Definition take {V : Type} (data : JS.Value -> V) (proto : gmap string V)
    (obj : JS.Value) (keys : option (list string)) : gmap string V :=
  if negb (JS.truthy obj) || negb (typeof_object obj) || is_null obj then ∅
  else match keys with
       | None => data <$> props obj
       | Some ks => pick (visible data proto obj) ks
       end.

End Take.

(** ** HTTP responses *)

Module HttpStatus.
Inductive t : Type := Ok | Accepted | BadRequest | NotFound | InternalServerError.

#[global] Instance eq_dec : EqDecision t.
Proof. solve_decision. Defined.

Definition code (s : t) : Z :=
  match s with
  | Ok => 200
  | Accepted => 202
  | BadRequest => 400
  | NotFound => 404
  | InternalServerError => 500
  end.
End HttpStatus.

(** [res.status(code).json(body)] *)
Record Response : Type := Build_Response {
  res_status : HttpStatus.t;
  res_json : gmap string JS.Value }.

Definition message (text : string) : gmap string JS.Value :=
  {[ "message" := JS.Str text ]}.

(** ** The results route *)

Module ResultsRoute.

(** The columns of a loaded workflow, as properties of the entity object.
    A column that is NULL is read as [null].  The three keys that the
    route takes are among them, so that what the entity inherits plays no
    part. *)
Definition workflow_columns (w : Workflow) : gmap string JS.Value :=
  list_to_map
    [ ("workflowId", JS.Str (wf_workflowId w));
      ("clientId", JS.Str (wf_clientId w));
      ("status", JS.Str (WorkflowStatus.value (wf_status w)));
      ("finalResult", match wf_finalResult w with
                      | Some r => JS.Str r
                      | None => JS.Null
                      end);
      ("input", wf_input w) ].

(** [GET /:id/results] *)
Definition get_results (workflowId : string) (s : Store) : Response :=
  match workflowRepository_findOne workflowId s with
  | None =>
      {| res_status := HttpStatus.NotFound;
         res_json := message "Workflow not found" |}
  | Some w =>
      if negb (Workflow_isCompleted w)
      then {| res_status := HttpStatus.BadRequest;
              res_json := message "Workflow is not completed yet" |}
      else {| res_status := HttpStatus.Ok;
              res_json := Take.pick (workflow_columns w)
                            ["workflowId"; "status"; "finalResult"] |}
  end.

End ResultsRoute.

(** ** The analysis route *)

Module AnalysisRoutes.

(** [POST /analysis], for a body that passed the schema.  [file] is the
    document loaded from the workflow file named in the body, [None] when
    the file cannot be read or is not YAML (reading it then throws).  Any
    error is caught and answered with 500. *)
Definition post (file : option WorkflowFactory.RawDefinition)
    (clientId : string) (input : JS.Value) (s : Store) : Response * Store :=
  match file with
  | None =>
      ({| res_status := HttpStatus.InternalServerError;
          res_json := message "Failed to create workflow" |}, s)
  | Some raw =>
      match WorkflowFactory.createWorkflowFromYAML raw clientId input s with
      | (Return workflow, s') =>
          ({| res_status := HttpStatus.Accepted;
              res_json :=
                {[ "workflowId" := JS.Str (wf_workflowId workflow);
                   "message" :=
                     JS.Str "Workflow created and tasks queued from YAML definition." ]} |},
           s')
      | (Throw _, s') =>
          ({| res_status := HttpStatus.InternalServerError;
              res_json := message "Failed to create workflow" |}, s')
      end
  end.

End AnalysisRoutes.

(** ** The queue of the scheduler *)

(** The keys of the queued rows: what the query of the scheduler chooses
    from. *)
Definition queued (s : Store) : gset string :=
  dom (filter (λ kv, row_status kv.2 = TaskStatus.Queued) (tasks s)).

(** The consumer of a queued task has not been run: it is queued, or it
    was skipped. *)
Definition consumers_wait (m : gmap string TaskRow) : Prop :=
  ∀ uid u cid c,
    m !! uid = Some u → row_status u = TaskStatus.Queued →
    upstream_of cid u → m !! cid = Some c →
    row_status c = TaskStatus.Queued ∨ row_status c = TaskStatus.Skipped.

(** Successive turns of the loop of the scheduler; the jobs and the
    database may behave differently from one turn to the next (the
    notification job fails at random). *)
Definition turns (cs : list Db.Turn) (s : Store) : Store :=
  foldl (λ s c, Db.iteration c s) s cs.

(** What a result row holds for the report: its payload. *)
Definition payload (r : ResultRow) : JS.Value * JS.Value :=
  (rrow_data r, rrow_error r).

(** The keys of the dependencies that a task object holds, and the key of
    the result that it holds: saving the object binds the rows of these
    to the task. *)
Definition loaded (t : Task) : list string :=
  match dependencies t with
  | Some ds => taskId <$> ds
  | None => []
  end.

Definition carried (t : Task) : option string := result t ≫= resultId.

(** The task as the [catch] block leaves it. *)
Definition failed (task : Task) : Task :=
  set_dependant (set_status TaskStatus.Skipped <$> dependant task)
    (set_progress None (set_status TaskStatus.Failed (started task))).

(** ** The dependencies assigned by [populateDependencies] *)

(** What holds of the array of tasks while [populateDependencies] goes
    through the steps, [done] being the steps already seen: the task at a
    position has the step number of the step at that position; its
    [dependencies], once assigned, are the positions of the steps that the
    [dependsOn] of its step lists; and they are assigned as soon as a step
    with a [dependsOn] has been seen. *)
Definition wired (def : WorkflowFactory.WorkflowDefinition)
    (done : list WorkflowFactory.WorkflowStep)
    (cur : list WorkflowFactory.NewTask) : Prop :=
  (∀ i, WorkflowFactory.new_stepNumber <$> cur !! i
        = WorkflowFactory.stepNumber <$> WorkflowFactory.steps def !! i) ∧
  ∀ i t si, cur !! i = Some t → WorkflowFactory.steps def !! i = Some si →
    match WorkflowFactory.new_dependencies t with
    | Some refs =>
        ∃ ds, WorkflowFactory.dependsOn si = Some ds ∧
          ∀ j, j ∈ refs ↔
               ∃ sj, WorkflowFactory.steps def !! j = Some sj ∧
                     WorkflowFactory.includes ds (WorkflowFactory.stepNumber sj)
                     = true
    | None => WorkflowFactory.dependsOn si = None ∨ si ∉ done
    end.

(** ** The geometry jobs *)

Module Geo.

(** A feature of [world_data.json], as far as the analysis job reads it:
    [geometry.type] and [properties?.name]; the feature itself is handed
    to the library. *)
Record Feature : Type := Build_Feature {
  geometry_type : string;
  properties_name : JS.Value;
  feature : JS.Value }.

(** What the jobs import: [JSON.parse], the three functions of the
    geometry library, each of which may throw, and the features of the
    country mapping. *)
Record Library : Type := Build_Library {
  JSON_parse : string -> Except JS.Value JS.Value;
  booleanWithin : JS.Value -> Feature -> Except JS.Value bool;
  booleanValid : JS.Value -> Except JS.Value bool;
  area : JS.Value -> Except JS.Value JS.Value;
  features : list Feature }.

Definition NO_GEOMETRY : string := "No input geometry provided in context".
Definition NO_COUNTRY : string := "No country found".
Definition INVALID_GEOMETRY : string := "Cannot calculate area: Invalid geometry".

(** [context.input?.geoJson] *)
Definition inputGeometry (lib : Library) (context : JobContext)
    : Except JS.Value JS.Value :=
  match JobContext_input (JSON_parse lib) context with
  | Throw e => Throw e
  | Return input => Return (JS.opt_get input "geoJson")
  end.

(** [type === 'Polygon' || type === 'MultiPolygon'] *)
Definition polygonal (f : Feature) : bool :=
  String.eqb (geometry_type f) "Polygon"
  || String.eqb (geometry_type f) "MultiPolygon".

(** The [for] loop of the analysis job over the features that are left. *)
Fixpoint scan (within : Feature -> Except JS.Value bool) (fs : list Feature)
    : Except JS.Value JS.Value :=
  match fs with
  | [] => Throw (JS.Error NO_COUNTRY)
  | f :: rest =>
      if polygonal f then
        match within f with
        | Throw e => Throw e
        | Return isWithin =>
            if isWithin then Return (properties_name f) else scan within rest
        end
      else scan within rest
  end.

(** [DataAnalysisJob.run] *)
Definition DataAnalysisJob_run (lib : Library) : Job :=
  fun _ _ context =>
    match inputGeometry lib context with
    | Throw e => Throw e
    | Return g =>
        if negb (JS.truthy g) then Throw (JS.Error NO_GEOMETRY)
        else scan (booleanWithin lib g) (features lib)
    end.

(** [PolygonAreaJob.run] *)
Definition PolygonAreaJob_run (lib : Library) : Job :=
  fun _ _ context =>
    match inputGeometry lib context with
    | Throw e => Throw e
    | Return g =>
        if negb (JS.truthy g) then Throw (JS.Error NO_GEOMETRY)
        else match booleanValid lib g with
             | Throw e => Throw e
             | Return valid =>
                 if negb valid then Throw (JS.Error INVALID_GEOMETRY)
                 else area lib g
             end
    end.

End Geo.

(** A small country mapping and a library that knows one input: the
    geometry of [Sample.geo_input] lies in Germany. *)
Module Atlas.

Definition shape (type name : string) : Geo.Feature :=
  {| Geo.geometry_type := type; Geo.properties_name := JS.Str name;
     Geo.feature := JS.Object [("type", JS.Str "Feature")] |}.

Definition lib : Geo.Library :=
  {| Geo.JSON_parse := fun text =>
       if String.eqb text (JS.toString (JS.JSON_stringify Sample.geo_input))
       then Return Sample.geo_input
       else if String.eqb text "{}" then Return (JS.Object [])
       else Throw (JS.Error "Unexpected token");
     Geo.booleanWithin := fun _ f =>
       Return (String.eqb (JS.toString (Geo.properties_name f)) "Germany");
     Geo.booleanValid := fun _ => Return true;
     Geo.area := fun _ => Return (JS.Number 12);
     Geo.features :=
       [ shape "Point" "Germany"; shape "Polygon" "France";
         shape "MultiPolygon" "Germany"; shape "Polygon" "Germany" ] |}.

(** An area task of a workflow whose input is the empty object. *)
Definition blank : Task :=
  {| taskId := "0"; clientId := "client-1"; status := TaskStatus.Queued;
     workflowId := "0"; progress := None; taskType := "polygonArea";
     stepNumber := 1; result := None;
     workflow :=
       Some {| wf_workflowId := "0"; wf_clientId := "client-1";
               wf_status := WorkflowStatus.Initial; wf_finalResult := None;
               wf_input := JS.JSON_stringify (JS.Object []);
               wf_tasks := None |};
     dependant := None; dependencies := None |}.

End Atlas.

(** ** The notification job *)

(** [EmailNotificationJob.run]: [random] is the number that [Math.random()]
    draws, a rational in [0, 1). *)
Definition EmailNotificationJob_run (random : QArith_base.Q) : Job :=
  fun _ _ _ =>
    if QArith_base.Qlt_le_dec random (QArith_base.Qmake 2 10)
    then Throw (JS.Error "Failed to send email")
    else Return JS.Undefined.

(** ** The report job *)

Module Report.

(** A column read back from the table: NULL is read as [null]. *)
Definition column (v : JS.Value) : JS.Value :=
  match v with
  | JS.Undefined => JS.Null
  | _ => v
  end.

(** The result that the relation [tasks.result] loads for a task: the
    row that names the task (the relation is one-to-one; of several rows
    naming the same task the first is taken). *)
Definition result_of (id : string) (s : Store) : option Result :=
  match filter (fun kv => rrow_taskId (snd kv) = Some id)
          (map_to_list (results s)) with
  | [] => None
  | kv :: _ =>
      Some {| resultId := Some (fst kv);
              data := column (rrow_data (snd kv));
              error := column (rrow_error (snd kv)) |}
  end.

(** The tasks of a workflow, loaded with their results. *)
Definition tasks_with_results (wid : string) (s : Store) : list Task :=
  map (fun kv => set_result (result_of (fst kv) s)
                   (task_of_row (fst kv) (snd kv)))
    (filter (fun kv => row_workflowId (snd kv) = wid)
       (map_to_list (tasks s))).

(** An element of the [tasks] array of the report. *)
Definition entry (task : Task) : JS.Value :=
  JS.Object
    [ ("taskId", JS.Str (taskId task));
      ("type", JS.Str (taskType task));
      ("status", JS.Str (TaskStatus.value (status task)));
      ("result", WorkflowReportGenerator.result_data task);
      ("error", WorkflowReportGenerator.result_error task) ].

(** [ReportGenerationJob.run] *)
Definition ReportGenerationJob_run : Job :=
  fun s task _ =>
    match workflow task with
    | None =>
        Throw (JS.Error
          "Cannot read properties of undefined (reading 'workflowId')")
    | Some w =>
        let workflowId := wf_workflowId w in
        match workflows s !! workflowId with
        | None =>
            Throw (JS.Error
              ("Workflow with ID " +:+ workflowId +:+ " not found"))
        | Some row =>
            let ts := tasks_with_results workflowId s in
            let workflow := workflow_of_row workflowId row (Some ts) in
            match WorkflowReportGenerator.generateAggregatedReport workflow with
            | Throw e => Throw e
            | Return finalReport =>
                Return (JS.Object
                  [ ("workflowId", JS.Str workflowId);
                    ("tasks", JS.Array (map entry ts));
                    ("finalReport", JS.Str finalReport) ])
            end
        end
    end.

(** A workflow whose only step generates the report, and its task as the
    scheduler loads it. *)
Definition only_report : WorkflowFactory.RawDefinition :=
  {| WorkflowFactory.raw_name := "report";
     WorkflowFactory.raw_steps :=
       [ {| WorkflowFactory.raw_taskType := "reportGeneration";
            WorkflowFactory.raw_stepNumber := Some 1;
            WorkflowFactory.raw_dependsOn := WorkflowFactory.Absent |} ] |}.

Definition created : Store :=
  snd (WorkflowFactory.createWorkflowFromYAML only_report "client-1"
         Sample.geo_input empty_store).

Definition task : Task :=
  {| taskId := "0"; clientId := "client-1"; status := TaskStatus.Queued;
     workflowId := "0"; progress := None; taskType := "reportGeneration";
     stepNumber := 1; result := None; workflow := Some Sample.workflow0;
     dependant := None; dependencies := None |}.

End Report.

(** ** The edges of the task table *)

(** [c] is the dependant of [u] in the task table [m]. *)
Definition edge (m : gmap string TaskRow) (u c : string) : Prop :=
  ∃ r, m !! u = Some r ∧ upstream_of c r.

(** ** The task types that have a job *)

(** The keys of [JobFactory.jobMap]. *)
Definition registered : list string :=
  ["analysis"; "notification"; "polygonArea"; "reportGeneration"].

(** What identifies the work of a row: its client and its task type. *)
Definition work (r : TaskRow) : string * string :=
  (row_clientId r, row_taskType r).

(** ** The owner of a result *)


(** ** The order of the query is strict *)

(** No two task rows of a workflow have the same step number. *)
Definition steps_unique (m : gmap string TaskRow) : Prop :=
  ∀ id1 id2 r1 r2,
    m !! id1 = Some r1 → m !! id2 = Some r2 →
    row_workflowId r1 = row_workflowId r2 →
    row_stepNumber r1 = row_stepNumber r2 → id1 = id2.

(** The row [r] comes strictly before the row [r'] in the order of the
    query of the scheduler. *)
Definition comes_before (r r' : TaskRow) : Prop :=
  String.compare (row_workflowId r) (row_workflowId r') = Lt ∨
  (row_workflowId r = row_workflowId r' ∧
   row_stepNumber r < row_stepNumber r').

(** * Facts *)

(** ** Validation *)

Section ValidationFacts.
Import WorkflowFactory.

Lemma validateStep_Return (step : WorkflowStep) :
  validateStep step = Return () ↔
  taskType step ≠ EmptyString ∧
  ∃ n, stepNumber step = Some n ∧ n ≠ 0 ∧
       ∀ ds d, dependsOn step = Some ds → d ∈ ds → d < n.
Proof.
  unfold validateStep, falsy_number. simpl.
  destruct (String.eqb (taskType step) EmptyString) eqn:Ht; simpl.
  { apply String.eqb_eq in Ht. split; [done | intros [? _]; done]. }
  apply String.eqb_neq in Ht.
  destruct (stepNumber step) as [n|] eqn:Hn; simpl.
  2: { split; [done | intros (_ & n & ? & _); done]. }
  destruct (Z.eqb_spec n 0) as [->|Hn0]; simpl.
  { split; [done | intros (_ & n & [= <-] & ? & _); done]. }
  destruct (dependsOn step) as [ds|] eqn:Hds.
  2: { split; [|done]. intros _. split; [done|].
       exists n. split_and!; [done..|]. intros ???; done. }
  destruct (existsb (λ d, n <=? d) ds) eqn:Hex.
  - split; [done|]. intros (_ & n' & [= <-] & _ & Hall).
    apply existsb_exists in Hex as (d & Hd & Hle).
    apply Z.leb_le in Hle. apply list_elem_of_In in Hd.
    specialize (Hall ds d eq_refl Hd). lia.
  - split; [|done]. intros _. split; [done|].
    exists n. split_and!; [done..|]. intros ds' d [= <-] Hd.
    destruct (Z.lt_ge_cases d n) as [|Hge]; [done|].
    assert (existsb (λ d, n <=? d) ds = true) as Habs; [|congruence].
    apply existsb_exists. exists d. split; [by apply list_elem_of_In|].
    by apply Z.leb_le.
Qed.

Lemma validateStep_Throw (step : WorkflowStep) (e : string) :
  validateStep step = Throw e →
  (e = TASK_TYPE_REQUIRED ∧ taskType step = EmptyString) ∨
  (e = STEP_NUMBER_REQUIRED ∧
     (stepNumber step = None ∨ stepNumber step = Some 0)) ∨
  (e = DEPENDS_ON_LATER_STEP ∧
     ∃ n ds d, stepNumber step = Some n ∧ dependsOn step = Some ds ∧
               d ∈ ds ∧ n ≤ d).
Proof.
  unfold validateStep, falsy_number. simpl.
  destruct (String.eqb (taskType step) EmptyString) eqn:Ht; simpl.
  { apply String.eqb_eq in Ht. intros [= <-]. by left. }
  destruct (stepNumber step) as [n|] eqn:Hn; simpl.
  2: { intros [= <-]. right; left. by split; [|left]. }
  destruct (Z.eqb_spec n 0) as [->|Hn0]; simpl.
  { intros [= <-]. right; left. by split; [|right]. }
  destruct (dependsOn step) as [ds|] eqn:Hds; [|done].
  destruct (existsb (λ d, n <=? d) ds) eqn:Hex; [|done].
  intros [= <-]. right; right. split; [done|].
  apply existsb_exists in Hex as (d & Hd & Hle).
  exists n, ds, d. split_and!; [done..| |].
  - by apply list_elem_of_In.
  - by apply Z.leb_le.
Qed.

Lemma validateSteps_Return (l : list WorkflowStep) :
  validateSteps l = Return () ↔ Forall (λ step, validateStep step = Return ()) l.
Proof.
  induction l as [|step l IH]; simpl.
  - split; [constructor | done].
  - destruct (validateStep step) as [[]|e] eqn:Hs.
    + rewrite IH. split; [by constructor | by inversion 1].
    + split; [done | inversion 1; congruence].
Qed.

Lemma validateSteps_Throw (l : list WorkflowStep) (e : string) :
  validateSteps l = Throw e → ∃ step, step ∈ l ∧ validateStep step = Throw e.
Proof.
  induction l as [|step l IH]; simpl; [done|].
  destruct (validateStep step) as [[]|e'] eqn:Hs.
  - intros (s & ? & ?)%IH. exists s. split; [by right | done].
  - intros [= ->]. exists step. split; [by left | done].
Qed.

(** A step that [validateStep] accepts makes [validateSteps] go on; one it
    refuses makes the whole scan throw (possibly earlier). *)
Lemma validateSteps_rejects (l : list WorkflowStep) (step : WorkflowStep) :
  step ∈ l → validateStep step ≠ Return () → ∃ e, validateSteps l = Throw e.
Proof.
  intros Hin Hbad.
  destruct (validateSteps l) as [[]|e] eqn:Hl; [|by eexists].
  apply validateSteps_Return in Hl.
  rewrite Forall_forall in Hl. by specialize (Hl _ Hin).
Qed.

(** The size of the set of a list is its length exactly when the list has
    no duplicate. *)
Lemma size_list_to_set_le (l : list (option Z)) :
  (size (list_to_set l : gset (option Z)) ≤ length l)%nat.
Proof.
  induction l as [|x l IH].
  - by rewrite list_to_set_nil, size_empty.
  - rewrite list_to_set_cons, size_union_alt, size_singleton. simpl.
    etrans; [|apply le_n_S, IH].
    apply le_n_S, subseteq_size. set_solver.
Qed.

Lemma size_list_to_set_NoDup (l : list (option Z)) :
  size (list_to_set l : gset (option Z)) = length l ↔ NoDup l.
Proof.
  split; [|apply size_list_to_set].
  induction l as [|x l IH]; [constructor|].
  rewrite list_to_set_cons. simpl. intros Hsz.
  destruct (decide (x ∈ l)) as [Hin|Hnin].
  - exfalso.
    assert ({[x]} ∪ list_to_set l = (list_to_set l : gset (option Z))) as Heq
      by set_solver.
    rewrite Heq in Hsz. pose proof (size_list_to_set_le l). lia.
  - constructor; [done|]. apply IH.
    rewrite size_union, size_singleton in Hsz by set_solver. lia.
Qed.

Lemma validate_Return (def : WorkflowDefinition) :
  validateWorkflowDefinition def = Return () ↔
  Forall (λ step, validateStep step = Return ()) (steps def) ∧
  NoDup (map stepNumber (steps def)).
Proof.
  unfold validateWorkflowDefinition.
  destruct (validateSteps (steps def)) as [[]|e] eqn:Hs.
  - apply validateSteps_Return in Hs.
    case_bool_decide as Hsz.
    + split; [done|]. intros [_ Hnd]. exfalso. apply Hsz.
      by apply size_list_to_set_NoDup.
    + split; [|done]. intros _. split; [done|].
      apply size_list_to_set_NoDup.
      destruct (decide (size (list_to_set (map stepNumber (steps def))
                               : gset (option Z))
                        = length (map stepNumber (steps def)))) as [Heq|Hne];
        [exact Heq | by destruct Hsz].
  - split; [done|]. intros [Hall _].
    apply validateSteps_Return in Hall. congruence.
Qed.

Lemma not_NoDup_lookup (l : list (option Z)) :
  ¬ NoDup l → ∃ i j x, i ≠ j ∧ l !! i = Some x ∧ l !! j = Some x.
Proof.
  induction l as [|x l IH]; intros Hnd.
  - destruct Hnd. constructor.
  - destruct (decide (x ∈ l)) as [Hin|Hnin].
    + apply list_elem_of_lookup in Hin as [j Hj].
      exists 0%nat, (S j), x. done.
    + destruct IH as (i & j & y & Hij & Hi & Hj).
      { intros Hl. apply Hnd. by constructor. }
      exists (S i), (S j), y. split_and!; [lia | done..].
Qed.

Lemma duplicate_not_NoDup (def : WorkflowDefinition) :
  Violation.duplicate_stepNumber def ↔ ¬ NoDup (map stepNumber (steps def)).
Proof.
  split.
  - intros (i & j & a & b & Hij & Ha & Hb & Hab) Hnd.
    apply Hij. eapply NoDup_lookup; [exact Hnd| |].
    + rewrite list_lookup_fmap, Ha. done.
    + rewrite list_lookup_fmap, Hb. simpl. by rewrite Hab.
  - intros (i & j & x & Hij & Hi & Hj)%not_NoDup_lookup.
    rewrite list_lookup_fmap in Hi, Hj.
    destruct (steps def !! i) as [a|] eqn:Ha; [|done].
    destruct (steps def !! j) as [b|] eqn:Hb; [|done].
    simplify_eq/=. by exists i, j, a, b.
Qed.

End ValidationFacts.

Section ValidationClaims.
Import WorkflowFactory.

Lemma violation_rejected (def : WorkflowDefinition) :
  Violation.empty_taskType def ∨ Violation.missing_stepNumber def ∨
  Violation.later_dependency def ∨ Violation.duplicate_stepNumber def →
  ∃ e, validateWorkflowDefinition def = Throw e.
Proof.
  intros Hv.
  destruct (validateWorkflowDefinition def) as [[]|e] eqn:Hval; [|by eexists].
  exfalso. apply validate_Return in Hval as [Hall Hnd].
  rewrite Forall_forall in Hall.
  destruct Hv as [(step & Hin & Ht)|[(step & Hin & Hs)|[Hl|Hd]]].
  - apply Hall, validateStep_Return in Hin as [? _]. done.
  - apply Hall, validateStep_Return in Hin as (_ & n & Hn & Hn0 & _).
    destruct Hs as [Hs|Hs]; rewrite Hs in Hn; by simplify_eq.
  - destruct Hl as (step & n & ds & d & Hin & Hn & Hds & Hd & Hle).
    apply Hall, validateStep_Return in Hin as (_ & n' & Hn' & _ & Hlt).
    rewrite Hn in Hn'. simplify_eq. specialize (Hlt ds d Hds Hd). lia.
  - by apply duplicate_not_NoDup in Hd.
Qed.

Lemma rejection_identifies_violation (def : WorkflowDefinition) (e : string) :
  validateWorkflowDefinition def = Throw e →
  (e = TASK_TYPE_REQUIRED ∧ Violation.empty_taskType def) ∨
  (e = STEP_NUMBER_REQUIRED ∧ Violation.missing_stepNumber def) ∨
  (e = DEPENDS_ON_LATER_STEP ∧ Violation.later_dependency def) ∨
  (e = STEP_NUMBERS_NOT_UNIQUE ∧ Violation.duplicate_stepNumber def).
Proof.
  unfold validateWorkflowDefinition.
  destruct (validateSteps (steps def)) as [[]|e'] eqn:Hs.
  - case_bool_decide as Hsz; [|done]. intros [= <-].
    do 3 right. split; [done|]. apply duplicate_not_NoDup.
    intros Hnd. apply Hsz. by apply size_list_to_set_NoDup.
  - intros [= ->].
    apply validateSteps_Throw in Hs as (step & Hin & Hthrow).
    apply validateStep_Throw in Hthrow
      as [[-> ?]|[[-> ?]|[-> (n & ds & d & ? & ? & ? & ?)]]].
    + left. split; [done|]. by exists step.
    + right; left. split; [done|]. by exists step.
    + right; right; left. split; [done|]. by exists step, n, ds, d.
Qed.

(** [X23] Validation of the parsed definition, where a [dependsOn] that
    is the single number 0 counts as absent: it rejects a definition that
    has a step with an empty task type, a step with a missing or zero step
    number, a step whose list of dependencies holds a step number greater
    than or equal to its own, or two steps with the same step number; the
    message thrown is one of four pairwise distinct messages and names a
    violation the parsed definition really has; and a rejected definition
    leaves the store as it was: no workflow and no task is persisted. *)
Theorem parsed_violations_rejected (def : WorkflowDefinition) :
  (Violation.empty_taskType def ∨ Violation.missing_stepNumber def ∨
   Violation.later_dependency def ∨ Violation.duplicate_stepNumber def →
   ∃ e, validateWorkflowDefinition def = Throw e) ∧
  (∀ e, validateWorkflowDefinition def = Throw e →
     (e = TASK_TYPE_REQUIRED ∧ Violation.empty_taskType def) ∨
     (e = STEP_NUMBER_REQUIRED ∧ Violation.missing_stepNumber def) ∨
     (e = DEPENDS_ON_LATER_STEP ∧ Violation.later_dependency def) ∨
     (e = STEP_NUMBERS_NOT_UNIQUE ∧ Violation.duplicate_stepNumber def)) ∧
  NoDup [TASK_TYPE_REQUIRED; STEP_NUMBER_REQUIRED; DEPENDS_ON_LATER_STEP;
         STEP_NUMBERS_NOT_UNIQUE] ∧
  (∀ wid ids raw clientId input s e,
     parseWorkflowDefinition raw = def →
     validateWorkflowDefinition def = Throw e →
     createWorkflowFromYAML raw clientId input s = (Throw e, s) ∧
     Db.createWorkflowFromYAML wid ids raw clientId input s = (Throw e, s)).
Proof.
  split_and!.
  - apply violation_rejected.
  - apply rejection_identifies_violation.
  - compute_done.
  - intros wid ids raw clientId input s e <- Hval.
    unfold createWorkflowFromYAML, Db.createWorkflowFromYAML.
    by rewrite Hval.
Qed.

(** [C4] fails in the code for the third violation.  The document whose
    only step is numbered -1 and has [dependsOn: 0] depends on a step
    number greater than its own, and it passes validation: a workflow and
    a task are persisted.  The test of [dependsOn] is a test of
    truthiness, which takes the number 0 for an absent value; the same
    dependency written as the list [[0]] is rejected. *)
Theorem single_zero_dependency_accepted :
  Violation.raw_later_dependency Sample.depends_on_zero ∧
  validateWorkflowDefinition (parseWorkflowDefinition Sample.depends_on_zero)
    = Return () ∧
  (∃ w s',
     createWorkflowFromYAML Sample.depends_on_zero "client-1"
       Sample.geo_input empty_store = (Return w, s') ∧
     workflows s' !! wf_workflowId w
       = Some (createWorkflow "client-1" Sample.geo_input) ∧
     (∃ id row, tasks s' !! id = Some row ∧
                row_workflowId row = wf_workflowId w ∧
                row_stepNumber row = -1)) ∧
  (∀ wid id s, ∃ w s',
     Db.createWorkflowFromYAML wid [id] Sample.depends_on_zero "client-1"
       Sample.geo_input s = (Return w, s') ∧
     workflows s' !! wid = Some (createWorkflow "client-1" Sample.geo_input) ∧
     (∃ row, tasks s' !! id = Some row ∧ row_workflowId row = wid ∧
             row_stepNumber row = -1)) ∧
  Violation.raw_later_dependency Sample.depends_on_zero_list ∧
  createWorkflowFromYAML Sample.depends_on_zero_list "client-1"
    Sample.geo_input empty_store = (Throw DEPENDS_ON_LATER_STEP, empty_store).
Proof.
  assert (∀ t ds, Violation.raw_later_dependency
            {| raw_name := "depends-on-zero";
               raw_steps := [ {| raw_taskType := t; raw_stepNumber := Some (-1);
                                 raw_dependsOn := ds |} ] |}
          ↔ ∃ d, d ∈ Violation.dependency_set ds ∧ -1 ≤ d) as Hv.
  { intros t ds. split.
    - intros (step & n & d & Hin & Hn & Hd & Hle).
      apply list_elem_of_singleton in Hin as ->. simpl in *.
      injection Hn as <-. by exists d.
    - intros (d & Hd & Hle). eexists _, (-1), d.
      split; [apply list_elem_of_here|]. by split_and!. }
  split_and!.
  - apply Hv. exists 0. split; [apply list_elem_of_here | lia].
  - vm_compute. reflexivity.
  - eexists _, _. split; [vm_compute; reflexivity|].
    split; [vm_compute; reflexivity|].
    exists "0". eexists. split; [vm_compute; reflexivity|]. done.
  - intros wid id s. eexists _, _. split; [reflexivity|].
    cbn. rewrite lookup_insert_eq. split; [done|].
    eexists. rewrite lookup_insert_eq. done.
  - apply Hv. exists 0. split; [apply list_elem_of_here | lia].
  - vm_compute. reflexivity.
Qed.

(** [C5], as stated, fails: a definition whose only step is numbered -1,
    which is not a positive number, passes validation. *)
Lemma negative_stepNumber_passes_validation :
  (∃ step, step ∈ steps Sample.negative_step ∧
           ¬ Violation.positive_stepNumber step) ∧
  validateWorkflowDefinition Sample.negative_step = Return ().
Proof.
  split; [|vm_compute; reflexivity].
  eexists. split; [apply list_elem_of_here|].
  intros (n & [= <-] & Hpos). lia.
Qed.

(** [C5], amended: a definition containing a step whose step number is absent
    or zero fails validation; every definition that passes validation has
    only present, non-zero step numbers. *)
Theorem validation_requires_stepNumber (def : WorkflowDefinition) :
  (Violation.missing_stepNumber def →
   ∃ e, validateWorkflowDefinition def = Throw e) ∧
  (validateWorkflowDefinition def = Return () →
   ∀ step, step ∈ steps def → ∃ n, stepNumber step = Some n ∧ n ≠ 0).
Proof.
  split.
  - intros Hv. apply violation_rejected. by right; left.
  - intros [Hall _]%validate_Return step Hin.
    rewrite Forall_forall in Hall.
    apply Hall, validateStep_Return in Hin as (_ & n & ? & ? & _).
    by exists n.
Qed.

Lemma validation_requires_stepNumber_witness :
  ∃ n, Some (-1) = Some n ∧ n ≠ 0.
Proof.
  apply (proj2 (validation_requires_stepNumber Sample.negative_step)
           eq_refl
           {| taskType := "analysis"; stepNumber := Some (-1);
              dependsOn := None |}).
  apply list_elem_of_here.
Defined.

End ValidationClaims.

(** ** The status route *)

Lemma isCompleted_terminal (t : Task) :
  Task_isCompleted t = true ↔
  status t = TaskStatus.Completed ∨ status t = TaskStatus.Failed ∨
  status t = TaskStatus.Skipped.
Proof.
  unfold Task_isCompleted. rewrite bool_decide_eq_true.
  rewrite !elem_of_cons, elem_of_nil. tauto.
Qed.

Lemma count_terminal (ts : list Task) :
  length (filter (λ t, Task_isCompleted t = true) ts) =
  (count_status TaskStatus.Completed ts + count_status TaskStatus.Failed ts +
   count_status TaskStatus.Skipped ts)%nat.
Proof.
  unfold count_status.
  induction ts as [|t ts IH]; [done|].
  rewrite !filter_cons.
  destruct (decide (Task_isCompleted t = true)) as [Hc|Hc].
  - apply isCompleted_terminal in Hc.
    destruct (status t) eqn:Hst; repeat case_decide; simplify_eq/=;
      try lia; naive_solver.
  - assert (¬ (status t = TaskStatus.Completed ∨ status t = TaskStatus.Failed ∨
               status t = TaskStatus.Skipped)) as Hn
      by (by rewrite <- isCompleted_terminal).
    repeat case_decide; simplify_eq/=; try lia; naive_solver.
Qed.

Lemma filter_all_terminal (ts : list Task) :
  (∀ t, t ∈ ts → status t = TaskStatus.Completed ∨
                 status t = TaskStatus.Failed ∨
                 status t = TaskStatus.Skipped) →
  filter (λ t, Task_isCompleted t = true) ts = ts.
Proof.
  induction ts as [|t ts IH]; intros Hall; [done|].
  rewrite filter_cons_True.
  - f_equal. apply IH. intros t' Ht'. apply Hall. by right.
  - apply isCompleted_terminal, Hall. by left.
Qed.

(** [C10] The completed-task count of the status route counts the tasks whose
    status is Completed, Failed or Skipped; when every task of the workflow
    is in one of these statuses, all of them are reported as completed. *)
Theorem completedTasks_counts_terminal (wid : string) (s : Store)
    (w : Workflow) (ts : list Task) :
  workflowRepository_findOne wid s = Some w →
  wf_tasks w = Some ts →
  ∃ body,
    WorkflowRoutes.get_status wid s = WorkflowRoutes.Ok body ∧
    WorkflowRoutes.completedTasks body =
      (count_status TaskStatus.Completed ts +
       count_status TaskStatus.Failed ts +
       count_status TaskStatus.Skipped ts)%nat ∧
    WorkflowRoutes.totalTasks body = length ts ∧
    ((∀ t, t ∈ ts → status t = TaskStatus.Completed ∨
                    status t = TaskStatus.Failed ∨
                    status t = TaskStatus.Skipped) →
     WorkflowRoutes.completedTasks body = WorkflowRoutes.totalTasks body).
Proof.
  intros Hfind Hts. unfold WorkflowRoutes.get_status.
  rewrite Hfind, Hts. eexists. split; [reflexivity|]. simpl.
  split; [apply count_terminal|]. split; [done|].
  intros Hall. f_equal. apply filter_all_terminal, Hall.
Qed.

(** After the analysis task failed and its consumer was skipped, both tasks
    are reported as completed. *)
Lemma completedTasks_counts_terminal_witness :
  ∃ body,
    WorkflowRoutes.get_status "0" Sample.after_failure = WorkflowRoutes.Ok body ∧
    WorkflowRoutes.completedTasks body = 2%nat ∧
    WorkflowRoutes.totalTasks body = 2%nat.
Proof.
  destruct (completedTasks_counts_terminal "0" Sample.after_failure _ _
              eq_refl eq_refl) as (body & Hget & Hcount & Htotal & _).
  exists body. split; [exact Hget|]. split.
  - rewrite Hcount. vm_compute. reflexivity.
  - rewrite Htotal. vm_compute. reflexivity.
Defined.

(** ** The repository *)

Lemma lookup_bind_columns (c : option string) (ds : list Task)
    (m : gmap string TaskRow) (id : string) :
  columns <$> foldr (λ d m, alter (set_row_dependantId c) (taskId d) m) m ds !! id
  = columns <$> m !! id.
Proof.
  induction ds as [|d ds IH]; simpl; [done|].
  rewrite lookup_alter. case_decide as Hid; [|done]. subst id.
  rewrite <- IH, <- option_fmap_compose.
  by destruct (foldr _ _ _ !! taskId d).
Qed.

(** After [save], the row of the task holds the task's columns. *)
Lemma save_lookup (t : Task) (s : Store) :
  columns <$> tasks (taskRepository_save t s) !! taskId t =
  Some {| row_clientId := clientId t; row_status := status t;
          row_workflowId := workflowId t; row_progress := progress t;
          row_taskType := taskType t; row_stepNumber := stepNumber t;
          row_dependantId := None |}.
Proof.
  unfold taskRepository_save. simpl.
  destruct (dependencies t) as [ds|].
  - by rewrite lookup_bind_columns, lookup_insert_eq.
  - by rewrite lookup_insert_eq.
Qed.

(** [save] leaves the columns of the other rows as they are. *)
Lemma save_lookup_ne (t : Task) (s : Store) (id : string) :
  id ≠ taskId t →
  columns <$> tasks (taskRepository_save t s) !! id = columns <$> tasks s !! id.
Proof.
  intros Hne. unfold taskRepository_save. simpl.
  destruct (dependencies t) as [ds|].
  - by rewrite lookup_bind_columns, lookup_insert_ne.
  - by rewrite lookup_insert_ne.
Qed.

(** Saving a task writes no payload of any result. *)
Lemma save_results_payload (t : Task) (s : Store) (rid : string) :
  (λ r, (rrow_data r, rrow_error r)) <$> results (taskRepository_save t s) !! rid
  = (λ r, (rrow_data r, rrow_error r)) <$> results s !! rid.
Proof.
  unfold taskRepository_save. simpl.
  destruct (result t ≫= resultId) as [rid'|]; [|done].
  rewrite lookup_alter. case_decide as Hid; [|done]. subst rid'.
  rewrite <- option_fmap_compose.
  by destruct (results s !! rid).
Qed.

Lemma save_workflows (t : Task) (s : Store) :
  workflows (taskRepository_save t s) = workflows s.
Proof. done. Qed.

Lemma recompute_tasks (task : Task) (s : Store) :
  tasks (snd (TaskRunner.recompute task s)) = tasks s ∧
  results (snd (TaskRunner.recompute task s)) = results s.
Proof.
  unfold TaskRunner.recompute.
  destruct (workflow task) as [w|]; [|done].
  destruct (workflowRepository_findOne _ s) as [cw|]; [|done].
  destruct (wf_tasks cw); [|done].
  by destruct (WorkflowReportGenerator.generateAggregatedReport _).
Qed.

#[local] Arguments taskRepository_save : simpl never.
#[local] Arguments resultRepository_save : simpl never.
#[local] Arguments workflowRepository_save : simpl never.
#[local] Arguments workflowRepository_findOne : simpl never.
#[local] Arguments TaskRunner.recompute : simpl never.
#[local] Arguments started : simpl never.

(** ** The task runner: a job that returns *)

(** The result object and the store after a new result was saved. *)
Lemma resultRepository_save_new (v e : JS.Value) (s : Store) :
  let rid := fresh (dom (results s)) in
  resultRepository_save {| resultId := None; data := v; error := e |} s =
  ({| resultId := Some rid; data := v; error := e |},
   {| workflows := workflows s; tasks := tasks s;
      results := <[rid := {| rrow_taskId := None; rrow_data := v;
                             rrow_error := e |}]> (results s) |}).
Proof. done. Qed.

(** [run], when the job returns [v]. *)
Lemma run_returns (jobs : Jobs) (task : Task) (s : Store) (job : Job)
    (v : JS.Value) :
  JobFactory.get jobs (taskType task) = Return job →
  job (taskRepository_save (started task) s) (started task)
    (TaskRunner.getJobContext (started task)) = Return v →
  let s1 := taskRepository_save (started task) s in
  let payload := JS.JSON_stringify (JS.or v (JS.Object [])) in
  let saved := resultRepository_save
                 {| resultId := None; data := payload; error := JS.Undefined |}
                 s1 in
  let task2 := set_result (Some (fst saved))
                 (set_progress None
                    (set_status TaskStatus.Completed (started task))) in
  let s3 := taskRepository_save task2 (snd saved) in
  let s4 := match dependant task with
            | Some d => taskRepository_save d s3
            | None => s3
            end in
  TaskRunner.run jobs task s =
  {| TaskRunner.outcome := fst (TaskRunner.recompute task2 s4);
     TaskRunner.task_after := task2;
     TaskRunner.store_after := snd (TaskRunner.recompute task2 s4) |}.
Proof.
  intros Hget Hjob. unfold TaskRunner.run. fold (started task).
  change (taskType (started task)) with (taskType task). rewrite Hget.
  unfold TaskRunner.try_job. rewrite Hjob.
  unfold TaskRunner.finally_save.
  change (set_data ?p new_Result)
    with {| resultId := None; data := p; error := JS.Undefined |}.
  destruct (resultRepository_save _ _) as [res' s2] eqn:Hsave. simpl.
  by destruct (TaskRunner.recompute _ _).
Qed.

(** [C8] fails in the code: the area job returns the number 0, which is not
    nothing, and the payload stored is the empty object, not the
    serialization of 0.  The runner replaces the returned value by the
    empty object when it is falsy, not only when it is nothing. *)
Theorem zero_result_stored_as_empty_object :
  ∃ task,
    TaskWorker.findOne_queued Sample.area_created = Some task ∧
    JobFactory.get Sample.zero_area (taskType task)
      = Return (PolygonAreaJob Sample.zero_area) ∧
    PolygonAreaJob Sample.zero_area
      (taskRepository_save (started task) Sample.area_created)
      (started task) (TaskRunner.getJobContext (started task))
      = Return (JS.Number 0) ∧
    JS.Number 0 ≠ JS.Undefined ∧
    let r := TaskRunner.run Sample.zero_area task Sample.area_created in
    TaskRunner.outcome r = Return () ∧
    WorkflowReportGenerator.result_data (TaskRunner.task_after r)
      = JS.JSON_stringify (JS.Object []) ∧
    WorkflowReportGenerator.result_data (TaskRunner.task_after r)
      ≠ JS.JSON_stringify (JS.Number 0).
Proof.
  eexists. split; [vm_compute; reflexivity|].
  split; [vm_compute; reflexivity|].
  split; [reflexivity|]. split; [done|].
  split; [vm_compute; reflexivity|].
  split; [vm_compute; reflexivity|]. vm_compute. discriminate.
Qed.



(** ** The task runner: the execution context *)

Lemma getJobContext_started (task : Task) :
  TaskRunner.getJobContext (started task) = TaskRunner.getJobContext task.
Proof. done. Qed.


(** The query of the scheduler loads the workflow and the dependant of the
    task it returns, not its dependencies: the context built for that task
    object has no upstream output. *)
Remark findOne_queued_context (s : Store) (task : Task) :
  TaskWorker.findOne_queued s = Some task →
  dependenciesOutputs (TaskRunner.getJobContext (started task)) = [].
Proof.
  unfold TaskWorker.findOne_queued.
  destruct (TaskWorker.first_queued s) as [[id row]|]; [|done].
  by intros [= <-].
Qed.

(** [C7] fails in the code.  In the two-step graph where step 2 depends on
    step 1, the scheduler runs step 1, which succeeds with a payload X
    that is stored as the [data] of its result; in its next turn it
    selects step 2, whose row is the dependant of step 1, and runs it.
    The job of step 2, which returns the upstream outputs it was handed,
    was handed the empty collection, not [[X]]: the payload it stores is
    the serialization of the empty array.  The query of the scheduler does
    not load the dependencies of the task, and [getJobContext] reads them
    from the task object. *)
Theorem upstream_output_not_handed_over :
  let s1 := TaskWorker.iteration Sample.echoing Sample.created in
  let s2 := TaskWorker.iteration Sample.echoing s1 in
  let X := JS.JSON_stringify (JS.Str "Germany") in
  (row_status <$> tasks s1 !! "0") = Some TaskStatus.Completed ∧
  (row_dependantId <$> tasks s1 !! "0") = Some (Some "1") ∧
  results s1 !! "0"
    = Some {| rrow_taskId := Some "0"; rrow_data := X;
              rrow_error := JS.Undefined |} ∧
  (∃ task, TaskWorker.findOne_queued s1 = Some task ∧ taskId task = "1" ∧
           JobFactory.get Sample.echoing (taskType task)
             = Return (EmailNotificationJob Sample.echoing) ∧
           dependenciesOutputs (TaskRunner.getJobContext (started task)) = []) ∧
  (row_status <$> tasks s2 !! "1") = Some TaskStatus.Completed ∧
  results s2 !! "1"
    = Some {| rrow_taskId := Some "1";
              rrow_data := JS.JSON_stringify (JS.Array []);
              rrow_error := JS.Undefined |} ∧
  JS.JSON_stringify (JS.Array []) ≠ JS.JSON_stringify (JS.Array [X]).
Proof.
  split_and!; try (vm_compute; reflexivity).
  - eexists. split; [vm_compute; reflexivity|].
    split_and!; vm_compute; reflexivity.
  - vm_compute. discriminate.
Qed.

(** ** The task runner: a job that throws, a type without job *)

(** [run], when the job throws [err]: the error is rethrown from the
    [catch], so the statements after the [try] are not reached and the
    workflow table is left as it was. *)
Lemma run_throws (jobs : Jobs) (task : Task) (s : Store) (job : Job)
    (err : JS.Value) :
  JobFactory.get jobs (taskType task) = Return job →
  job (taskRepository_save (started task) s) (started task)
    (TaskRunner.getJobContext (started task)) = Throw err →
  let r := TaskRunner.run jobs task s in
  TaskRunner.outcome r = Throw err ∧
  status (TaskRunner.task_after r) = TaskStatus.Failed ∧
  progress (TaskRunner.task_after r) = None ∧
  result (TaskRunner.task_after r) = result task ∧
  dependant (TaskRunner.task_after r)
    = set_status TaskStatus.Skipped <$> dependant task ∧
  workflows (TaskRunner.store_after r) = workflows s.
Proof.
  intros Hget Hjob. unfold TaskRunner.run. fold (started task).
  change (taskType (started task)) with (taskType task). rewrite Hget.
  unfold TaskRunner.try_job. rewrite Hjob.
  unfold TaskRunner.finally_save.
  destruct (resultRepository_save _ _) as [res' s2] eqn:Hsave.
  assert (workflows s2 = workflows s) as Hw.
  { unfold resultRepository_save in Hsave. simpl in Hsave.
    by injection Hsave as _ <-. }
  cbn [TaskRunner.outcome TaskRunner.task_after TaskRunner.store_after].
  split_and!; try done.
  change (dependant (set_progress None
            (set_status TaskStatus.Failed (started task))))
    with (dependant task).
  destruct (dependant task); simpl; by rewrite ?save_workflows.
Qed.

(** [run], when the registry has no job for the type of the task: the
    lookup throws before the [try], the task stays as it was saved, in
    progress, and no result is created. *)
Lemma run_unregistered (jobs : Jobs) (task : Task) (s : Store) :
  JobFactory.jobMap jobs !! taskType task = None →
  TaskRunner.run jobs task s =
  {| TaskRunner.outcome :=
       Throw (JS.Error ("No job found for task type: " +:+ taskType task));
     TaskRunner.task_after := started task;
     TaskRunner.store_after := taskRepository_save (started task) s |}.
Proof.
  intros Hlookup. unfold TaskRunner.run, JobFactory.get. fold (started task).
  change (taskType (started task)) with (taskType task). by rewrite Hlookup.
Qed.

(** The aggregate: Failed when some task is Failed; otherwise Completed when
    every task is Completed; otherwise InProgress.  A Skipped task counts
    for neither. *)
Lemma aggregate_spec (ts : list Task) :
  (TaskRunner.aggregate ts = WorkflowStatus.Failed ↔
   ∃ t, t ∈ ts ∧ status t = TaskStatus.Failed) ∧
  (TaskRunner.aggregate ts = WorkflowStatus.Completed ↔
   ∀ t, t ∈ ts → status t = TaskStatus.Completed) ∧
  (TaskRunner.aggregate ts = WorkflowStatus.InProgress ↔
   (∀ t, t ∈ ts → status t ≠ TaskStatus.Failed) ∧
   ∃ t, t ∈ ts ∧ status t ≠ TaskStatus.Completed) ∧
  TaskRunner.aggregate ts ≠ WorkflowStatus.Initial.
Proof.
  unfold TaskRunner.aggregate.
  assert (existsb (λ t, bool_decide (status t = TaskStatus.Failed)) ts = true
          ↔ ∃ t, t ∈ ts ∧ status t = TaskStatus.Failed) as Hany.
  { rewrite existsb_exists. split; intros (t & Hin & Hst); exists t.
    - split; [by apply list_elem_of_In|]. by apply bool_decide_eq_true in Hst.
    - split; [by apply list_elem_of_In|]. by apply bool_decide_eq_true. }
  assert (forallb (λ t, bool_decide (status t = TaskStatus.Completed)) ts = true
          ↔ ∀ t, t ∈ ts → status t = TaskStatus.Completed) as Hall.
  { rewrite forallb_forall. split; intros H t Hin.
    - apply list_elem_of_In, H in Hin. by apply bool_decide_eq_true in Hin.
    - apply bool_decide_eq_true, H. by apply list_elem_of_In. }
  destruct (existsb _ ts) eqn:He; destruct (forallb _ ts) eqn:Ha.
  - split_and!; try done.
    + split; [intros _; by apply Hany | done].
    + split; [done|]. intros Hc. destruct (proj1 Hany eq_refl) as (t & Hin & Hf).
      by rewrite (Hc t Hin) in Hf.
    + split; [done|]. intros [Hnf _].
      destruct (proj1 Hany eq_refl) as (t & Hin & Hf). by destruct (Hnf t Hin).
  - split_and!; try done.
    + split; [intros _; by apply Hany | done].
    + split; [done|]. intros Hc%Hall. done.
    + split; [done|]. intros [Hnf _].
      destruct (proj1 Hany eq_refl) as (t & Hin & Hf). by destruct (Hnf t Hin).
  - split_and!; try done.
    + split; [done|]. intros Hf%Hany. done.
    + split; [intros _; by apply Hall | done].
    + split; [done|]. intros [_ (t & Hin & Hnc)].
      by destruct Hnc; apply Hall.
  - split_and!; try done.
    + split; [done|]. intros Hf%Hany. done.
    + split; [done|]. intros Hc%Hall. done.
    + split; [intros _|done]. split.
      * intros t Hin Hf.
        assert (false = true) as Habs by (apply Hany; by exists t). done.
      * destruct (decide (Forall (λ t, status t = TaskStatus.Completed) ts))
          as [Hfa|Hnfa].
        -- rewrite Forall_forall in Hfa. apply Hall in Hfa. done.
        -- apply not_Forall_Exists in Hnfa; [|intros ?; apply _].
           apply Exists_exists in Hnfa as (t & Hin & Hnc). by exists t.
Qed.

(** When [run] resolves, the status stored for the workflow of the task is
    the aggregate of the statuses of its tasks. *)
Lemma run_resolved_aggregate (jobs : Jobs) (task : Task) (s : Store)
    (w : Workflow) (row : WorkflowRow) :
  let r := TaskRunner.run jobs task s in
  TaskRunner.outcome r = Return () →
  workflow task = Some w →
  workflows (TaskRunner.store_after r) !! wf_workflowId w = Some row →
  wrow_status row
  = TaskRunner.aggregate (tasks_of (wf_workflowId w) (TaskRunner.store_after r)).
Proof.
  unfold TaskRunner.run. fold (started task).
  destruct (JobFactory.get jobs (taskType (started task))) as [job|?]; [|done].
  unfold TaskRunner.try_job.
  destruct (job _ _ _) as [v|err].
  2: { unfold TaskRunner.finally_save.
       destruct (resultRepository_save _ _) as [res' s2]. done. }
  unfold TaskRunner.finally_save.
  destruct (resultRepository_save _ _) as [res' s2].
  set (task2 := set_result (Some res') _).
  set (s4 := match dependant task2 with Some _ => _ | None => _ end).
  destruct (TaskRunner.recompute task2 s4) as [o s5] eqn:Hrec.
  cbn [TaskRunner.outcome TaskRunner.store_after].
  intros -> Hw Hrow. unfold TaskRunner.recompute in Hrec.
  change (workflow task2) with (workflow task) in Hrec. rewrite Hw in Hrec.
  unfold workflowRepository_findOne in Hrec.
  destruct (workflows s4 !! wf_workflowId w) as [row4|] eqn:Hrow4; simpl in Hrec.
  - injection Hrec as <-.
    unfold workflowRepository_save in Hrow. simpl in Hrow.
    rewrite lookup_insert_eq in Hrow.
    by injection Hrow as <-.
  - injection Hrec as <-. congruence.
Qed.

(** [C1] The two-step workflow whose first job throws, whatever the other
    jobs are: the promise of [run] is rejected with the error; the task is
    Failed, in the object and in its row; the new result holds the message
    of the error (it is saved, but never assigned to the task); the
    consumer is Skipped, and no other job was invoked; but the status of
    the workflow is still Initial, and it stays so, for no task is queued
    any more. *)
Theorem failed_task_leaves_workflow_status (email polygon report : Job) :
  let jobs := {| DataAnalysisJob := λ _ _ _, Throw (JS.Error "No country found");
                 EmailNotificationJob := email;
                 PolygonAreaJob := polygon;
                 ReportGenerationJob := report |} in
  TaskWorker.findOne_queued Sample.created = Some Sample.first_task ∧
  let r := TaskRunner.run jobs Sample.first_task Sample.created in
  TaskRunner.outcome r = Throw (JS.Error "No country found") ∧
  status (TaskRunner.task_after r) = TaskStatus.Failed ∧
  row_status <$> tasks (TaskRunner.store_after r) !! "0" = Some TaskStatus.Failed ∧
  rrow_error <$> results (TaskRunner.store_after r) !! "0"
    = Some (JS.Str "No country found") ∧
  result (TaskRunner.task_after r) = None ∧
  rrow_taskId <$> results (TaskRunner.store_after r) !! "0" = Some None ∧
  row_status <$> tasks (TaskRunner.store_after r) !! "1" = Some TaskStatus.Skipped ∧
  TaskRunner.store_after r = Sample.after_failure ∧
  wrow_status <$> workflows (TaskRunner.store_after r) !! "0"
    = Some WorkflowStatus.Initial ∧
  TaskWorker.findOne_queued (TaskRunner.store_after r) = None.
Proof. vm_compute. done. Qed.

(** [C2] After the execution of the first task of the two-step workflow
    failed, the tasks of the workflow are Failed and Skipped, whose
    aggregate is Failed, while the status stored for the workflow is
    Initial. *)
Theorem failed_task_workflow_status_stale :
  let r := TaskRunner.run Sample.failing_analysis Sample.first_task
             Sample.created in
  TaskWorker.findOne_queued Sample.created = Some Sample.first_task ∧
  status <$> tasks_of "0" (TaskRunner.store_after r)
    = [TaskStatus.Skipped; TaskStatus.Failed] ∧
  TaskRunner.aggregate (tasks_of "0" (TaskRunner.store_after r))
    = WorkflowStatus.Failed ∧
  wf_status <$> workflowRepository_findOne "0" (TaskRunner.store_after r)
    = Some WorkflowStatus.Initial.
Proof. vm_compute. done. Qed.

(** [C3] A workflow whose only step has a type without job: the task found
    by the scheduler is left in progress by [run], no result is recorded,
    and the scheduler never finds it again. *)
Theorem unregistered_type_strands_task (jobs : Jobs) :
  ∃ task, TaskWorker.findOne_queued Sample.fax_created = Some task ∧
    taskType task = "sendFax" ∧
    let r := TaskRunner.run jobs task Sample.fax_created in
    TaskRunner.outcome r
      = Throw (JS.Error "No job found for task type: sendFax") ∧
    status (TaskRunner.task_after r) = TaskStatus.InProgress ∧
    result (TaskRunner.task_after r) = None ∧
    row_status <$> tasks (TaskRunner.store_after r) !! taskId task
      = Some TaskStatus.InProgress ∧
    results (TaskRunner.store_after r) = ∅ ∧
    TaskWorker.findOne_queued (TaskRunner.store_after r) = None ∧
    TaskWorker.iteration jobs (TaskRunner.store_after r)
      = TaskRunner.store_after r.
Proof.
  eexists. split; [vm_compute; reflexivity|].
  split; [reflexivity|].
  rewrite run_unregistered by reflexivity.
  cbn [TaskRunner.outcome TaskRunner.task_after TaskRunner.store_after].
  split_and!; vm_compute; reflexivity.
Qed.

(** ** The graph builder *)

Lemma foldl_invariant {A B : Type} (P : A → Prop) (f : A → B → A)
    (l : list B) (a : A) :
  P a → (∀ a x, x ∈ l → P a → P (f a x)) → P (foldl f a l).
Proof.
  revert a. induction l as [|x l IH]; intros a Ha Hstep; simpl; [done|].
  apply IH.
  - apply Hstep; [by left | done].
  - intros a' y Hy. apply Hstep. by right.
Qed.

Lemma columns_set_dependantId (c : option string) (r : TaskRow) :
  columns (set_row_dependantId c r) = columns r.
Proof. done. Qed.

Lemma lookup_alter_columns (c : option string) (k id : string)
    (m : gmap string TaskRow) :
  columns <$> alter (set_row_dependantId c) k m !! id = columns <$> m !! id.
Proof.
  rewrite lookup_alter. case_decide as Hk; [|done]. subst k.
  rewrite <- option_fmap_compose. by destruct (m !! id).
Qed.

Section FactoryFacts.
Import WorkflowFactory.

(** *** [populateDependencies] only assigns [dependencies] *)

Lemma populateStep_erase (ts : list NewTask) (step : WorkflowStep) :
  set_new_dependencies None <$> populateStep ts step
  = set_new_dependencies None <$> ts.
Proof.
  unfold populateStep. destruct (dependsOn step) as [ds|]; [|done].
  destruct (find_index _ ts) as [i|]; [|done].
  rewrite (list_fmap_alter _ _ id).
  - by apply list_alter_id.
  - by apply Forall_true.
Qed.

Lemma populateDependencies_erase (def : WorkflowDefinition) (ts : list NewTask) :
  set_new_dependencies None <$> populateDependencies def ts
  = set_new_dependencies None <$> ts.
Proof.
  unfold populateDependencies.
  apply (foldl_invariant
           (λ ts', set_new_dependencies None <$> ts'
                   = set_new_dependencies None <$> ts)); [done|].
  intros ts' step _ <-. apply populateStep_erase.
Qed.

Lemma row_of_new_erase (t : NewTask) :
  row_of_new (set_new_dependencies None t) = row_of_new t.
Proof. done. Qed.

Lemma populateDependencies_rows (def : WorkflowDefinition) (ts : list NewTask) :
  row_of_new <$> populateDependencies def ts = row_of_new <$> ts.
Proof.
  pose proof (populateDependencies_erase def ts) as He.
  apply (f_equal (fmap row_of_new)) in He.
  rewrite <- !list_fmap_compose in He.
  etrans; [|etrans; [exact He|]]; by apply list_fmap_ext.
Qed.

Lemma populateDependencies_length (def : WorkflowDefinition) (ts : list NewTask) :
  length (populateDependencies def ts) = length ts.
Proof.
  rewrite <- (length_fmap row_of_new), populateDependencies_rows.
  apply length_fmap.
Qed.

(** *** Inserting the new rows *)

Lemma insert_all_lookup_ne (ids : list string) (ts : list NewTask)
    (m : gmap string TaskRow) (id : string) :
  id ∉ ids →
  foldl (λ m it, <[fst it := row_of_new (snd it)]> m) m (zip ids ts) !! id
  = m !! id.
Proof.
  revert ts m. induction ids as [|k ids IH]; intros [|t ts] m Hid; simpl;
    try done.
  rewrite IH by (intros ?; apply Hid; by right).
  apply lookup_insert_ne. intros ->. apply Hid. by left.
Qed.

Lemma insert_all_lookup (ids : list string) (ts : list NewTask)
    (m : gmap string TaskRow) (i : nat) (id : string) (t : NewTask) :
  NoDup ids → ids !! i = Some id → ts !! i = Some t →
  foldl (λ m it, <[fst it := row_of_new (snd it)]> m) m (zip ids ts) !! id
  = Some (row_of_new t).
Proof.
  revert ts m i. induction ids as [|k ids IH]; intros [|t' ts] m i Hnd Hi Ht;
    simpl; try done.
  apply NoDup_cons in Hnd as [Hk Hnd].
  destruct i as [|i]; simplify_eq/=.
  - rewrite insert_all_lookup_ne by done. apply lookup_insert_eq.
  - by eapply IH.
Qed.

(** *** Binding the dependencies *)

Lemma bind_dependencies_columns (ids : list string) (c : string)
    (refs : list nat) (m : gmap string TaskRow) (id : string) :
  columns <$> bind_dependencies ids c refs m !! id = columns <$> m !! id.
Proof.
  unfold bind_dependencies.
  apply (foldl_invariant (λ m', columns <$> m' !! id = columns <$> m !! id));
    [done|].
  intros m' ref _ <-. destruct (ids !! ref); [|done].
  apply lookup_alter_columns.
Qed.

Lemma bind_dependencies_ne (ids : list string) (c : string)
    (refs : list nat) (m : gmap string TaskRow) (id : string) :
  id ∉ ids → bind_dependencies ids c refs m !! id = m !! id.
Proof.
  intros Hid. unfold bind_dependencies.
  apply (foldl_invariant (λ m', m' !! id = m !! id)); [done|].
  intros m' ref _ <-. destruct (ids !! ref) as [did|] eqn:Hd; [|done].
  apply lookup_alter_ne. intros ->. apply Hid.
  apply list_elem_of_lookup. by exists ref.
Qed.

Lemma bind_all_columns (ids : list string) (ts : list NewTask)
    (m : gmap string TaskRow) (id : string) :
  columns <$>
    foldl (λ m it, match new_dependencies (snd it) with
                   | Some refs => bind_dependencies ids (fst it) refs m
                   | None => m
                   end) m (zip ids ts) !! id
  = columns <$> m !! id.
Proof.
  apply (foldl_invariant (λ m', columns <$> m' !! id = columns <$> m !! id));
    [done|].
  intros m' it _ <-. destruct (new_dependencies it.2); [|done].
  apply bind_dependencies_columns.
Qed.

Lemma bind_all_ne (ids : list string) (ts : list NewTask)
    (m : gmap string TaskRow) (id : string) :
  id ∉ ids →
  foldl (λ m it, match new_dependencies (snd it) with
                 | Some refs => bind_dependencies ids (fst it) refs m
                 | None => m
                 end) m (zip ids ts) !! id
  = m !! id.
Proof.
  intros Hid.
  apply (foldl_invariant (λ m', m' !! id = m !! id)); [done|].
  intros m' it _ <-. destruct (new_dependencies it.2); [|done].
  by apply bind_dependencies_ne.
Qed.

(** *** [taskRepository.save(tasks)] *)

Lemma save_all_old (ts : list NewTask) (s : Store) (id : string) :
  id ∉ fresh_list (length ts) (dom (tasks s)) →
  tasks (taskRepository_save_all ts s) !! id = tasks s !! id.
Proof.
  intros Hid. unfold taskRepository_save_all. simpl.
  rewrite bind_all_ne by done. by apply insert_all_lookup_ne.
Qed.

Lemma save_all_new (ts : list NewTask) (s : Store) (i : nat) (id : string)
    (t : NewTask) :
  fresh_list (length ts) (dom (tasks s)) !! i = Some id →
  ts !! i = Some t →
  columns <$> tasks (taskRepository_save_all ts s) !! id
  = Some (row_of_new t).
Proof.
  intros Hi Ht. unfold taskRepository_save_all. simpl.
  rewrite bind_all_columns.
  erewrite insert_all_lookup; [done| |done..].
  apply NoDup_fresh_list.
Qed.

(** [C6] For a definition that passes validation, building the graph
    returns a workflow and inserts exactly one workflow row, under a key
    that was free, with status Initial, the client identifier and the
    serialized input; and it inserts exactly one task row per step, under
    pairwise distinct keys that were free: the row of a step is Queued and
    has the step's task type and step number, the client identifier and
    the key of the workflow.  No other task row and no result is touched. *)
Theorem graph_built (raw : RawDefinition) (clientId : string)
    (input : JS.Value) (s : Store) :
  validateWorkflowDefinition (parseWorkflowDefinition raw) = Return () →
  ∃ w s' ids,
    createWorkflowFromYAML raw clientId input s = (Return w, s') ∧
    workflows s !! wf_workflowId w = None ∧
    workflows s' =
      <[wf_workflowId w := {| wrow_clientId := clientId;
                              wrow_status := WorkflowStatus.Initial;
                              wrow_finalResult := None;
                              wrow_input := JS.JSON_stringify input |}]>
        (workflows s) ∧
    wf_status w = WorkflowStatus.Initial ∧
    length ids = length (steps (parseWorkflowDefinition raw)) ∧
    NoDup ids ∧
    (∀ id, id ∈ ids → tasks s !! id = None) ∧
    (∀ id, id ∉ ids → tasks s' !! id = tasks s !! id) ∧
    Forall2 (λ id step, ∃ row,
               tasks s' !! id = Some row ∧
               row_status row = TaskStatus.Queued ∧
               row_taskType row = taskType step ∧
               Some (row_stepNumber row) = stepNumber step ∧
               row_clientId row = clientId ∧
               row_workflowId row = wf_workflowId w)
      ids (steps (parseWorkflowDefinition raw)) ∧
    results s' = results s.
Proof.
  intros Hval. unfold createWorkflowFromYAML. rewrite Hval.
  set (def := parseWorkflowDefinition raw) in *.
  unfold workflowRepository_insert.
  set (wid := fresh (dom (workflows s))).
  set (w := workflow_of_row wid (createWorkflow clientId input) None).
  set (s1 := Build_Store _ _ _).
  set (ts := populateDependencies def (createTasks def w)).
  exists w, (taskRepository_save_all ts s1),
    (fresh_list (length ts) (dom (tasks s1))).
  assert (length ts = length (steps def)) as Hlen.
  { subst ts. rewrite populateDependencies_length. apply length_fmap. }
  split_and!; try done.
  - apply not_elem_of_dom, is_fresh.
  - by rewrite length_fresh_list.
  - apply NoDup_fresh_list.
  - intros id Hid%fresh_list_is_fresh. by apply not_elem_of_dom.
  - intros id Hid. by rewrite (save_all_old ts s1).
  - apply Forall2_same_length_lookup_2; [by rewrite length_fresh_list|].
    intros i id step Hi Hstep.
    assert (row_of_new <$> ts !! i
            = Some {| row_clientId := clientId;
                      row_status := TaskStatus.Queued;
                      row_workflowId := wid; row_progress := None;
                      row_taskType := taskType step;
                      row_stepNumber := default 1 (stepNumber step);
                      row_dependantId := None |}) as Hrow.
    { rewrite <- list_lookup_fmap. subst ts.
      rewrite populateDependencies_rows. unfold createTasks.
      rewrite <- list_fmap_compose, list_lookup_fmap, Hstep. done. }
    destruct (ts !! i) as [t|] eqn:Ht; [|done]. apply (inj Some) in Hrow.
    pose proof (save_all_new ts s1 i id t Hi Ht) as Hnew.
    rewrite Hrow in Hnew.
    destruct (tasks (taskRepository_save_all ts s1) !! id) as [row|]; [|done].
    apply (inj Some) in Hnew. exists row. split; [done|].
    change (row_status row) with (row_status (columns row)).
    change (row_taskType row) with (row_taskType (columns row)).
    change (row_stepNumber row) with (row_stepNumber (columns row)).
    change (row_clientId row) with (row_clientId (columns row)).
    change (row_workflowId row) with (row_workflowId (columns row)).
    rewrite Hnew. simpl. split_and!; try done.
    apply validate_Return in Hval as [Hall _].
    rewrite Forall_forall in Hall.
    assert (step ∈ steps def) as Hin
      by (apply list_elem_of_lookup; by exists i).
    apply Hall, validateStep_Return in Hin as (_ & n & -> & _). done.
Qed.

Lemma graph_built_witness :
  ∃ w s' (ids : list string),
    createWorkflowFromYAML Sample.two_steps "client-1" Sample.geo_input
      empty_store = (Return w, s') ∧
    workflows empty_store !! wf_workflowId w = None ∧
    length ids = 2%nat.
Proof.
  destruct (graph_built Sample.two_steps "client-1" Sample.geo_input
              empty_store eq_refl)
    as (w & s' & ids & Hcreate & Hfree & _ & _ & Hlen & _).
  exists w, s', ids. split; [exact Hcreate|]. split; [exact Hfree|].
  exact Hlen.
Defined.

End FactoryFacts.

(** ** The order of the scheduler's query *)

Lemma string_compare_refl (a : string) : String.compare a a = Eq.
Proof.
  pose proof (String.compare_antisym a a) as Ha.
  destruct (String.compare a a); simpl in Ha; congruence.
Qed.

Lemma string_compare_lt_trans (a b c : string) :
  String.compare a b = Lt → String.compare b c = Lt → String.compare a c = Lt.
Proof.
  intros Hab Hbc.
  assert (String.le a c) as Hac.
  { trans b; unfold String.le, String.leb; [by rewrite Hab | by rewrite Hbc]. }
  unfold String.le, String.leb in Hac.
  destruct (String.compare a c) eqn:Hc; [|done..].
  apply String.compare_eq_iff in Hc as ->.
  rewrite String.compare_antisym, Hbc in Hab. done.
Qed.

Lemma key_ltb_cotrans (x y b : string * TaskRow) :
  TaskWorker.key_ltb x b = true →
  TaskWorker.key_ltb x y = true ∨ TaskWorker.key_ltb y b = true.
Proof.
  unfold TaskWorker.key_ltb.
  destruct (String.compare (row_workflowId x.2) (row_workflowId b.2)) eqn:Hxb;
    [|intros _|done].
  - apply String.compare_eq_iff in Hxb. rewrite <- Hxb.
    intros Hlt%Z.ltb_lt.
    destruct (String.compare (row_workflowId x.2) (row_workflowId y.2)) eqn:Hxy;
      [|by left|].
    + apply String.compare_eq_iff in Hxy. rewrite <- Hxy.
      rewrite string_compare_refl.
      destruct (Z.lt_ge_cases (row_stepNumber x.2) (row_stepNumber y.2));
        [left | right]; apply Z.ltb_lt; lia.
    + right. rewrite String.compare_antisym, Hxy. done.
  - destruct (String.compare (row_workflowId x.2) (row_workflowId y.2)) eqn:Hxy;
      [|by left|].
    + apply String.compare_eq_iff in Hxy. rewrite <- Hxy, Hxb. by right.
    + right.
      assert (String.compare (row_workflowId y.2) (row_workflowId x.2) = Lt)
        as Hyx by (rewrite String.compare_antisym, Hxy; done).
      by rewrite (string_compare_lt_trans _ _ _ Hyx Hxb).
Qed.

Lemma key_ltb_trans (x y b : string * TaskRow) :
  TaskWorker.key_ltb x y = true → TaskWorker.key_ltb y b = true →
  TaskWorker.key_ltb x b = true.
Proof.
  unfold TaskWorker.key_ltb.
  destruct (String.compare (row_workflowId x.2) (row_workflowId y.2)) eqn:Hxy;
    [|intros _|done].
  - apply String.compare_eq_iff in Hxy. rewrite <- Hxy.
    intros Hlt%Z.ltb_lt.
    destruct (String.compare (row_workflowId x.2) (row_workflowId b.2));
      [|done..].
    intros Hlt'%Z.ltb_lt. apply Z.ltb_lt. lia.
  - destruct (String.compare (row_workflowId y.2) (row_workflowId b.2)) eqn:Hyb;
      [|intros _|done].
    + apply String.compare_eq_iff in Hyb. rewrite <- Hyb, Hxy. done.
    + by rewrite (string_compare_lt_trans _ _ _ Hxy Hyb).
Qed.

(** The row kept by the scan is one of the rows scanned (or the row it
    started with), and no row scanned comes before it. *)
Lemma pick_least (l : list (string * TaskRow))
    (best : option (string * TaskRow)) (b : string * TaskRow) :
  foldl TaskWorker.pick best l = Some b →
  (b ∈ l ∨ best = Some b) ∧
  (∀ x, x ∈ l → TaskWorker.key_ltb x b = false) ∧
  (∀ b0, best = Some b0 → TaskWorker.key_ltb b0 b = false).
Proof.
  revert best. induction l as [|x l IH]; intros best; simpl.
  - intros ->. split; [by right|]. split; [by intros ? ?%elem_of_nil|].
    intros b0 [= ->]. unfold TaskWorker.key_ltb.
    by rewrite string_compare_refl, Z.ltb_irrefl.
  - intros (Hin & Hl & Hbest)%IH.
    assert (TaskWorker.key_ltb x b = false ∧
            ∀ b0, best = Some b0 → TaskWorker.key_ltb b0 b = false) as [Hx Hb0].
    { destruct best as [b0|]; simpl in *.
      - destruct (TaskWorker.key_ltb x b0) eqn:Hxb0.
        + split; [by apply Hbest|]. intros ? [= <-].
          destruct (TaskWorker.key_ltb b0 b) eqn:Hb0b; [|done].
          rewrite <- (Hbest x eq_refl). symmetry.
          by eapply key_ltb_trans.
        + split; [|intros ? [= <-]; by apply Hbest].
          destruct (TaskWorker.key_ltb x b) eqn:Hxb; [|done].
          destruct (key_ltb_cotrans x b0 b Hxb) as [?|Hb]; [congruence|].
          by rewrite (Hbest b0 eq_refl) in Hb.
      - split; [by apply Hbest | done]. }
    split.
    + destruct Hin as [Hin|Hpick]; [left; by right|].
      destruct best as [b0|]; simpl in Hpick.
      * destruct (TaskWorker.key_ltb x b0); simplify_eq; [left; by left|by right].
      * simplify_eq. left; by left.
    + split; [|done]. intros y [->|Hy]%elem_of_cons; [done | by apply Hl].
Qed.

(** The queued row that the query returns is in the table, and no queued
    row comes before it in the order of the query. *)
Lemma first_queued_least (s : Store) (id : string) (row : TaskRow) :
  TaskWorker.first_queued s = Some (id, row) →
  tasks s !! id = Some row ∧ row_status row = TaskStatus.Queued ∧
  ∀ uid u, tasks s !! uid = Some u → row_status u = TaskStatus.Queued →
           TaskWorker.key_ltb (uid, u) (id, row) = false.
Proof.
  unfold TaskWorker.first_queued.
  intros ([Hin|?] & Hleast & _)%pick_least; [|done].
  apply list_elem_of_filter in Hin as [Hq Hin].
  apply elem_of_map_to_list in Hin. split; [done|]. split; [done|].
  intros uid u Hu Hst. apply Hleast, list_elem_of_filter.
  split; [done|]. by apply elem_of_map_to_list.
Qed.

(** ** Edges that are kept, and the task that the query returns *)

Lemma same_edges_refl (m : gmap string TaskRow) : same_edges m m.
Proof. by intros id. Qed.

Lemma same_edges_trans (m1 m2 m3 : gmap string TaskRow) :
  same_edges m1 m2 → same_edges m2 m3 → same_edges m1 m3.
Proof. intros H12 H23 id. by rewrite H23, H12. Qed.

Lemma edges_ordered_same_edges (m m' : gmap string TaskRow) :
  edges_ordered m → same_edges m m' → edges_ordered m'.
Proof.
  intros Hord Hsame uid u' cid Hu' Hup.
  pose proof (Hsame uid) as Hk. rewrite Hu' in Hk.
  destruct (m !! uid) as [u|] eqn:Hu; [|done].
  apply (inj Some) in Hk. injection Hk as Hw Hn Hd.
  destruct (Hord uid u cid Hu) as (c & Hc & Hwc & Hlt).
  { unfold upstream_of in *. congruence. }
  pose proof (Hsame cid) as Hkc. rewrite Hc in Hkc.
  destruct (m' !! cid) as [c'|]; [|done].
  apply (inj Some) in Hkc. injection Hkc as Hw' Hn' _.
  exists c'. split; [done|]. split; [congruence | lia].
Qed.

Lemma attached_same_edges (t : Task) (m m' : gmap string TaskRow) :
  attached t m → same_edges m m' → attached t m'.
Proof.
  intros (Hdeps & r & Hr & Hw & Hn & Hd) Hsame. split; [done|].
  pose proof (Hsame (taskId t)) as Hk. rewrite Hr in Hk.
  destruct (m' !! taskId t) as [r'|]; [|done].
  apply (inj Some) in Hk. injection Hk as Hw' Hn' Hd'.
  exists r'. split; [done|]. split_and!; [congruence..|].
  intros d Hdep. rewrite Hd'. by apply Hd.
Qed.

(** Saving an attached task changes no edge. *)
Lemma save_same_edges (t : Task) (s : Store) :
  attached t (tasks s) →
  same_edges (tasks s) (tasks (taskRepository_save t s)).
Proof.
  intros (Hdeps & r & Hr & Hw & Hn & Hd) id.
  unfold taskRepository_save. cbn [tasks]. rewrite Hdeps.
  destruct (decide (id = taskId t)) as [->|Hne].
  - rewrite lookup_insert_eq, Hr. simpl. unfold edge_key. simpl.
    rewrite Hw, Hn. do 2 f_equal.
    destruct (dependant t) as [d|]; [|done]. symmetry. by apply Hd.
  - by rewrite lookup_insert_ne.
Qed.

(** The task that the query returns is attached, and so is its
    dependant. *)
Lemma findOne_queued_attached (s : Store) (task : Task) :
  TaskWorker.findOne_queued s = Some task →
  attached task (tasks s) ∧
  (∀ d, dependant task = Some d → attached d (tasks s)) ∧
  TaskWorker.first_queued s
    = Some (taskId task,
            {| row_clientId := clientId task; row_status := status task;
               row_workflowId := workflowId task;
               row_progress := progress task; row_taskType := taskType task;
               row_stepNumber := stepNumber task;
               row_dependantId := tasks s !! taskId task ≫= row_dependantId |}).
Proof.
  unfold TaskWorker.findOne_queued.
  destruct (TaskWorker.first_queued s) as [[id row]|] eqn:Hfirst; [|done].
  apply first_queued_least in Hfirst as (Hrow & _ & _).
  simpl. intros [= <-]. simpl. split_and!.
  - split; [done|]. exists row. split_and!; try done. simpl.
    intros d. destruct (row_dependantId row) as [did|]; [|done]. simpl.
    destruct (tasks s !! did); [|done]. by intros [= <-].
  - intros d. destruct (row_dependantId row) as [did|]; [|done]. simpl.
    destruct (tasks s !! did) as [rd|] eqn:Hrd; [|done]. intros [= <-].
    split; [done|]. exists rd. by split_and!.
  - rewrite Hrow. simpl. by destruct row.
Qed.

(** ** The builder: the edges among the new rows *)

Section BuilderEdges.
Import WorkflowFactory.

Lemma find_index_Some {A : Type} (p : A → bool) (l : list A) (i : nat) :
  find_index p l = Some i → ∃ x, l !! i = Some x ∧ p x = true.
Proof.
  revert i. induction l as [|x l IH]; intros i; simpl; [done|].
  destruct (p x) eqn:Hp.
  - intros [= <-]. by exists x.
  - destruct (find_index p l) as [k|]; [|done]. simpl. intros [= <-].
    by apply IH.
Qed.

Lemma filter_indices_elem {A : Type} (p : A → bool) (l : list A) (j : nat) :
  j ∈ filter_indices p l → ∃ x, l !! j = Some x ∧ p x = true.
Proof.
  unfold filter_indices. intros ([k x] & -> & Hin)%list_elem_of_fmap.
  apply list_elem_of_filter in Hin as [Hp Hin].
  apply list_elem_of_lookup in Hin as [i Hi].
  rewrite list_lookup_imap in Hi.
  destruct (l !! i) as [y|] eqn:Hy; [|done]. simplify_eq/=. by exists x.
Qed.

Lemma populateStep_stepNumber (ts : list NewTask) (step : WorkflowStep)
    (k : nat) :
  new_stepNumber <$> populateStep ts step !! k = new_stepNumber <$> ts !! k.
Proof.
  pose proof (populateStep_erase ts step) as He.
  apply (f_equal (λ l, new_stepNumber <$> l !! k)) in He.
  by rewrite !list_lookup_fmap, <- !option_fmap_compose in He.
Qed.

Lemma populateStep_precede (ts : list NewTask) (step : WorkflowStep) :
  validateStep step = Return () →
  dependencies_precede ts → dependencies_precede (populateStep ts step).
Proof.
  intros (_ & n & Hn & _ & Hlt)%validateStep_Return Hpre.
  assert (∀ i t refs j,
            ts !! i = Some t → new_dependencies t = Some refs → j ∈ refs →
            ∃ tj m n, populateStep ts step !! j = Some tj ∧
              new_stepNumber tj = Some m ∧ new_stepNumber t = Some n ∧ m < n)
    as Hold.
  { intros i t refs j Ht Hrefs Hj.
    destruct (Hpre i t refs j Ht Hrefs Hj) as (tj & m & n' & Htj & Hm & Hn' & ?).
    pose proof (populateStep_stepNumber ts step j) as Hk. rewrite Htj in Hk.
    destruct (populateStep ts step !! j) as [tj'|]; [|done].
    exists tj', m, n'. split_and!; try done. simpl in Hk. congruence. }
  intros i t refs j Ht Hrefs Hj. revert Ht. unfold populateStep.
  destruct (dependsOn step) as [ds|] eqn:Hds; [|by eauto].
  destruct (find_index _ ts) as [i0|] eqn:Hfind; [|by eauto].
  fold (populateStep ts step) in Hold.
  assert (populateStep ts step
          = alter (set_new_dependencies
                     (Some (filter_indices
                              (λ t, includes ds (new_stepNumber t)) ts))) i0 ts)
    as Hpop by (unfold populateStep; by rewrite Hds, Hfind).
  rewrite <- Hpop. intros Ht. pose proof Ht as Ht'.
  rewrite Hpop, list_lookup_alter in Ht'.
  case_decide as Hi; [subst i0|by eapply Hold].
  apply find_index_Some in Hfind as (t0 & Ht0 & Heq).
  apply bool_decide_eq_true in Heq. rewrite Ht0 in Ht'. simpl in Ht'.
  injection Ht' as <-. simpl in Hrefs. injection Hrefs as <-.
  apply filter_indices_elem in Hj as (tj & Htj & Hinc).
  unfold includes in Hinc.
  destruct (new_stepNumber tj) as [m|] eqn:Hm; [|done].
  apply bool_decide_eq_true in Hinc.
  pose proof (populateStep_stepNumber ts step j) as Hk. rewrite Htj in Hk.
  destruct (populateStep ts step !! j) as [tj'|]; [|done]. simpl in Hk.
  apply (inj Some) in Hk.
  exists tj', m, n. split_and!; [done | congruence | simpl; congruence |].
  by eapply Hlt.
Qed.

Lemma populateDependencies_precede (def : WorkflowDefinition) (w : Workflow) :
  Forall (λ step, validateStep step = Return ()) (steps def) →
  dependencies_precede (populateDependencies def (createTasks def w)).
Proof.
  intros Hall. rewrite Forall_forall in Hall. unfold populateDependencies.
  apply (foldl_invariant dependencies_precede).
  - intros i t refs j Ht Hrefs. unfold createTasks in Ht.
    rewrite list_lookup_fmap in Ht.
    destruct (steps def !! i); simplify_eq/=.
  - intros ts step Hin. by apply populateStep_precede, Hall.
Qed.

(** The dependant of a new row was bound by a consumer of the batch that
    lists the row among its dependencies. *)
Lemma bind_all_edges (ids : list string) (ts : list NewTask)
    (m : gmap string TaskRow) :
  (∀ uid u, uid ∈ ids → m !! uid = Some u → row_dependantId u = None) →
  ∀ uid u cid,
    uid ∈ ids →
    foldl (λ m it, match new_dependencies (snd it) with
                   | Some refs => bind_dependencies ids (fst it) refs m
                   | None => m
                   end) m (zip ids ts) !! uid = Some u →
    row_dependantId u = Some cid →
    ∃ i j t refs, ids !! i = Some cid ∧ ts !! i = Some t ∧
      new_dependencies t = Some refs ∧ j ∈ refs ∧ ids !! j = Some uid.
Proof.
  intros Hnone.
  apply (foldl_invariant
           (λ m', ∀ uid u cid, uid ∈ ids → m' !! uid = Some u →
              row_dependantId u = Some cid →
              ∃ i j t refs, ids !! i = Some cid ∧ ts !! i = Some t ∧
                new_dependencies t = Some refs ∧ j ∈ refs ∧
                ids !! j = Some uid)).
  - intros uid u cid Hin Hu Hfk. by rewrite (Hnone uid u Hin Hu) in Hfk.
  - intros m' [c t] Hit Hm'. simpl.
    destruct (new_dependencies t) as [refs|] eqn:Hrefs; [|done].
    apply list_elem_of_lookup in Hit as [i Hi].
    apply lookup_zip_with_Some in Hi as (c' & t' & [= <- <-] & Hc & Ht).
    unfold bind_dependencies.
    apply (foldl_invariant
             (λ m', ∀ uid u cid, uid ∈ ids → m' !! uid = Some u →
                row_dependantId u = Some cid →
                ∃ i j t refs, ids !! i = Some cid ∧ ts !! i = Some t ∧
                  new_dependencies t = Some refs ∧ j ∈ refs ∧
                  ids !! j = Some uid)); [done|].
    intros m'' ref Href Hm'' uid u cid Hin.
    destruct (ids !! ref) as [did|] eqn:Hdid; [|by apply Hm''].
    rewrite lookup_alter. case_decide as Heq; [subst did|by apply Hm''].
    destruct (m'' !! uid) as [u0|]; [|done]. simpl. intros [= <-]. simpl.
    intros [= <-]. by exists i, ref, t, refs.
Qed.

End BuilderEdges.


(** ** The runner and the builder with the choices of the database *)

#[local] Arguments Db.recompute : simpl never.
#[local] Arguments Db.workflowRepository_findOne : simpl never.

Lemma db_insert_tasks (rid : string) (res : Result) (s : Store) :
  tasks (snd (Db.resultRepository_insert rid res s)) = tasks s.
Proof. done. Qed.

Lemma db_recompute_tasks (listing : list Task → list Task) (task : Task)
    (s : Store) :
  tasks (snd (Db.recompute listing task s)) = tasks s ∧
  results (snd (Db.recompute listing task s)) = results s.
Proof.
  unfold Db.recompute.
  destruct (workflow task) as [w|]; [|done].
  destruct (Db.workflowRepository_findOne _ _ s) as [cw|]; [|done].
  destruct (wf_tasks cw); [|done].
  by destruct (WorkflowReportGenerator.generateAggregatedReport _).
Qed.

(** The lookup of the job: what it finds for the four keys of the map, and
    that it throws only for other names. *)
Lemma db_get_registered (c : Db.Turn) (taskType : string) (job : Job) :
  JobFactory.jobMap (Db.jobs c) !! taskType = Some job →
  Db.get c taskType = Return job.
Proof. unfold Db.get. by intros ->. Qed.

Lemma db_get_Throw (c : Db.Turn) (taskType : string) (err : JS.Value) :
  Db.get c taskType = Throw err →
  JobFactory.jobMap (Db.jobs c) !! taskType = None.
Proof. unfold Db.get. by destruct (JobFactory.jobMap _ !! _). Qed.

(** [run], when the lookup of the job throws: the task stays as it was
    saved, in progress, and no result is created. *)
Lemma db_run_stranded (c : Db.Turn) (task : Task) (s : Store)
    (err : JS.Value) :
  Db.get c (taskType task) = Throw err →
  Db.run c task s =
  {| TaskRunner.outcome := Throw err;
     TaskRunner.task_after := started task;
     TaskRunner.store_after := taskRepository_save (started task) s |}.
Proof.
  intros Hget. unfold Db.run. fold (started task).
  change (taskType (started task)) with (taskType task). by rewrite Hget.
Qed.

(** [run], when the job returns [v]. *)
Lemma db_run_returns (c : Db.Turn) (task : Task) (s : Store) (job : Job)
    (v : JS.Value) :
  Db.get c (taskType task) = Return job →
  job (taskRepository_save (started task) s) (started task)
    (TaskRunner.getJobContext (started task)) = Return v →
  let s1 := taskRepository_save (started task) s in
  let payload := JS.JSON_stringify (JS.or v (JS.Object [])) in
  let saved := Db.resultRepository_insert (Db.rid c)
                 {| resultId := None; data := payload; error := JS.Undefined |}
                 s1 in
  let task2 := set_result (Some (fst saved))
                 (set_progress None
                    (set_status TaskStatus.Completed (started task))) in
  let s3 := taskRepository_save task2 (snd saved) in
  let s4 := match dependant task with
            | Some d => taskRepository_save d s3
            | None => s3
            end in
  Db.run c task s =
  {| TaskRunner.outcome := fst (Db.recompute (Db.listing c) task2 s4);
     TaskRunner.task_after := task2;
     TaskRunner.store_after := snd (Db.recompute (Db.listing c) task2 s4) |}.
Proof.
  intros Hget Hjob. unfold Db.run. fold (started task).
  change (taskType (started task)) with (taskType task). rewrite Hget.
  unfold TaskRunner.try_job. rewrite Hjob.
  unfold Db.finally_save.
  change (set_data ?p new_Result)
    with {| resultId := None; data := p; error := JS.Undefined |}.
  destruct (Db.resultRepository_insert _ _ _) as [res' s2] eqn:Hsave. simpl.
  by destruct (Db.recompute _ _ _).
Qed.

(** [run], when the job throws [err]: the store it leaves. *)
Lemma db_run_throws_store (c : Db.Turn) (task : Task) (s : Store) (job : Job)
    (err : JS.Value) :
  Db.get c (taskType task) = Return job →
  job (taskRepository_save (started task) s) (started task)
    (TaskRunner.getJobContext (started task)) = Throw err →
  let s1 := taskRepository_save (started task) s in
  let saved := Db.resultRepository_insert (Db.rid c)
                 {| resultId := None; data := JS.Undefined;
                    error := JS.or (JS.opt_get err "message") err |} s1 in
  let s3 := taskRepository_save (failed task) (snd saved) in
  let s4 := match dependant task with
            | Some d => taskRepository_save (set_status TaskStatus.Skipped d) s3
            | None => s3
            end in
  Db.run c task s =
  {| TaskRunner.outcome := Throw err;
     TaskRunner.task_after := failed task;
     TaskRunner.store_after := s4 |}.
Proof.
  intros Hget Hjob. unfold Db.run. fold (started task).
  change (taskType (started task)) with (taskType task). rewrite Hget.
  unfold TaskRunner.try_job. rewrite Hjob.
  unfold Db.finally_save.
  change (set_error ?e new_Result)
    with {| resultId := None; data := JS.Undefined; error := e |}.
  destruct (Db.resultRepository_insert _ _ _) as [res' s2] eqn:Hsave.
  unfold failed. simpl. by destruct (dependant task).
Qed.

(** The three ways a run can go. *)
Lemma db_run_cases (c : Db.Turn) (task : Task) (s : Store) :
  (∃ err, Db.get c (taskType task) = Throw err) ∨
  (∃ job v, Db.get c (taskType task) = Return job ∧
     job (taskRepository_save (started task) s) (started task)
       (TaskRunner.getJobContext (started task)) = Return v) ∨
  (∃ job err, Db.get c (taskType task) = Return job ∧
     job (taskRepository_save (started task) s) (started task)
       (TaskRunner.getJobContext (started task)) = Throw err).
Proof.
  destruct (Db.get c (taskType task)) as [job|err]; [|left; by exists err].
  right.
  destruct (job (taskRepository_save (started task) s) (started task)
              (TaskRunner.getJobContext (started task))) as [v|err] eqn:Hjob.
  - left. by exists job, v.
  - right. by exists job, err.
Qed.

(** *** The deterministic definitions are one of the choices *)

Lemma save_results_dom (t : Task) (s : Store) :
  dom (results (taskRepository_save t s)) = dom (results s).
Proof.
  apply set_eq. intros rid. rewrite !elem_of_dom.
  pose proof (save_results_payload t s rid) as Hp.
  destruct (results (taskRepository_save t s) !! rid),
    (results s !! rid); try done; split; intros [? ?]; done.
Qed.

Lemma db_first_get (jobs : Jobs) (s : Store) (taskType : string) :
  Db.get (Db.first jobs s) taskType = JobFactory.get jobs taskType.
Proof.
  unfold Db.get, JobFactory.get. simpl.
  by destruct (JobFactory.jobMap jobs !! taskType).
Qed.

Lemma db_first_recompute (task : Task) (s : Store) :
  Db.recompute (λ ts, ts) task s = TaskRunner.recompute task s.
Proof. done. Qed.

Lemma db_first_run (jobs : Jobs) (task : Task) (s : Store) :
  Db.run (Db.first jobs s) task s = TaskRunner.run jobs task s.
Proof.
  unfold Db.run, TaskRunner.run. rewrite db_first_get.
  fold (started task).
  destruct (JobFactory.get jobs (taskType (started task))) as [job|err];
    [|done].
  destruct (TaskRunner.try_job _ _ _ _) as [[thrown task2] res] eqn:Htry.
  assert (resultId res = None) as Hres.
  { unfold TaskRunner.try_job in Htry.
    destruct (job _ _ _); by simplify_eq. }
  unfold Db.finally_save, TaskRunner.finally_save.
  assert (Db.resultRepository_insert (Db.rid (Db.first jobs s)) res
            (taskRepository_save (started task) s)
          = resultRepository_save res (taskRepository_save (started task) s))
    as ->.
  { unfold Db.resultRepository_insert, resultRepository_save.
    rewrite Hres. cbn [Db.rid Db.first].
    by rewrite <- (save_results_dom (started task) s). }
  destruct (resultRepository_save _ _) as [res' s2].
  destruct thrown; [done|]. simpl.
  by rewrite db_first_recompute.
Qed.

Lemma db_first_iteration (jobs : Jobs) (s : Store) :
  Db.iteration (Db.first jobs s) s = TaskWorker.iteration jobs s.
Proof.
  unfold Db.iteration, TaskWorker.iteration.
  destruct (TaskWorker.findOne_queued s); [|done].
  by rewrite db_first_run.
Qed.

Lemma db_first_legal (jobs : Jobs) (s : Store) : Db.legal (Db.first jobs s) s.
Proof. split; [apply is_fresh | done]. Qed.

Section FirstKeys.
Import WorkflowFactory.

Lemma db_first_create (raw : RawDefinition) (clientId : string)
    (input : JS.Value) (s : Store) :
  Db.createWorkflowFromYAML (fresh (dom (workflows s)))
    (fresh_list (length (raw_steps raw)) (dom (tasks s)))
    raw clientId input s
  = createWorkflowFromYAML raw clientId input s.
Proof.
  unfold Db.createWorkflowFromYAML, createWorkflowFromYAML.
  destruct (validateWorkflowDefinition _); [|done].
  unfold Db.workflowRepository_insert, workflowRepository_insert.
  unfold Db.taskRepository_save_all, taskRepository_save_all. cbn [tasks].
  rewrite populateDependencies_length. unfold createTasks.
  rewrite length_map. unfold parseWorkflowDefinition. cbn [steps].
  by rewrite length_map.
Qed.

Lemma db_first_fresh_keys (raw : RawDefinition) (s : Store) :
  Db.fresh_keys (fresh (dom (workflows s)))
    (fresh_list (length (raw_steps raw)) (dom (tasks s))) raw s.
Proof.
  split; [apply is_fresh|]. split_and!.
  - apply NoDup_fresh_list.
  - apply length_fresh_list.
  - intros id. apply fresh_list_is_fresh.
Qed.

End FirstKeys.

(** *** The edges *)

Lemma db_finally_same_edges (rid : string) (thrown : option JS.Value)
    (task : Task) (res : Result) (s : Store) :
  attached task (tasks s) →
  (∀ d, dependant task = Some d → attached d (tasks s)) →
  same_edges (tasks s)
    (tasks (snd (Db.finally_save rid thrown task res s))).
Proof.
  intros Hatt Hdep. unfold Db.finally_save.
  pose proof (db_insert_tasks rid res s) as Hres.
  destruct (Db.resultRepository_insert rid res s) as [res' s2]. simpl in Hres.
  set (task' := match thrown with
                | None => set_result (Some res') task
                | Some _ => task
                end).
  assert (attached task' (tasks s2)) as Hatt'.
  { rewrite Hres. subst task'. by destruct thrown. }
  assert (dependant task' = dependant task) as Hd'
    by (subst task'; by destruct thrown).
  pose proof (save_same_edges task' s2 Hatt') as H3.
  rewrite Hres in H3. rewrite Hd'.
  destruct (dependant task) as [d|] eqn:Hd; simpl; [|done].
  eapply same_edges_trans; [exact H3|].
  apply save_same_edges. eapply attached_same_edges; [by apply Hdep | done].
Qed.

(** [run] on the task that the query of the scheduler returned changes no
    edge, whatever the job and the database do. *)
Lemma db_run_same_edges (c : Db.Turn) (task : Task) (s : Store) :
  attached task (tasks s) →
  (∀ d, dependant task = Some d → attached d (tasks s)) →
  same_edges (tasks s) (tasks (TaskRunner.store_after (Db.run c task s))).
Proof.
  intros Hatt Hdep. unfold Db.run. fold (started task).
  assert (attached (started task) (tasks s)) as Hatt1 by done.
  pose proof (save_same_edges _ s Hatt1) as H1.
  set (s1 := taskRepository_save (started task) s) in *.
  destruct (Db.get c (taskType (started task))) as [job|?]; [|done].
  destruct (TaskRunner.try_job job (started task) new_Result s1)
    as [[thrown task2] res] eqn:Htry.
  assert (attached task2 (tasks s1) ∧
          ∀ d, dependant task2 = Some d → attached d (tasks s1)) as [Hatt2 Hdep2].
  { unfold TaskRunner.try_job in Htry.
    destruct (job s1 (started task) _) as [v|err]; simplify_eq.
    - split; [by eapply attached_same_edges|].
      intros d Hd. eapply attached_same_edges; [by apply Hdep | done].
    - split.
      + eapply attached_same_edges; [|exact H1].
        destruct Hatt as (Hdeps & r & Hr & Hw & Hn & Hd).
        split; [done|]. exists r. split_and!; try done.
        intros d. cbn [dependant set_dependant set_progress set_status].
        change (dependant (started task)) with (dependant task).
        destruct (dependant task) as [d0|]; [|done].
        intros [= <-]. by apply (Hd d0).
      + intros d. cbn [dependant set_dependant set_progress set_status].
        change (dependant (started task)) with (dependant task).
        destruct (dependant task) as [d0|] eqn:Hd0; [|done].
        intros [= <-].
        eapply attached_same_edges; [|exact H1].
        by destruct (Hdep d0 eq_refl). }
  pose proof (db_finally_same_edges (Db.rid c) thrown task2 res s1 Hatt2 Hdep2)
    as H4.
  destruct (Db.finally_save (Db.rid c) thrown task2 res s1) as [task3 s4].
  simpl in H4.
  assert (same_edges (tasks s) (tasks s4)) as H14
    by (by eapply same_edges_trans).
  destruct thrown; [done|].
  pose proof (db_recompute_tasks (Db.listing c) task3 s4) as [Ht _].
  destruct (Db.recompute (Db.listing c) task3 s4) as [o s5]. simpl in *.
  by rewrite Ht.
Qed.

Lemma db_iteration_same_edges (c : Db.Turn) (s : Store) :
  same_edges (tasks s) (tasks (Db.iteration c s)).
Proof.
  unfold Db.iteration.
  destruct (TaskWorker.findOne_queued s) as [task|] eqn:Hfind;
    [|apply same_edges_refl].
  apply findOne_queued_attached in Hfind as (Hatt & Hdep & _).
  by apply db_run_same_edges.
Qed.

(** *** [taskRepository.save(tasks)] under given keys *)

Section KeyedBuilder.
Import WorkflowFactory.

Lemma db_save_all_old (ids : list string) (ts : list NewTask) (s : Store)
    (id : string) :
  id ∉ ids →
  tasks (Db.taskRepository_save_all ids ts s) !! id = tasks s !! id.
Proof.
  intros Hid. unfold Db.taskRepository_save_all. simpl.
  rewrite bind_all_ne by done. by apply insert_all_lookup_ne.
Qed.

Lemma db_save_all_new (ids : list string) (ts : list NewTask) (s : Store)
    (i : nat) (id : string) (t : NewTask) :
  NoDup ids →
  ids !! i = Some id →
  ts !! i = Some t →
  columns <$> tasks (Db.taskRepository_save_all ids ts s) !! id
  = Some (row_of_new t).
Proof.
  intros Hnd Hi Ht. unfold Db.taskRepository_save_all. simpl.
  rewrite bind_all_columns.
  by erewrite insert_all_lookup.
Qed.

(** The tasks that the builder hands to [save]: one for each step. *)
Lemma built_tasks_length (raw : RawDefinition) (w : Workflow) :
  length (populateDependencies (parseWorkflowDefinition raw)
            (createTasks (parseWorkflowDefinition raw) w))
  = length (raw_steps raw).
Proof.
  rewrite populateDependencies_length. unfold createTasks.
  rewrite length_map. unfold parseWorkflowDefinition. cbn [steps].
  by rewrite length_map.
Qed.

(** The second save of [createWorkflowFromYAML] keeps the edges
    ordered. *)
Lemma db_tasks_edges_ordered (ids : list string) (raw : RawDefinition)
    (w : Workflow) (s : Store) :
  validateWorkflowDefinition (parseWorkflowDefinition raw) = Return () →
  Db.fresh_task_keys ids raw s →
  edges_ordered (tasks s) →
  edges_ordered
    (tasks (Db.taskRepository_save_all ids (Db.newTasks raw w) s)).
Proof.
  intros Hval (Hnd & Hlen & Hfree) Hord.
  apply validate_Return in Hval as [Hall _].
  pose proof (built_tasks_length raw w) as Hlen'.
  unfold Db.newTasks.
  set (def := parseWorkflowDefinition raw) in *.
  set (ts := populateDependencies def (createTasks def w)) in *.
  pose proof (populateDependencies_precede def w Hall) as Hpre. fold ts in Hpre.
  assert (∀ i id t, ids !! i = Some id → ts !! i = Some t →
            ∃ r, tasks (Db.taskRepository_save_all ids ts s) !! id = Some r ∧
                 row_workflowId r = wf_workflowId w ∧
                 row_stepNumber r = default 1 (new_stepNumber t)) as Hnew.
  { intros i id t Hi Ht.
    pose proof (db_save_all_new ids ts s i id t Hnd Hi Ht) as Hc.
    destruct (tasks (Db.taskRepository_save_all ids ts s) !! id) as [r|];
      [|done].
    apply (inj Some) in Hc. exists r. split; [done|].
    change (row_workflowId r) with (row_workflowId (columns r)).
    change (row_stepNumber r) with (row_stepNumber (columns r)).
    rewrite Hc. split; [|done].
    assert (row_of_new <$> ts !! i = Some (row_of_new t)) as Hr
      by (by rewrite Ht).
    rewrite <- list_lookup_fmap in Hr. unfold ts in Hr.
    rewrite populateDependencies_rows in Hr. unfold createTasks in Hr.
    rewrite <- list_fmap_compose, list_lookup_fmap in Hr.
    destruct (steps def !! i) as [step|]; [|done]. simpl in Hr.
    apply (inj Some) in Hr. by rewrite <- Hr. }
  intros uid u cid Hu Hup.
  destruct (decide (uid ∈ ids)) as [Hin|Hnin].
  - pose proof Hu as Hbound.
    unfold Db.taskRepository_save_all in Hbound. cbn [tasks] in Hbound.
    eapply bind_all_edges in Hbound
      as (i & j & t & refs & Hi & Ht & Hrefs & Hj & Hju); [| |done|exact Hup].
    2: { intros uid' u' Hin' Hu'.
         apply list_elem_of_lookup in Hin' as [k Hk].
         destruct (ts !! k) as [tk|] eqn:Htk.
         - erewrite insert_all_lookup in Hu'; [|exact Hnd|exact Hk|exact Htk].
           by simplify_eq.
         - apply lookup_ge_None in Htk. apply lookup_lt_Some in Hk. lia. }
    destruct (Hpre i t refs j Ht Hrefs Hj) as (tj & m & n & Htj & Hm & Hn & Hlt).
    destruct (Hnew i cid t Hi Ht) as (c & Hc & Hcw & Hcn).
    destruct (Hnew j uid tj Hju Htj) as (u' & Hu' & Huw & Hun).
    simplify_eq. exists c. split; [done|]. split; [congruence|].
    rewrite Hun, Hcn, Hm, Hn. done.
  - rewrite db_save_all_old in Hu by done.
    destruct (Hord uid u cid Hu Hup) as (c & Hc & Hw & Hlt).
    exists c. split; [|done]. rewrite db_save_all_old; [done|].
    intros Hcin%Hfree. apply Hcin, elem_of_dom. by eexists.
Qed.

(** The tables after the second save of [createWorkflowFromYAML]: the
    workflows and the results are as they were; the task rows that were
    there are kept; a new task row is queued, belongs to the workflow,
    and its dependant, if it has one, is a new row too. *)
Lemma db_tasks_rows (ids : list string) (raw : RawDefinition) (w : Workflow)
    (s : Store) :
  Db.fresh_task_keys ids raw s →
  let s' := Db.taskRepository_save_all ids (Db.newTasks raw w) s in
  workflows s' = workflows s ∧ results s' = results s ∧
  (∀ id r, tasks s !! id = Some r → tasks s' !! id = Some r) ∧
  (∀ id r', tasks s' !! id = Some r' → tasks s !! id = None →
     id ∈ ids ∧
     row_status r' = TaskStatus.Queued ∧
     row_workflowId r' = wf_workflowId w ∧
     ∀ cid, row_dependantId r' = Some cid → tasks s !! cid = None).
Proof.
  intros (Hnd & Hlen & Hfree) s'. subst s'.
  pose proof (built_tasks_length raw w) as Hlen'.
  unfold Db.newTasks.
  set (def := parseWorkflowDefinition raw) in *.
  set (ts := populateDependencies def (createTasks def w)) in *.
  assert (∀ id, id ∈ ids → tasks s !! id = None) as Hfresh.
  { intros id Hin%Hfree. by apply not_elem_of_dom. }
  split; [done|]. split; [done|]. split.
  - intros id r Hr. rewrite db_save_all_old; [done|].
    intros Hin%Hfresh. congruence.
  - intros id r' Hr' Hnone.
    destruct (decide (id ∈ ids)) as [Hin|Hnin].
    2: { rewrite db_save_all_old in Hr' by done. congruence. }
    split; [done|].
    pose proof Hin as Hin'.
    apply list_elem_of_lookup in Hin' as [i Hi].
    assert (is_Some (ts !! i)) as [t Ht].
    { apply lookup_lt_is_Some. apply lookup_lt_Some in Hi. lia. }
    pose proof (db_save_all_new ids ts s i id t Hnd Hi Ht) as Hc.
    rewrite Hr' in Hc. simpl in Hc. apply (inj Some) in Hc.
    assert (row_of_new <$> ts !! i = Some (row_of_new t)) as Hrow
      by (by rewrite Ht).
    rewrite <- list_lookup_fmap in Hrow. unfold ts in Hrow.
    rewrite populateDependencies_rows in Hrow. unfold createTasks in Hrow.
    rewrite <- list_fmap_compose, list_lookup_fmap in Hrow.
    destruct (steps def !! i) as [step|]; [|done]. simpl in Hrow.
    apply (inj Some) in Hrow.
    change (row_status r') with (row_status (columns r')).
    change (row_workflowId r') with (row_workflowId (columns r')).
    rewrite Hc, <- Hrow. split; [done|]. split; [done|].
    intros cid Hfk. apply Hfresh.
    unfold Db.taskRepository_save_all in Hr'. cbn [tasks] in Hr'.
    eapply bind_all_edges in Hr' as (i' & j & t' & refs & Hi' & _);
      [| |done|exact Hfk].
    + apply list_elem_of_lookup. by exists i'.
    + intros uid' u' Hin' Hu'.
      apply list_elem_of_lookup in Hin' as [k Hk].
      destruct (ts !! k) as [tk|] eqn:Htk.
      * erewrite insert_all_lookup in Hu'; [|exact Hnd|exact Hk|exact Htk].
        by simplify_eq.
      * apply lookup_ge_None in Htk. apply lookup_lt_Some in Hk. lia.
Qed.

End KeyedBuilder.

(** The workflow table and the result table after
    [createWorkflowFromYAML]. *)
Lemma db_create_valid (wid : string) (ids : list string)
    (raw : WorkflowFactory.RawDefinition) (clientId : string)
    (input : JS.Value) (s : Store) :
  WorkflowFactory.validateWorkflowDefinition
    (WorkflowFactory.parseWorkflowDefinition raw) = Return () →
  ∃ s',
    Db.createWorkflowFromYAML wid ids raw clientId input s
    = (Return (workflow_of_row wid
                 (WorkflowFactory.createWorkflow clientId input) None), s') ∧
    workflows s' =
      <[wid := WorkflowFactory.createWorkflow clientId input]> (workflows s) ∧
    results s' = results s ∧
    s' = Db.taskRepository_save_all ids
           (Db.newTasks raw
              (workflow_of_row wid
                 (WorkflowFactory.createWorkflow clientId input) None))
           (snd (Db.workflowRepository_insert wid
                   (WorkflowFactory.createWorkflow clientId input) s)).
Proof.
  intros Hval. unfold Db.createWorkflowFromYAML.
  rewrite Hval. simpl. by eexists.
Qed.

Lemma db_create_invalid (wid : string) (ids : list string)
    (raw : WorkflowFactory.RawDefinition) (clientId : string)
    (input : JS.Value) (s : Store) (e : string) :
  WorkflowFactory.validateWorkflowDefinition
    (WorkflowFactory.parseWorkflowDefinition raw) = Throw e →
  Db.createWorkflowFromYAML wid ids raw clientId input s = (Throw e, s).
Proof. intros Hval. unfold Db.createWorkflowFromYAML. by rewrite Hval. Qed.

(** [run], when the job throws: the workflow table is left as it was. *)
Lemma db_run_throws_workflows (c : Db.Turn) (task : Task) (s : Store)
    (job : Job) (err : JS.Value) :
  Db.get c (taskType task) = Return job →
  job (taskRepository_save (started task) s) (started task)
    (TaskRunner.getJobContext (started task)) = Throw err →
  workflows (TaskRunner.store_after (Db.run c task s)) = workflows s.
Proof.
  intros Hget Hjob. rewrite (db_run_throws_store _ _ _ _ _ Hget Hjob).
  cbn [TaskRunner.store_after]. by destruct (dependant task).
Qed.

(** *** What every write of a run keeps *)

Lemma db_recompute_workflows_kept (listing : list Task → list Task)
    (task : Task) (s : Store) (wid : string) :
  (λ r, (wrow_clientId r, wrow_input r))
    <$> workflows (snd (Db.recompute listing task s)) !! wid
  = (λ r, (wrow_clientId r, wrow_input r)) <$> workflows s !! wid.
Proof.
  unfold Db.recompute.
  destruct (workflow task) as [w|]; [|done].
  unfold Db.workflowRepository_findOne.
  destruct (workflows s !! wf_workflowId w) as [row|] eqn:Hrow; [|done]. simpl.
  unfold workflowRepository_save. simpl.
  destruct (decide (wid = wf_workflowId w)) as [->|Hne].
  - by rewrite lookup_insert_eq, Hrow.
  - by rewrite lookup_insert_ne.
Qed.

(** A property of stores that the three writes of the runner keep is kept
    by [run]. *)
Lemma db_run_keeps (P : Store → Prop) (c : Db.Turn) (task : Task)
    (s : Store) :
  (∀ t s0, (taskId t = taskId task ∧ clientId t = clientId task ∧
            taskType t = taskType task ∧ loaded t = loaded task ∧
            (carried t = carried task ∨ carried t = Some (Db.rid c))) ∨
           (∃ d, dependant task = Some d ∧ taskId t = taskId d ∧
                 clientId t = clientId d ∧ taskType t = taskType d ∧
                 loaded t = loaded d ∧ carried t = carried d) →
           P s0 → P (taskRepository_save t s0)) →
  (∀ res s0, dom (results s0) = dom (results s) → P s0 →
             P (snd (Db.resultRepository_insert (Db.rid c) res s0))) →
  (∀ t s0, workflow t = workflow task → P s0 →
           P (snd (Db.recompute (Db.listing c) t s0))) →
  P s → P (TaskRunner.store_after (Db.run c task s)).
Proof.
  intros Htask Hres Hrec Hs.
  assert (P (taskRepository_save (started task) s)) as H1.
  { apply Htask; [|done]. left. split_and!; try done. by left. }
  assert (dom (results (taskRepository_save (started task) s))
          = dom (results s)) as Hdom by apply save_results_dom.
  destruct (db_run_cases c task s)
    as [[err Hget]|[(job & v & Hget & Hjob)|(job & err & Hget & Hjob)]].
  - by rewrite (db_run_stranded _ _ _ _ Hget).
  - rewrite (db_run_returns _ _ _ _ _ Hget Hjob).
    cbn [TaskRunner.store_after]. apply Hrec; [done|].
    set (saved := Db.resultRepository_insert _ _ _).
    assert (P (snd saved)) as H2 by (by apply Hres).
    assert (P (taskRepository_save
                 (set_result (Some (fst saved))
                    (set_progress None
                       (set_status TaskStatus.Completed (started task))))
                 (snd saved))) as H3.
    { apply Htask; [|done]. left. split_and!; try done. by right. }
    destruct (dependant task) as [d|] eqn:Hd; [|done].
    apply Htask; [|done]. right. by exists d.
  - rewrite (db_run_throws_store _ _ _ _ _ Hget Hjob).
    cbn [TaskRunner.store_after].
    set (saved := Db.resultRepository_insert _ _ _).
    assert (P (snd saved)) as H2 by (by apply Hres).
    assert (P (taskRepository_save (failed task) (snd saved))) as H3.
    { apply Htask; [|done]. left. split_and!; try done. by left. }
    destruct (dependant task) as [d|] eqn:Hd; [|done].
    apply Htask; [|done]. right. by exists d.
Qed.

(** No turn adds or removes a workflow row. *)
Lemma db_iteration_workflows_dom (c : Db.Turn) (s : Store) :
  dom (workflows (Db.iteration c s)) = dom (workflows s).
Proof.
  unfold Db.iteration.
  destruct (TaskWorker.findOne_queued s) as [task|]; [|done].
  apply (db_run_keeps (λ s0, dom (workflows s0) = dom (workflows s)));
    [| | |done].
  - by intros t s0 _ <-.
  - by intros res s0 _ <-.
  - intros t s0 _ <-. apply set_eq. intros wid. rewrite !elem_of_dom.
    pose proof (db_recompute_workflows_kept (Db.listing c) t s0 wid) as Hk.
    destruct (workflows (snd (Db.recompute (Db.listing c) t s0)) !! wid),
      (workflows s0 !! wid); try done; split; intros [? ?]; done.
Qed.

(** *** The reachable stores *)

(** The workflow of every task row is stored. *)
Lemma reachable_workflow_stored (s : Store) (id : string) (r : TaskRow) :
  reachable s → tasks s !! id = Some r →
  row_workflowId r ∈ dom (workflows s).
Proof.
  intros Hreach. revert id r.
  induction Hreach as [|wid clientId input s _ IH Hwid
                       |wid ids raw clientId input s _ IH Hval Hw Hnone Hkeys
                       |c s _ IH _]; intros id r Hr.
  - simpl in Hr. by rewrite lookup_empty in Hr.
  - cbn [snd Db.workflowRepository_insert workflows tasks] in *.
    rewrite dom_insert. apply elem_of_union_r. by apply (IH id).
  - destruct (db_tasks_rows ids raw
                (workflow_of_row wid
                   (WorkflowFactory.createWorkflow clientId input) None)
                s Hkeys) as (Hws & _ & Hold & Hnew).
    rewrite Hws.
    destruct (tasks s !! id) as [r0|] eqn:Hr0.
    + pose proof (Hold id r0 Hr0) as Hr'. rewrite Hr in Hr'.
      injection Hr' as ->. by apply (IH id).
    + destruct (Hnew id r Hr Hr0) as (_ & _ & -> & _). simpl.
      apply elem_of_dom. by eexists.
  - rewrite db_iteration_workflows_dom.
    pose proof (db_iteration_same_edges c s id) as Hk. rewrite Hr in Hk.
    destruct (tasks s !! id) as [r0|] eqn:Hr0; [|done].
    apply (inj Some) in Hk. injection Hk as -> _ _. by apply (IH id).
Qed.

(** The reachable stores are closed under [createWorkflowFromYAML], its
    two saves coming one after the other. *)
Lemma reachable_create (wid : string) (ids : list string)
    (raw : WorkflowFactory.RawDefinition) (clientId : string)
    (input : JS.Value) (s : Store) :
  reachable s → Db.fresh_keys wid ids raw s →
  reachable (snd (Db.createWorkflowFromYAML wid ids raw clientId input s)).
Proof.
  intros Hs [Hwid Hkeys].
  destruct (WorkflowFactory.validateWorkflowDefinition
              (WorkflowFactory.parseWorkflowDefinition raw))
    as [[]|e] eqn:Hval.
  2: { by rewrite (db_create_invalid _ _ _ _ _ _ _ Hval). }
  destruct (db_create_valid wid ids raw clientId input s Hval)
    as (s' & -> & _ & _ & ->). cbn [snd].
  apply reachable_tasks; [by apply reachable_workflow|done|..|done].
  - cbn [workflows]. apply lookup_insert_eq.
  - intros id r Hr <-. apply Hwid.
    by apply (reachable_workflow_stored s id r).
Qed.

(** They are closed under the deterministic creation and turn. *)
Lemma reachable_first_create (raw : WorkflowFactory.RawDefinition)
    (clientId : string) (input : JS.Value) (s : Store) :
  reachable s →
  reachable (snd (WorkflowFactory.createWorkflowFromYAML raw clientId input s)).
Proof.
  intros Hs. rewrite <- db_first_create.
  apply reachable_create; [done|]. apply db_first_fresh_keys.
Qed.

Lemma reachable_first_iteration (jobs : Jobs) (s : Store) :
  reachable s → reachable (TaskWorker.iteration jobs s).
Proof.
  intros Hs. rewrite <- db_first_iteration.
  apply reachable_iteration; [done|]. apply db_first_legal.
Qed.

(** ** The scheduler respects the dependencies *)

Lemma reachable_edges_ordered (s : Store) :
  reachable s → edges_ordered (tasks s).
Proof.
  induction 1 as [|wid clientId input s _ IH Hwid
                  |wid ids raw clientId input s _ IH Hval Hw Hnone Hkeys
                  |c s _ IH _].
  - intros uid u cid Hu. simpl in Hu. by rewrite lookup_empty in Hu.
  - done.
  - by apply db_tasks_edges_ordered.
  - eapply edges_ordered_same_edges; [exact IH|].
    apply db_iteration_same_edges.
Qed.

(** [C9] In every reachable store, whatever keys the database generated
    and whatever the jobs did, the task that the scheduler selects is
    queued and no queued task comes before it in the order (workflow
    identifier, step number); and every upstream dependency of the selected
    task, that is every task whose dependant it is, belongs to the same
    workflow, has a smaller step number and is not queued any more. *)
Theorem upstream_not_queued_when_selected (s : Store) (task : Task)
    (uid : string) (u : TaskRow) :
  reachable s →
  TaskWorker.findOne_queued s = Some task →
  tasks s !! uid = Some u →
  upstream_of (taskId task) u →
  status task = TaskStatus.Queued ∧
  (∀ id r, tasks s !! id = Some r → row_status r = TaskStatus.Queued →
     String.compare (row_workflowId r) (workflowId task) ≠ Lt ∧
     (row_workflowId r = workflowId task → stepNumber task ≤ row_stepNumber r)) ∧
  row_workflowId u = workflowId task ∧
  row_stepNumber u < stepNumber task ∧
  row_status u ≠ TaskStatus.Queued.
Proof.
  intros Hreach Hfind Hu Hup.
  apply findOne_queued_attached in Hfind as (_ & _ & Hfirst).
  apply first_queued_least in Hfirst as (Hrow & Hq & Hleast).
  assert (∀ id r, tasks s !! id = Some r → row_status r = TaskStatus.Queued →
            String.compare (row_workflowId r) (workflowId task) ≠ Lt ∧
            (row_workflowId r = workflowId task →
             stepNumber task ≤ row_stepNumber r)) as Hmin.
  { intros id r Hr Hst. specialize (Hleast id r Hr Hst).
    unfold TaskWorker.key_ltb in Hleast. simpl in Hleast.
    destruct (String.compare (row_workflowId r) (workflowId task)) eqn:Hc;
      [|done|].
    - split; [done|]. intros _. apply Z.ltb_ge in Hleast. lia.
    - split; [done|]. intros Heq. rewrite Heq, string_compare_refl in Hc. done. }
  destruct (reachable_edges_ordered s Hreach uid u (taskId task) Hu Hup)
    as (c & Hc & Hw & Hlt).
  rewrite Hrow in Hc. injection Hc as <-. simpl in Hw, Hlt.
  split_and!; try done.
  intros Hst. destruct (Hmin uid u Hu Hst) as [_ Hle].
  specialize (Hle Hw). lia.
Qed.

(** Once the first task of the two-step workflow has completed, the
    scheduler selects the second one, whose upstream dependency is not
    queued. *)
Lemma upstream_not_queued_when_selected_witness :
  ∃ task u,
    TaskWorker.findOne_queued Sample.after_success = Some task ∧
    taskId task = "1" ∧
    tasks Sample.after_success !! "0" = Some u ∧
    row_status u ≠ TaskStatus.Queued.
Proof.
  eexists _, _.
  split; [vm_compute; reflexivity|].
  split; [reflexivity|].
  split; [vm_compute; reflexivity|].
  eapply (upstream_not_queued_when_selected Sample.after_success _ "0" _).
  - apply reachable_first_iteration, reachable_first_create, reachable_empty.
  - vm_compute. reflexivity.
  - vm_compute. reflexivity.
  - vm_compute. reflexivity.
Defined.

(** * More facts *)

(** ** [take] *)

Lemma step_lookup {V : Type} (p acc : gmap string V) (key k : string) :
  Take.step p acc key !! k =
  if decide (k = key ∧ k ≠ "__proto__")
  then match p !! k with Some v => Some v | None => acc !! k end
  else acc !! k.
Proof.
  unfold Take.step. destruct (p !! key) as [v|] eqn:Hp.
  - destruct (String.eqb_spec key "__proto__") as [->|Hne].
    + rewrite decide_False; [done|]. by intros [-> ?].
    + case_decide as Hk.
      * destruct Hk as [-> _]. by rewrite Hp, lookup_insert_eq.
      * rewrite lookup_insert_ne; [done|]. intros <-. by apply Hk.
  - case_decide as Hk; [|done]. destruct Hk as [-> _]. by rewrite Hp.
Qed.

Lemma take_step_lookup {V : Type} (p acc : gmap string V)
    (keys : list string) (k : string) :
  foldl (Take.step p) acc keys !! k =
  if decide (k ∈ keys ∧ k ≠ "__proto__")
  then match p !! k with Some v => Some v | None => acc !! k end
  else acc !! k.
Proof.
  revert acc. induction keys as [|key keys IH]; intros acc; simpl.
  - done.
  - rewrite IH, step_lookup.
    destruct (decide (k ≠ "__proto__")) as [Hk|Hk].
    2: { rewrite !decide_False; [done|by intros [_ ?]..]. }
    destruct (decide (k = key)) as [->|Hne].
    + rewrite (decide_True (P := key ∈ key :: keys ∧ _))
        by (split; [by left | done]).
      rewrite (decide_True (P := key = key ∧ _)) by done.
      case_decide; by destruct (p !! key).
    + rewrite (decide_False (P := k = key ∧ _)) by (by intros [? _]).
      destruct (decide (k ∈ keys)) as [Hin|Hnin].
      * rewrite !decide_True; [done|split; [by right | done]|done].
      * rewrite !decide_False; [done| |by intros [? _]].
        by intros [[?|?]%elem_of_cons _].
Qed.

Lemma pick_lookup {V : Type} (p : gmap string V) (keys : list string)
    (k : string) :
  Take.pick p keys !! k
  = if decide (k ∈ keys ∧ k ≠ "__proto__") then p !! k else None.
Proof.
  unfold Take.pick. rewrite take_step_lookup, lookup_empty.
  case_decide; [|done]. by destruct (p !! k).
Qed.

Lemma pick_lookup_plain {V : Type} (p : gmap string V) (keys : list string)
    (k : string) :
  "__proto__" ∉ keys →
  Take.pick p keys !! k = if decide (k ∈ keys) then p !! k else None.
Proof.
  intros Hkeys. rewrite pick_lookup.
  destruct (decide (k ∈ keys)) as [Hin|Hnin].
  - rewrite decide_True; [done|]. split; [done|]. by intros ->.
  - rewrite decide_False; [done|]. by intros [? _].
Qed.

Lemma visible_lookup {V : Type} (data : JS.Value → V) (proto : gmap string V)
    (obj : JS.Value) (k : string) :
  Take.visible data proto obj !! k
  = match Take.props obj !! k with
    | Some v => Some (data v)
    | None => proto !! k
    end.
Proof.
  unfold Take.visible. rewrite lookup_union, lookup_fmap.
  destruct (Take.props obj !! k); simpl; [|by rewrite (left_id None _)].
  by destruct (proto !! k).
Qed.

(** [X1] [take] answers the empty object for every value that is not an
    object or an array (undefined, null, a boolean, a number, a string),
    whatever the keys and whatever the value inherits.  For an object or
    an array and a list of keys, the result has exactly the listed keys
    that the object has or inherits, other than [__proto__]: a key that is
    an own property has the value of that property, and a listed key that
    is only inherited has the inherited value, so that the result of
    [take({a: 1}, ['toString', 'a'])] has the key [toString].  The key
    [__proto__] is never a property of the result.  When every listed key
    is an own property, what the object inherits plays no part.  And when
    the keys are not an array the object itself is returned. *)
Theorem take_picks_listed_properties {V : Type} (data : JS.Value → V)
    (proto : gmap string V) (obj : JS.Value) :
  (∀ keys, (∀ fields, obj ≠ JS.Object fields) → (∀ xs, obj ≠ JS.Array xs) →
           Take.take data proto obj keys = ∅) ∧
  (∀ keys k, (∃ fields, obj = JS.Object fields) ∨ (∃ xs, obj = JS.Array xs) →
     Take.take data proto obj (Some keys) !! k
     = if decide (k ∈ keys ∧ k ≠ "__proto__")
       then match Take.props obj !! k with
            | Some v => Some (data v)
            | None => proto !! k
            end
       else None) ∧
  (∀ fields keys k v, obj = JS.Object fields → k ∈ keys → k ≠ "__proto__" →
     (list_to_map fields : gmap string JS.Value) !! k = None →
     proto !! k = Some v →
     Take.take data proto obj (Some keys) !! k = Some v) ∧
  (∀ keys, Take.take data proto obj (Some keys) !! "__proto__" = None) ∧
  (∀ keys, (∃ fields, obj = JS.Object fields) ∨ (∃ xs, obj = JS.Array xs) →
     (∀ k, k ∈ keys → is_Some (Take.props obj !! k)) →
     Take.take data proto obj (Some keys)
     = data <$> Take.pick (Take.props obj) keys) ∧
  (∀ fields, obj = JS.Object fields →
     Take.take data proto obj None = data <$> list_to_map fields).
Proof.
  assert (∀ keys k,
            (∃ fields, obj = JS.Object fields) ∨ (∃ xs, obj = JS.Array xs) →
            Take.take data proto obj (Some keys) !! k
            = if decide (k ∈ keys ∧ k ≠ "__proto__")
              then match Take.props obj !! k with
                   | Some v => Some (data v)
                   | None => proto !! k
                   end
              else None) as Hlookup.
  { intros keys k Hobj. rewrite <- visible_lookup.
    destruct Hobj as [[fields ->]|[xs ->]]; apply pick_lookup. }
  assert (∀ keys, (∀ fields, obj ≠ JS.Object fields) →
            (∀ xs, obj ≠ JS.Array xs) →
            Take.take data proto obj keys = ∅) as Hempty.
  { intros keys Hobj Harr. unfold Take.take.
    destruct obj as [| |b|n| |str|xs|fields]; simpl;
      rewrite ?orb_true_r; try done.
    + by destruct (Harr xs).
    + by destruct (Hobj fields). }
  split_and!.
  - exact Hempty.
  - exact Hlookup.
  - intros fields keys k v -> Hin Hne Hown Hproto.
    rewrite Hlookup by (left; by eexists).
    rewrite decide_True by done. simpl. by rewrite Hown.
  - intros keys.
    destruct obj as [| |b|n| |str|xs|fields];
      try (rewrite Hempty by done; apply lookup_empty);
      (rewrite Hlookup by (by (left + right); eexists));
      rewrite decide_False; try done; by intros [_ ?].
  - intros keys Hobj Hown. apply map_eq. intros k.
    rewrite Hlookup by done. rewrite lookup_fmap, pick_lookup.
    case_decide as Hin; [|done].
    destruct (Hown k (proj1 Hin)) as [v Hv]. by rewrite Hv.
  - by intros fields ->.
Qed.

(** A plain object inherits [toString], among others: [take] copies it
    when it is listed. *)
Lemma take_picks_listed_properties_witness :
  Take.take (V := JS.Value + string) inl
    {[ "toString" := inr "Object.prototype.toString" ]}
    (JS.Object [("a", JS.Number 1)]) (Some ["toString"; "a"]) !! "toString"
  = Some (inr "Object.prototype.toString").
Proof.
  apply (proj1 (proj2 (proj2 (take_picks_listed_properties
                  (V := JS.Value + string) inl
                  {[ "toString" := inr "Object.prototype.toString" ]}
                  (JS.Object [("a", JS.Number 1)]))))
           [("a", JS.Number 1)] ["toString"; "a"] "toString");
    [reflexivity | apply list_elem_of_here | discriminate | reflexivity
    | reflexivity].
Defined.

(** [X2] Picking is a restriction of the properties that are seen, [p].
    Picking again out of the result, which is a new object and inherits
    [objproto] (the members of [Object.prototype]; those of the prototype
    of the source when the first pick listed [__proto__]), gives each
    listed key other than [__proto__] the value that the first pick gave
    it, and otherwise the member of [objproto] under that name: a key that
    the first pick left out comes back if it is one of these.  When no
    key of [keys2] is such a name, picking [keys2] out of what [keys1]
    picked is picking the keys of [keys2] that are in [keys1]; and picking
    [keys1] again changes nothing when none of them is such a name. *)
Theorem pick_composes {V : Type} (p objproto : gmap string V)
    (keys1 keys2 : list string) :
  Take.pick p keys1 ⊆ p ∧
  (∀ k, Take.pick (Take.pick p keys1 ∪ objproto) keys2 !! k
        = if decide (k ∈ keys2 ∧ k ≠ "__proto__")
          then if decide (k ∈ keys1 ∧ is_Some (p !! k)) then p !! k
               else objproto !! k
          else None) ∧
  (∀ k v, k ∈ keys2 → k ≠ "__proto__" → k ∉ keys1 →
          objproto !! k = Some v →
          Take.pick (Take.pick p keys1 ∪ objproto) keys2 !! k = Some v) ∧
  ((∀ k, k ∈ keys2 → objproto !! k = None) →
   Take.pick (Take.pick p keys1 ∪ objproto) keys2
   = Take.pick p (filter (λ k, k ∈ keys1) keys2)) ∧
  ((∀ k, k ∈ keys1 → objproto !! k = None) →
   Take.pick (Take.pick p keys1 ∪ objproto) keys1 = Take.pick p keys1).
Proof.
  assert (∀ keys k, Take.pick (Take.pick p keys1 ∪ objproto) keys !! k
            = if decide (k ∈ keys ∧ k ≠ "__proto__")
              then if decide (k ∈ keys1 ∧ is_Some (p !! k)) then p !! k
                   else objproto !! k
              else None) as Hlookup.
  { intros keys k. rewrite pick_lookup. case_decide as H2; [|done].
    destruct H2 as [H2 Hne].
    rewrite lookup_union, pick_lookup.
    destruct (decide (k ∈ keys1)) as [H1|H1].
    - rewrite (decide_True (P := k ∈ keys1 ∧ k ≠ _)) by done.
      destruct (p !! k) as [v|] eqn:Hp.
      + rewrite decide_True by (by split). by destruct (objproto !! k).
      + rewrite decide_False by (by intros [_ [? ?]]).
        by rewrite (left_id None _).
    - rewrite (decide_False (P := k ∈ keys1 ∧ k ≠ _)) by (by intros [? _]).
      rewrite decide_False by (by intros [? _]).
      by rewrite (left_id None _). }
  split_and!.
  - apply map_subseteq_spec. intros k v. rewrite pick_lookup.
    by case_decide.
  - apply Hlookup.
  - intros k v H2 Hne H1 Hv. rewrite Hlookup, decide_True by done.
    by rewrite decide_False by (by intros [? _]).
  - intros Hnone. apply map_eq. intros k. rewrite Hlookup, pick_lookup.
    destruct (decide (k ∈ keys2 ∧ k ≠ "__proto__")) as [[H2 Hne]|H2].
    + destruct (decide (k ∈ keys1)) as [H1|H1].
      * rewrite (decide_True (P := k ∈ filter _ _ ∧ _))
          by (split; [by apply list_elem_of_filter | done]).
        case_decide as Hp; [done|]. rewrite Hnone by done.
        destruct (p !! k) eqn:Hpk; [|done]. destruct Hp. by split.
      * rewrite decide_False by (by intros [? _]).
        rewrite (decide_False (P := k ∈ filter _ _ ∧ _))
          by (by intros [[? _]%list_elem_of_filter _]).
        by apply Hnone.
    + rewrite decide_False; [done|].
      intros [[_ ?]%list_elem_of_filter ?]. by apply H2.
  - intros Hnone. apply map_eq. intros k. rewrite Hlookup, pick_lookup.
    case_decide as H1; [|done].
    case_decide as Hp; [done|]. rewrite Hnone by apply H1.
    destruct (p !! k) eqn:Hpk; [|done]. destruct Hp.
    split; [apply H1 | done].
Qed.

(** ** The results route *)

Lemma Workflow_isCompleted_spec (w : Workflow) :
  Workflow_isCompleted w = true ↔
  wf_status w = WorkflowStatus.Completed ∨ wf_status w = WorkflowStatus.Failed.
Proof.
  unfold Workflow_isCompleted. rewrite bool_decide_eq_true.
  rewrite !elem_of_cons, elem_of_nil. tauto.
Qed.

Lemma get_results_pending (wid : string) (s : Store) (row : WorkflowRow) :
  workflows s !! wid = Some row →
  wrow_status row = WorkflowStatus.Initial ∨
  wrow_status row = WorkflowStatus.InProgress →
  ResultsRoute.get_results wid s
  = {| res_status := HttpStatus.BadRequest;
       res_json := message "Workflow is not completed yet" |}.
Proof.
  intros Hrow Hst. unfold ResultsRoute.get_results, workflowRepository_findOne.
  rewrite Hrow. simpl.
  set (w := workflow_of_row wid row _).
  assert (Workflow_isCompleted w = false) as ->; [|done].
  apply not_true_is_false. intros Hc%Workflow_isCompleted_spec.
  simpl in Hc. destruct Hst, Hc; congruence.
Qed.

(** [X3] [GET /:id/results] answers 404 when there is no workflow with the
    key; 400 when the workflow is Initial or InProgress; and 200 when it is
    Completed or Failed, with a body of exactly three properties: the key,
    the status and the final report ([null] when none was stored). *)
Theorem get_results_by_status (wid : string) (s : Store) :
  let r := ResultsRoute.get_results wid s in
  (workflows s !! wid = None →
   res_status r = HttpStatus.NotFound ∧
   res_json r = message "Workflow not found") ∧
  (∀ row, workflows s !! wid = Some row →
     (wrow_status row = WorkflowStatus.Initial ∨
      wrow_status row = WorkflowStatus.InProgress →
      res_status r = HttpStatus.BadRequest ∧
      res_json r = message "Workflow is not completed yet") ∧
     (wrow_status row = WorkflowStatus.Completed ∨
      wrow_status row = WorkflowStatus.Failed →
      res_status r = HttpStatus.Ok ∧
      res_json r =
        {[ "workflowId" := JS.Str wid;
           "status" := JS.Str (WorkflowStatus.value (wrow_status row));
           "finalResult" := match wrow_finalResult row with
                            | Some report => JS.Str report
                            | None => JS.Null
                            end ]})).
Proof.
  unfold ResultsRoute.get_results, workflowRepository_findOne.
  split.
  - by intros ->.
  - intros row Hrow. split.
    + intros Hst.
      fold (workflowRepository_findOne wid s).
      fold (ResultsRoute.get_results wid s).
      by rewrite (get_results_pending wid s row).
    + intros Hst. rewrite Hrow. simpl.
      set (w := workflow_of_row wid row _).
      assert (Workflow_isCompleted w = true) as ->
        by (by apply Workflow_isCompleted_spec).
      simpl. split; [done|].
      apply map_eq. intros k. rewrite pick_lookup_plain by compute_done.
      unfold ResultsRoute.workflow_columns. simpl.
      case_decide as Hk.
      * rewrite !elem_of_cons, elem_of_nil in Hk.
        destruct Hk as [->|[->|[->|[]]]]; by simplify_map_eq.
      * rewrite !elem_of_cons, elem_of_nil in Hk.
        assert (k ≠ "workflowId" ∧ k ≠ "status" ∧ k ≠ "finalResult")
          as (H1 & H2 & H3) by (split_and!; intros ->; apply Hk; tauto).
        by simplify_map_eq.
Qed.

(** ** The analysis route *)



(** ** The task runner: what a run writes *)

Lemma save_status (t : Task) (s : Store) (k : string) :
  row_status <$> tasks (taskRepository_save t s) !! k
  = if decide (k = taskId t) then Some (status t)
    else row_status <$> tasks s !! k.
Proof.
  case_decide as Hk.
  - subst k. pose proof (save_lookup t s) as Hc.
    destruct (tasks (taskRepository_save t s) !! taskId t) as [r|]; [|done].
    apply (inj Some) in Hc. simpl.
    change (row_status r) with (row_status (columns r)). by rewrite Hc.
  - pose proof (save_lookup_ne t s k Hk) as Hc.
    destruct (tasks (taskRepository_save t s) !! k) as [r|],
      (tasks s !! k) as [r0|]; try done.
    apply (inj Some) in Hc. simpl.
    change (row_status r) with (row_status (columns r)).
    change (row_status r0) with (row_status (columns r0)). by rewrite Hc.
Qed.

(** [run], when the job throws [err]: the store it leaves. *)
Lemma run_throws_store (jobs : Jobs) (task : Task) (s : Store) (job : Job)
    (err : JS.Value) :
  JobFactory.get jobs (taskType task) = Return job →
  job (taskRepository_save (started task) s) (started task)
    (TaskRunner.getJobContext (started task)) = Throw err →
  let s1 := taskRepository_save (started task) s in
  let saved := resultRepository_save
                 {| resultId := None; data := JS.Undefined;
                    error := JS.or (JS.opt_get err "message") err |} s1 in
  let s3 := taskRepository_save (failed task) (snd saved) in
  let s4 := match dependant task with
            | Some d => taskRepository_save (set_status TaskStatus.Skipped d) s3
            | None => s3
            end in
  TaskRunner.run jobs task s =
  {| TaskRunner.outcome := Throw err;
     TaskRunner.task_after := failed task;
     TaskRunner.store_after := s4 |}.
Proof.
  intros Hget Hjob. unfold TaskRunner.run. fold (started task).
  change (taskType (started task)) with (taskType task). rewrite Hget.
  unfold TaskRunner.try_job. rewrite Hjob.
  unfold TaskRunner.finally_save.
  change (set_error ?e new_Result)
    with {| resultId := None; data := JS.Undefined; error := e |}.
  destruct (resultRepository_save _ _) as [res' s2] eqn:Hsave.
  unfold failed. simpl. by destruct (dependant task).
Qed.

Lemma db_recompute_workflows_ne (listing : list Task → list Task)
    (task : Task) (s : Store) (wid : string) :
  (∀ w, workflow task = Some w → wid ≠ wf_workflowId w) →
  workflows (snd (Db.recompute listing task s)) !! wid = workflows s !! wid.
Proof.
  intros Hne. unfold Db.recompute.
  destruct (workflow task) as [w|]; [|done].
  specialize (Hne w eq_refl).
  unfold Db.workflowRepository_findOne.
  destruct (workflows s !! wf_workflowId w) as [row|]; [|done]. simpl.
  unfold workflowRepository_save. simpl. by rewrite lookup_insert_ne.
Qed.

(** [save] leaves the rows of the tasks that are neither the task nor one
    of the dependencies it holds as they are, and the result rows other
    than the one it holds. *)
Lemma save_lookup_other (t : Task) (s : Store) (k : string) :
  k ≠ taskId t → k ∉ loaded t →
  tasks (taskRepository_save t s) !! k = tasks s !! k.
Proof.
  intros Hk Hdeps. unfold taskRepository_save, loaded in *. cbn [tasks].
  destruct (dependencies t) as [ds|]; [|by rewrite lookup_insert_ne].
  induction ds as [|d ds IH]; simpl.
  - by rewrite lookup_insert_ne.
  - rewrite lookup_alter_ne.
    + apply IH. intros Hin. apply Hdeps. simpl. by right.
    + intros <-. apply Hdeps. simpl. by left.
Qed.

Lemma save_results_other (t : Task) (s : Store) (rid : string) :
  carried t ≠ Some rid →
  results (taskRepository_save t s) !! rid = results s !! rid.
Proof.
  intros Hrid. unfold taskRepository_save, carried in *. cbn [results].
  destruct (result t ≫= resultId) as [rid'|]; [|done].
  rewrite lookup_alter_ne; [done|]. congruence.
Qed.

(** [X5] Whatever the job and the database do, a run writes nothing but
    its own rows.  The columns of every task row other than the task's
    and its dependant's are kept, and the whole row is kept unless it is
    the row of a dependency that the task object or its dependant holds
    (saving the object writes the foreign key of such a row); the task
    that the query of the scheduler returns holds none, so that a turn
    keeps every other row entirely.  Every result row other than the new
    one keeps its payload, and the whole row is kept unless it is the
    result that the task object or its dependant holds; at most one
    result row is added, under the key generated for it.  Every workflow
    row other than that of the task's workflow is kept, and no workflow
    row changes its client or its input, appears or disappears. *)
Theorem run_writes_only_its_rows (c : Db.Turn) (task : Task) (s : Store) :
  let s' := TaskRunner.store_after (Db.run c task s) in
  (∀ k, k ≠ taskId task → (∀ d, dependant task = Some d → k ≠ taskId d) →
        columns <$> tasks s' !! k = columns <$> tasks s !! k ∧
        (k ∉ loaded task → (∀ d, dependant task = Some d → k ∉ loaded d) →
         tasks s' !! k = tasks s !! k)) ∧
  (TaskWorker.findOne_queued s = Some task →
   ∀ k, k ≠ taskId task → (∀ d, dependant task = Some d → k ≠ taskId d) →
        tasks s' !! k = tasks s !! k) ∧
  (∀ rid, rid ≠ Db.rid c →
        payload <$> results s' !! rid = payload <$> results s !! rid ∧
        (carried task ≠ Some rid →
         (∀ d, dependant task = Some d → carried d ≠ Some rid) →
         results s' !! rid = results s !! rid)) ∧
  dom (results s) ⊆ dom (results s') ∧
  dom (results s') ⊆ {[Db.rid c]} ∪ dom (results s) ∧
  (∀ wid, (∀ w, workflow task = Some w → wid ≠ wf_workflowId w) →
        workflows s' !! wid = workflows s !! wid) ∧
  (∀ wid, wrow_clientId <$> workflows s' !! wid
          = wrow_clientId <$> workflows s !! wid ∧
          wrow_input <$> workflows s' !! wid
          = wrow_input <$> workflows s !! wid).
Proof.
  intros s'. subst s'.
  assert (∀ k, k ≠ taskId task → (∀ d, dependant task = Some d → k ≠ taskId d) →
            k ∉ loaded task → (∀ d, dependant task = Some d → k ∉ loaded d) →
            tasks (TaskRunner.store_after (Db.run c task s)) !! k
            = tasks s !! k) as Hrows.
  { intros k Hk Hd Hl Hld.
    apply (db_run_keeps (λ s0, tasks s0 !! k = tasks s !! k)); [| | |done].
    + intros t s0 [(Ht & _ & _ & Hlt & _)|(d & Hdep & Ht & _ & _ & Hlt & _)] <-;
        apply save_lookup_other.
      * congruence.
      * by rewrite Hlt.
      * rewrite Ht. by apply Hd.
      * rewrite Hlt. by apply Hld.
    + by intros res s0 _ <-.
    + intros t s0 _ <-. by rewrite (proj1 (db_recompute_tasks _ t s0)). }
  split_and!.
  - intros k Hk Hd. split; [|by apply Hrows].
    apply (db_run_keeps
             (λ s0, columns <$> tasks s0 !! k = columns <$> tasks s !! k));
      [| | |done].
    + intros t s0 [(Ht & _)|(d & Hdep & Ht & _)] <-; apply save_lookup_ne.
      * congruence.
      * rewrite Ht. by apply Hd.
    + by intros res s0 _ <-.
    + intros t s0 _ <-. by rewrite (proj1 (db_recompute_tasks _ t s0)).
  - unfold TaskWorker.findOne_queued.
    destruct (TaskWorker.first_queued s) as [[id row]|]; [|done].
    intros [= <-] k Hk Hd. apply Hrows; [done..|by intros ?%elem_of_nil|].
    intros d. cbn [dependant TaskWorker.load].
    destruct (row_dependantId row) as [did|]; [|done]. simpl.
    destruct (tasks s !! did); [|done]. intros [= <-].
    by intros ?%elem_of_nil.
  - intros rid Hrid. split.
    + apply (db_run_keeps (λ s0, payload <$> results s0 !! rid
                                 = payload <$> results s !! rid)); [| | |done].
      * intros t s0 _ <-. apply save_results_payload.
      * intros res s0 _ <-. unfold Db.resultRepository_insert. cbn [snd results].
        by rewrite lookup_insert_ne.
      * intros t s0 _ <-. by rewrite (proj2 (db_recompute_tasks _ t s0)).
    + intros Hc Hcd.
      apply (db_run_keeps (λ s0, results s0 !! rid = results s !! rid));
        [| | |done].
      * intros t s0 [(_ & _ & _ & _ & [Hct|Hct])|(d & Hdep & _ & _ & _ & _ & Hct)]
          <-; apply save_results_other; rewrite Hct.
        -- done.
        -- congruence.
        -- by apply Hcd.
      * intros res s0 _ <-. unfold Db.resultRepository_insert. cbn [snd results].
        by rewrite lookup_insert_ne.
      * intros t s0 _ <-. by rewrite (proj2 (db_recompute_tasks _ t s0)).
  - apply (db_run_keeps (λ s0, dom (results s) ⊆ dom (results s0)));
      [| | |done].
    + intros t s0 _ Hsub. by rewrite save_results_dom.
    + intros res s0 _ Hsub. unfold Db.resultRepository_insert.
      cbn [snd results]. rewrite dom_insert. set_solver.
    + intros t s0 _ Hsub. by rewrite (proj2 (db_recompute_tasks _ t s0)).
  - apply (db_run_keeps (λ s0, dom (results s0)
                               ⊆ {[Db.rid c]} ∪ dom (results s)));
      [| | |set_solver].
    + intros t s0 _ Hsub. by rewrite save_results_dom.
    + intros res s0 Hdom _. unfold Db.resultRepository_insert.
      cbn [snd results]. rewrite dom_insert, Hdom. done.
    + intros t s0 _ Hsub. by rewrite (proj2 (db_recompute_tasks _ t s0)).
  - intros wid Hwid.
    apply (db_run_keeps (λ s0, workflows s0 !! wid = workflows s !! wid));
      [| | |done].
    + intros t s0 _ <-. by rewrite save_workflows.
    + by intros res s0 _ <-.
    + intros t s0 Hw <-. apply db_recompute_workflows_ne. by rewrite Hw.
  - intros wid.
    assert ((λ r, (wrow_clientId r, wrow_input r))
              <$> workflows (TaskRunner.store_after (Db.run c task s)) !! wid
            = (λ r, (wrow_clientId r, wrow_input r)) <$> workflows s !! wid)
      as Hkept.
    { apply (db_run_keeps (λ s0, (λ r, (wrow_clientId r, wrow_input r))
                                   <$> workflows s0 !! wid
                                 = (λ r, (wrow_clientId r, wrow_input r))
                                   <$> workflows s !! wid)); [| | |done].
      - intros t s0 _ <-. by rewrite save_workflows.
      - by intros res s0 _ <-.
      - intros t s0 _ <-. apply db_recompute_workflows_kept. }
    destruct (workflows (TaskRunner.store_after (Db.run c task s)) !! wid)
      as [r'|], (workflows s !! wid) as [r|];
      simplify_eq/=; [split; congruence | done].
Qed.

Lemma save_results_unlinked (t : Task) (s : Store) :
  result t = None → results (taskRepository_save t s) = results s.
Proof. intros Hr. unfold taskRepository_save. by rewrite Hr. Qed.

(** [X6] When the job of the task throws, whatever the task and the store:
    the promise of [run] is rejected with the error of the job; a result
    row is inserted under the key that was free, holding no data and the
    message of the error, or the error itself when it has no message; the
    result is not assigned to the task, so for a task without result the
    row is bound to no task; the dependant, if the task has one, is
    Skipped, whatever its status was; the workflow table is left as it
    was; and the row of the task is Failed, without progress note, if the
    task is not its own dependant. *)
Theorem job_failure_recorded (jobs : Jobs) (task : Task) (s : Store)
    (job : Job) (err : JS.Value) :
  JobFactory.get jobs (taskType task) = Return job →
  job (taskRepository_save (started task) s) (started task)
    (TaskRunner.getJobContext (started task)) = Throw err →
  let r := TaskRunner.run jobs task s in
  let s' := TaskRunner.store_after r in
  let rid := fresh (dom (results s)) in
  TaskRunner.outcome r = Throw err ∧
  results s !! rid = None ∧
  payload <$> results s' !! rid
    = Some (JS.Undefined, JS.or (JS.opt_get err "message") err) ∧
  result (TaskRunner.task_after r) = result task ∧
  (result task = None → (∀ d, dependant task = Some d → result d = None) →
   rrow_taskId <$> results s' !! rid = Some None) ∧
  (∀ d, dependant task = Some d →
        row_status <$> tasks s' !! taskId d = Some TaskStatus.Skipped) ∧
  workflows s' = workflows s ∧
  ((∀ d, dependant task = Some d → taskId d ≠ taskId task) →
   ∃ row, tasks s' !! taskId task = Some row ∧
          row_status row = TaskStatus.Failed ∧ row_progress row = None).
Proof.
  intros Hget Hjob r s' rid. subst r s'.
  rewrite (run_throws_store _ _ _ _ _ Hget Hjob).
  rewrite resultRepository_save_new.
  cbn [fst snd TaskRunner.task_after TaskRunner.store_after
       TaskRunner.outcome].
  rewrite save_results_dom. fold rid.
  set (s1 := taskRepository_save (started task) s).
  set (e := JS.or (JS.opt_get err "message") err).
  set (s2 := Build_Store _ _ _).
  set (s3 := taskRepository_save (failed task) s2).
  assert (results s !! rid = None) as Hfresh
    by apply not_elem_of_dom, is_fresh.
  split; [done|]. split; [done|]. split_and!.
  - destruct (dependant task) as [d|]; rewrite ?save_results_payload;
      unfold s3; rewrite save_results_payload; unfold s2; cbn [results];
      by rewrite lookup_insert_eq.
  - done.
  - intros Hres Hdres.
    assert (results s3 = results s2) as H3 by (by apply save_results_unlinked).
    destruct (dependant task) as [d|] eqn:Hd.
    + rewrite save_results_unlinked by (by apply (Hdres d)).
      rewrite H3. unfold s2. cbn [results]. by rewrite lookup_insert_eq.
    + rewrite H3. unfold s2. cbn [results]. by rewrite lookup_insert_eq.
  - intros d ->. rewrite save_status. by rewrite decide_True.
  - by destruct (dependant task).
  - intros Hdep.
    assert (columns <$> tasks s3 !! taskId task =
            Some {| row_clientId := clientId task;
                    row_status := TaskStatus.Failed;
                    row_workflowId := workflowId task; row_progress := None;
                    row_taskType := taskType task;
                    row_stepNumber := stepNumber task;
                    row_dependantId := None |}) as Hrow
      by apply (save_lookup (failed task) s2).
    destruct (dependant task) as [d|] eqn:Hd.
    + rewrite <- (save_lookup_ne (set_status TaskStatus.Skipped d) s3) in Hrow
        by (by apply not_eq_sym, (Hdep d)).
      destruct (tasks _ !! taskId task) as [row|]; [|done].
      apply (inj Some) in Hrow. exists row. split; [done|].
      change (row_status row) with (row_status (columns row)).
      change (row_progress row) with (row_progress (columns row)).
      by rewrite Hrow.
    + destruct (tasks s3 !! taskId task) as [row|]; [|done].
      apply (inj Some) in Hrow. exists row. split; [done|].
      change (row_status row) with (row_status (columns row)).
      change (row_progress row) with (row_progress (columns row)).
      by rewrite Hrow.
Qed.

Lemma job_failure_recorded_witness :
  TaskRunner.outcome
    (TaskRunner.run Sample.failing_analysis Sample.first_task Sample.created)
  = Throw (JS.Error "No country found").
Proof.
  exact (proj1 (job_failure_recorded Sample.failing_analysis Sample.first_task
                  Sample.created (DataAnalysisJob Sample.failing_analysis)
                  (JS.Error "No country found") eq_refl eq_refl)).
Defined.

(** ** The task runner: the report of a run that resolves *)

Lemma tasks_of_ext (wid : string) (s s' : Store) :
  tasks s' = tasks s → tasks_of wid s' = tasks_of wid s.
Proof. unfold tasks_of. by intros ->. Qed.

(** The line of the report for a task whose result is not loaded. *)
Lemma stringifyTask_of_row (id : string) (row : TaskRow) :
  WorkflowReportGenerator.stringifyTask (task_of_row id row)
  = "Task ID: " +:+ id +:+ ", Type: " +:+ row_taskType row +:+
    ", Status: " +:+ TaskStatus.value (row_status row) +:+
    ", Result: none, Error: none".
Proof.
  reflexivity.
Qed.

(** The aggregate does not depend on the order of the tasks. *)
Lemma aggregate_perm (ts ts' : list Task) :
  ts ≡ₚ ts' → TaskRunner.aggregate ts = TaskRunner.aggregate ts'.
Proof.
  intros Hp. unfold TaskRunner.aggregate.
  assert (∀ f : Task → bool,
            existsb f ts = existsb f ts' ∧ forallb f ts = forallb f ts') as H.
  { intros f. induction Hp as [|x l l' _ [IH1 IH2]|x y l
                               |l l' l'' _ [IH1 IH2] _ [IH3 IH4]]; simpl.
    - done.
    - by rewrite IH1, IH2.
    - split; destruct (f x), (f y); reflexivity.
    - split; congruence. }
  by rewrite (proj1 (H _)), (proj2 (H _)).
Qed.

(** [X7] When the job of a task returns and the workflow of the task is
    stored, [run] resolves and stores, for that workflow, the aggregate of
    the statuses of its task rows and a report: the identifier, that
    status, and one line per task row of the workflow with its key, type
    and status, in the order in which the database lists the tasks.  The
    tasks are read without their results, so every line of the stored
    report ends with no result and no error, whatever the jobs returned.
    When the workflow of the task is not stored, [run] resolves and the
    workflow table is left as it was. *)
Theorem resolved_run_stores_report (c : Db.Turn) (task : Task) (s : Store)
    (job : Job) (v : JS.Value) (w : Workflow) :
  Db.get c (taskType task) = Return job →
  job (taskRepository_save (started task) s) (started task)
    (TaskRunner.getJobContext (started task)) = Return v →
  workflow task = Some w →
  (∀ ts, Db.listing c ts ≡ₚ ts) →
  let r := Db.run c task s in
  let s' := TaskRunner.store_after r in
  let wid := wf_workflowId w in
  let listed := Db.listing c (tasks_of wid s') in
  let st := TaskRunner.aggregate (tasks_of wid s') in
  TaskRunner.outcome r = Return () ∧
  listed ≡ₚ tasks_of wid s' ∧
  (is_Some (workflows s !! wid) →
   wrow_status <$> workflows s' !! wid = Some st ∧
   wrow_finalResult <$> workflows s' !! wid
   = Some (Some
       ("Workflow report:" +:+ JS.newline +:+
        "Workflow ID: " +:+ wid +:+ "." +:+ JS.newline +:+
        "Status: " +:+ WorkflowStatus.value st +:+ "." +:+ JS.newline +:+
        "Tasks:" +:+ JS.newline +:+
        JS.join JS.newline
          (map (λ t, JS.tab +:+ "Task ID: " +:+ taskId t +:+
                     ", Type: " +:+ taskType t +:+
                     ", Status: " +:+ TaskStatus.value (status t) +:+
                     ", Result: none, Error: none") listed)))) ∧
  (workflows s !! wid = None → workflows s' = workflows s).
Proof.
  intros Hget Hjob Hw Hlist r s' wid listed st. subst r s' listed st.
  rewrite (db_run_returns _ _ _ _ _ Hget Hjob).
  cbn [TaskRunner.task_after TaskRunner.store_after TaskRunner.outcome].
  set (s1 := taskRepository_save (started task) s).
  set (saved := Db.resultRepository_insert _ _ s1).
  set (task2 := set_result (Some (fst saved)) _).
  set (s3 := taskRepository_save task2 (snd saved)).
  set (s4 := match dependant task with
             | Some d => taskRepository_save d s3
             | None => s3
             end).
  assert (workflows s4 = workflows s) as Hws.
  { unfold s4, s3. by destruct (dependant task). }
  pose proof (db_recompute_tasks (Db.listing c) task2 s4) as [Htasks _].
  rewrite (tasks_of_ext wid s4 _ Htasks).
  split_and!; [|apply Hlist|..]; unfold Db.recompute;
    change (workflow task2) with (workflow task); rewrite Hw; fold wid;
    unfold Db.workflowRepository_findOne; rewrite Hws;
    destruct (workflows s !! wid) as [row|] eqn:Hrow; simpl; try done;
    try (by intros [? ?]).
  - intros _.
    unfold workflowRepository_save. simpl. rewrite lookup_insert_eq. simpl.
    rewrite (aggregate_perm _ _ (Hlist (tasks_of wid s4))).
    split; [done|].
    assert (map (λ t, JS.tab +:+ WorkflowReportGenerator.stringifyTask t)
              (Db.listing c (tasks_of wid s4))
            = map (λ t, JS.tab +:+ "Task ID: " +:+ taskId t +:+
                        ", Type: " +:+ taskType t +:+
                        ", Status: " +:+ TaskStatus.value (status t) +:+
                        ", Result: none, Error: none")
                (Db.listing c (tasks_of wid s4))) as ->; [|done].
    apply Forall_fmap_ext, Forall_forall. intros t Ht.
    rewrite (Hlist _) in Ht.
    apply list_elem_of_fmap in Ht as ([id r] & -> & _). reflexivity.
Qed.

Lemma resolved_run_stores_report_witness :
  TaskRunner.outcome
    (Db.run (Db.first Sample.succeeding Sample.created) Sample.first_task
       Sample.created)
  = Return ().
Proof.
  exact (proj1 (resolved_run_stores_report
                  (Db.first Sample.succeeding Sample.created)
                  Sample.first_task
                  Sample.created (DataAnalysisJob Sample.succeeding)
                  (JS.Str "Germany") Sample.workflow0 eq_refl eq_refl
                  eq_refl (λ ts, reflexivity ts))).
Defined.

(** ** The aggregate, read off the task table *)

Lemma elem_of_tasks_of (wid : string) (s : Store) (t : Task) :
  t ∈ tasks_of wid s ↔
  ∃ id row, tasks s !! id = Some row ∧ row_workflowId row = wid ∧
            t = task_of_row id row.
Proof.
  unfold tasks_of. rewrite list_elem_of_fmap. split.
  - intros ([id row] & -> & Hin). apply list_elem_of_filter in Hin as [Hw Hin].
    apply elem_of_map_to_list in Hin. by exists id, row.
  - intros (id & row & Hrow & Hw & ->). exists (id, row). split; [done|].
    apply list_elem_of_filter. split; [done|]. by apply elem_of_map_to_list.
Qed.

(** [X8] The status that the runner computes for a workflow, in terms of
    the task rows of the workflow: Failed exactly when some row is
    Failed; Completed exactly when every row is Completed (so also when
    there is none); InProgress exactly when no row is Failed and some row
    is not Completed; never Initial.  A workflow with a Skipped row is
    never Completed. *)
Theorem aggregate_of_rows (wid : string) (s : Store) :
  let st := TaskRunner.aggregate (tasks_of wid s) in
  let member id row := tasks s !! id = Some row ∧ row_workflowId row = wid in
  (st = WorkflowStatus.Failed ↔
   ∃ id row, member id row ∧ row_status row = TaskStatus.Failed) ∧
  (st = WorkflowStatus.Completed ↔
   ∀ id row, member id row → row_status row = TaskStatus.Completed) ∧
  (st = WorkflowStatus.InProgress ↔
   (∀ id row, member id row → row_status row ≠ TaskStatus.Failed) ∧
   ∃ id row, member id row ∧ row_status row ≠ TaskStatus.Completed) ∧
  st ≠ WorkflowStatus.Initial ∧
  ((∃ id row, member id row ∧ row_status row = TaskStatus.Skipped) →
   st ≠ WorkflowStatus.Completed).
Proof.
  intros st member.
  destruct (aggregate_spec (tasks_of wid s)) as (Hf & Hc & Hp & Hi).
  fold st in Hf, Hc, Hp, Hi.
  assert (∀ P : TaskStatus.t → Prop,
            (∃ t, t ∈ tasks_of wid s ∧ P (status t)) ↔
            (∃ id row, member id row ∧ P (row_status row))) as Hex.
  { intros P. split.
    - intros (t & (id & row & Hrow & Hw & ->)%elem_of_tasks_of & HP).
      by exists id, row.
    - intros (id & row & [Hrow Hw] & HP). exists (task_of_row id row).
      split; [|done]. apply elem_of_tasks_of. by exists id, row. }
  assert (∀ P : TaskStatus.t → Prop,
            (∀ t, t ∈ tasks_of wid s → P (status t)) ↔
            (∀ id row, member id row → P (row_status row))) as Hall.
  { intros P. split.
    - intros H id row [Hrow Hw].
      apply (H (task_of_row id row)), elem_of_tasks_of. by exists id, row.
    - intros H t (id & row & Hrow & Hw & ->)%elem_of_tasks_of.
      by apply (H id row). }
  assert (st = WorkflowStatus.Completed ↔
          ∀ id row, member id row → row_status row = TaskStatus.Completed)
    as Hc'.
  { rewrite Hc. apply (Hall (λ x, x = TaskStatus.Completed)). }
  split_and!.
  - rewrite Hf. apply (Hex (λ x, x = TaskStatus.Failed)).
  - done.
  - rewrite Hp, (Hall (λ x, x ≠ TaskStatus.Failed)),
      (Hex (λ x, x ≠ TaskStatus.Completed)). done.
  - done.
  - intros (id & row & Hm & Hsk) Hcomp.
    rewrite Hc' in Hcomp. specialize (Hcomp id row Hm). congruence.
Qed.

(** ** The scheduler: what a turn does to the statuses *)

(** The statuses after the turn that runs the row [(id, row)]: the row
    run is in progress, completed or failed; its dependant, if the job
    threw, is skipped; every other row has the status it had. *)
Lemma iteration_statuses (turn : Db.Turn) (s : Store) (id : string)
    (row : TaskRow) :
  TaskWorker.first_queued s = Some (id, row) →
  row_dependantId row ≠ Some id →
  let s' := Db.iteration turn s in
  (row_status <$> tasks s' !! id = Some TaskStatus.InProgress ∨
   row_status <$> tasks s' !! id = Some TaskStatus.Completed ∨
   row_status <$> tasks s' !! id = Some TaskStatus.Failed) ∧
  ∀ k, k ≠ id →
    row_status <$> tasks s' !! k = row_status <$> tasks s !! k ∨
    (row_dependantId row = Some k ∧ is_Some (tasks s !! k) ∧
     row_status <$> tasks s' !! k = Some TaskStatus.Skipped).
Proof.
  intros Hfirst Hself s'. subst s'.
  unfold Db.iteration, TaskWorker.findOne_queued.
  rewrite Hfirst. cbn [fmap option_fmap option_map fst snd].
  set (task := TaskWorker.load s id row).
  assert (taskId task = id) as Hid by done.
  assert (dependant task
          = row_dependantId row ≫= λ did, task_of_row did <$> tasks s !! did)
    as Hdep by done.
  assert (∀ d, dependant task = Some d →
            taskId d ≠ id ∧ row_dependantId row = Some (taskId d) ∧
            ∃ rd, tasks s !! taskId d = Some rd ∧ status d = row_status rd)
    as Hd.
  { intros d. rewrite Hdep.
    destruct (row_dependantId row) as [did|] eqn:Hfk; [|done]. simpl.
    destruct (tasks s !! did) as [rd|] eqn:Hrd; [|done]. simpl.
    intros [= <-]. simpl. split; [congruence|]. split; [done|]. by exists rd. }
  set (s1 := taskRepository_save (started task) s).
  assert (∀ k, row_status <$> tasks s1 !! k
               = if decide (k = id) then Some TaskStatus.InProgress
                 else row_status <$> tasks s !! k) as H1.
  { intros k. unfold s1. by rewrite save_status. }
  destruct (db_run_cases turn task s)
    as [[err0 Hnone]|[(job & v & Hget & Hjob)|(job & err & Hget & Hjob)]].
  - rewrite (db_run_stranded _ _ _ _ Hnone). cbn [TaskRunner.store_after].
    fold s1. split.
    + left. by rewrite H1, decide_True.
    + intros k Hk. left. by rewrite H1, decide_False.
  - rewrite (db_run_returns _ _ _ _ _ Hget Hjob).
    cbn [TaskRunner.store_after]. fold s1.
    rewrite (proj1 (db_recompute_tasks _ _ _)).
    set (saved := Db.resultRepository_insert _ _ s1).
    set (task2 := set_result (Some (fst saved)) _).
    assert (∀ k, row_status <$> tasks (taskRepository_save task2 (snd saved)) !! k
                 = if decide (k = id) then Some TaskStatus.Completed
                   else row_status <$> tasks s !! k) as H3.
    { intros k. rewrite save_status. change (taskId task2) with id.
      case_decide; [done|].
      unfold saved. by rewrite db_insert_tasks, H1, decide_False. }
    destruct (dependant task) as [d|] eqn:Hdt.
    + destruct (Hd d eq_refl) as (Hne & Hfk & rd & Hrd & Hst). split.
      * right; left. rewrite save_status, decide_False by done.
        by rewrite H3, decide_True.
      * intros k Hk. left. rewrite save_status. case_decide as Hkd.
        -- subst k. by rewrite Hrd, Hst.
        -- by rewrite H3, decide_False.
    + split.
      * right; left. by rewrite H3, decide_True.
      * intros k Hk. left. by rewrite H3, decide_False.
  - rewrite (db_run_throws_store _ _ _ _ _ Hget Hjob).
    cbn [TaskRunner.store_after]. fold s1.
    set (saved := Db.resultRepository_insert _ _ s1).
    assert (∀ k, row_status
                   <$> tasks (taskRepository_save (failed task) (snd saved)) !! k
                 = if decide (k = id) then Some TaskStatus.Failed
                   else row_status <$> tasks s !! k) as H3.
    { intros k. rewrite save_status. change (taskId (failed task)) with id.
      case_decide; [done|].
      unfold saved. by rewrite db_insert_tasks, H1, decide_False. }
    destruct (dependant task) as [d|] eqn:Hdt.
    + destruct (Hd d eq_refl) as (Hne & Hfk & rd & Hrd & Hst). split.
      * right; right. rewrite save_status.
        change (taskId (set_status TaskStatus.Skipped d)) with (taskId d).
        rewrite decide_False by done. by rewrite H3, decide_True.
      * intros k Hk. rewrite save_status.
        change (taskId (set_status TaskStatus.Skipped d)) with (taskId d).
        case_decide as Hkd.
        -- subst k. right. by rewrite Hrd.
        -- left. by rewrite H3, decide_False.
    + split.
      * right; right. by rewrite H3, decide_True.
      * intros k Hk. left. by rewrite H3, decide_False.
Qed.

(** ** The scheduler: the consumer waits for its upstream tasks *)

Lemma tasks_consumers_wait (ids : list string)
    (raw : WorkflowFactory.RawDefinition) (w : Workflow) (s : Store) :
  Db.fresh_task_keys ids raw s →
  edges_ordered (tasks s) → consumers_wait (tasks s) →
  consumers_wait
    (tasks (Db.taskRepository_save_all ids (Db.newTasks raw w) s)).
Proof.
  intros Hkeys Hord Hwait.
  destruct (db_tasks_rows ids raw w s Hkeys) as (_ & _ & Hold & Hnew).
  intros uid u cid c Hu Hq Hup Hc.
  destruct (tasks s !! uid) as [u0|] eqn:Hu0.
  - pose proof (Hold uid u0 Hu0) as Hu'. rewrite Hu in Hu'.
    injection Hu' as <-.
    destruct (Hord uid u cid Hu0 Hup) as (c0 & Hc0 & _).
    pose proof (Hold cid c0 Hc0) as Hc'. rewrite Hc in Hc'.
    injection Hc' as <-. by apply (Hwait uid u cid c).
  - destruct (Hnew uid u Hu Hu0) as (_ & _ & _ & Hfk).
    destruct (Hnew cid c Hc (Hfk cid Hup)) as (_ & Hcq & _). by left.
Qed.

Lemma first_queued_no_self (s : Store) (id : string) (row : TaskRow) :
  edges_ordered (tasks s) →
  TaskWorker.first_queued s = Some (id, row) →
  row_dependantId row ≠ Some id.
Proof.
  intros Hord (Hrow & _ & _)%first_queued_least Hself.
  destruct (Hord id row id Hrow Hself) as (c & Hc & _ & Hlt).
  rewrite Hrow in Hc. injection Hc as <-. lia.
Qed.

Lemma iteration_consumers_wait (turn : Db.Turn) (s : Store) :
  edges_ordered (tasks s) → consumers_wait (tasks s) →
  consumers_wait (tasks (Db.iteration turn s)).
Proof.
  intros Hord Hwait.
  destruct (TaskWorker.first_queued s) as [[id row]|] eqn:Hfirst.
  2: { unfold Db.iteration, TaskWorker.findOne_queued.
       by rewrite Hfirst. }
  pose proof (first_queued_no_self s id row Hord Hfirst) as Hself.
  destruct (iteration_statuses turn s id row Hfirst Hself) as [Hrun Hrest].
  pose proof (db_iteration_same_edges turn s) as Hsame.
  pose proof (first_queued_least s id row Hfirst) as (Hrow & Hrq & Hleast).
  set (s' := Db.iteration turn s) in *.
  intros uid u' cid c' Hu' Hq Hup Hc'.
  (* the upstream row was queued before the turn *)
  assert (uid ≠ id) as Huid.
  { intros ->. rewrite Hu' in Hrun. simpl in Hrun.
    destruct Hrun as [?|[?|?]]; congruence. }
  pose proof (Hsame uid) as Hku. rewrite Hu' in Hku.
  destruct (tasks s !! uid) as [u|] eqn:Hu; [|done].
  apply (inj Some) in Hku. injection Hku as Hwu Hnu Hdu.
  assert (row_status u = TaskStatus.Queued) as Huq.
  { destruct (Hrest uid Huid) as [Hst|(_ & _ & Hst)];
      rewrite Hu' in Hst; simpl in Hst; [|congruence].
    rewrite Hu in Hst. simpl in Hst. congruence. }
  assert (upstream_of cid u) as Hup0 by (unfold upstream_of in *; congruence).
  destruct (Hord uid u cid Hu Hup0) as (c & Hc & Hwc & Hlt).
  destruct (decide (cid = id)) as [->|Hcid].
  - (* the row run has no queued upstream *)
    rewrite Hrow in Hc. injection Hc as <-.
    specialize (Hleast uid u Hu Huq). unfold TaskWorker.key_ltb in Hleast.
    simpl in Hleast. rewrite Hwc, string_compare_refl in Hleast.
    apply Z.ltb_ge in Hleast. lia.
  - destruct (Hrest cid Hcid) as [Hst|(_ & _ & Hst)];
      rewrite Hc' in Hst; simpl in Hst; [|right; congruence].
    rewrite Hc in Hst. simpl in Hst. injection Hst as ->.
    by apply (Hwait uid u cid c).
Qed.

(** In every reachable store, the edges are ordered and the consumers
    wait. *)
Lemma reachable_consumers_wait (s : Store) :
  reachable s → edges_ordered (tasks s) ∧ consumers_wait (tasks s).
Proof.
  induction 1 as [|wid clientId input s _ [IHo IHw] Hwid
                  |wid ids raw clientId input s _ [IHo IHw] Hval Hw Hnone Hkeys
                  |turn s _ [IHo IHw] _].
  - split; intros uid u cid; simpl; by rewrite lookup_empty.
  - done.
  - split; [by apply db_tasks_edges_ordered | by apply tasks_consumers_wait].
  - split; [|by apply iteration_consumers_wait].
    eapply edges_ordered_same_edges; [exact IHo|].
    apply db_iteration_same_edges.
Qed.

(** ** The scheduler: a status is left once *)

Lemma save_work (t : Task) (s : Store) (k : string) :
  work <$> tasks (taskRepository_save t s) !! k
  = if decide (k = taskId t) then Some (clientId t, taskType t)
    else work <$> tasks s !! k.
Proof.
  case_decide as Hk.
  - subst k. pose proof (save_lookup t s) as Hc.
    destruct (tasks (taskRepository_save t s) !! taskId t) as [r|]; [|done].
    apply (inj Some) in Hc. simpl.
    change (work r) with (work (columns r)). by rewrite Hc.
  - pose proof (save_lookup_ne t s k Hk) as Hc.
    destruct (tasks (taskRepository_save t s) !! k) as [r|],
      (tasks s !! k) as [r0|]; try done.
    apply (inj Some) in Hc. simpl.
    change (work r) with (work (columns r)).
    change (work r0) with (work (columns r0)). by rewrite Hc.
Qed.

(** No turn changes the client or the type of a task. *)
Lemma iteration_work (turn : Db.Turn) (s : Store) (k : string) :
  work <$> tasks (Db.iteration turn s) !! k = work <$> tasks s !! k.
Proof.
  unfold Db.iteration, TaskWorker.findOne_queued.
  destruct (TaskWorker.first_queued s) as [[id row]|] eqn:Hfirst; [|done].
  apply first_queued_least in Hfirst as (Hrow & _ & _).
  cbn [fmap option_fmap option_map fst snd].
  apply (db_run_keeps (λ s0, work <$> tasks s0 !! k = work <$> tasks s !! k));
    [| | |done].
  - intros t s0 Ht Hs0. rewrite save_work. case_decide as Hk; [|done].
    subst k.
    destruct Ht as [(Hid & Hc & Hty & _)|(d & Hd & Hid & Hc & Hty & _)].
    + rewrite Hid, Hc, Hty. simpl. by rewrite Hrow.
    + rewrite Hid, Hc, Hty. simpl in Hd.
      destruct (row_dependantId row) as [did|]; [|done]. simpl in Hd.
      destruct (tasks s !! did) as [rd|] eqn:Hrd; [|done].
      injection Hd as <-. simpl. by rewrite Hrd.
  - by intros res s0 _ <-.
  - intros t s0 _ <-. by rewrite (proj1 (db_recompute_tasks _ t s0)).
Qed.

Lemma elem_of_queued (s : Store) (id : string) :
  id ∈ queued s ↔
  ∃ row, tasks s !! id = Some row ∧ row_status row = TaskStatus.Queued.
Proof.
  unfold queued. rewrite elem_of_dom. split.
  - intros [row Hrow]. apply map_lookup_filter_Some in Hrow as [Hrow Hq].
    by exists row.
  - intros (row & Hrow & Hq). exists row. by apply map_lookup_filter_Some.
Qed.

Lemma first_queued_None (s : Store) :
  TaskWorker.first_queued s = None → queued s = ∅.
Proof.
  unfold TaskWorker.first_queued. intros Hnone.
  apply set_eq. intros id. rewrite elem_of_queued. split; [|set_solver].
  intros (row & Hrow & Hq).
  assert ((id, row) ∈ filter (λ kv, row_status kv.2 = TaskStatus.Queued)
                        (map_to_list (tasks s))) as Hin.
  { apply list_elem_of_filter. split; [done|]. by apply elem_of_map_to_list. }
  destruct (filter _ (map_to_list (tasks s))) as [|x l]; [by apply elem_of_nil in Hin|].
  simpl in Hnone.
  assert (∀ l b, foldl TaskWorker.pick (Some b) l ≠ None) as Hsome.
  { clear. intros l. induction l as [|y l IH]; intros b; simpl; [done|].
    destruct (TaskWorker.key_ltb y b); apply IH. }
  by apply Hsome in Hnone.
Qed.

(** One turn: every row stays, with its workflow, step number and
    dependant; its status is the one it had, unless it was queued. *)
Lemma iteration_transitions (turn : Db.Turn) (s : Store) (id : string)
    (row : TaskRow) :
  edges_ordered (tasks s) → consumers_wait (tasks s) →
  tasks s !! id = Some row →
  ∃ row', tasks (Db.iteration turn s) !! id = Some row' ∧
    edge_key row' = edge_key row ∧ work row' = work row ∧
    (row_status row' = row_status row ∨
     row_status row = TaskStatus.Queued ∧
     row_status row' ≠ TaskStatus.Queued).
Proof.
  intros Hord Hwait Hrow.
  pose proof (db_iteration_same_edges turn s id) as Hk. rewrite Hrow in Hk.
  pose proof (iteration_work turn s id) as Hwk. rewrite Hrow in Hwk.
  destruct (tasks (Db.iteration turn s) !! id) as [row'|] eqn:Hrow';
    [|done].
  apply (inj Some) in Hk. apply (inj Some) in Hwk.
  exists row'. split; [done|]. split; [done|]. split; [done|].
  destruct (TaskWorker.first_queued s) as [[rid run]|] eqn:Hfirst.
  2: { unfold Db.iteration, TaskWorker.findOne_queued in Hrow'.
       rewrite Hfirst in Hrow'. simpl in Hrow'. left. congruence. }
  pose proof (first_queued_no_self s rid run Hord Hfirst) as Hself.
  destruct (iteration_statuses turn s rid run Hfirst Hself) as [Hrun Hrest].
  pose proof (first_queued_least s rid run Hfirst) as (Hrr & Hrq & _).
  destruct (decide (id = rid)) as [->|Hne].
  - right. rewrite Hrow in Hrr. injection Hrr as ->. split; [done|].
    rewrite Hrow' in Hrun. simpl in Hrun.
    destruct Hrun as [?|[?|?]]; congruence.
  - destruct (Hrest id Hne) as [Hst|(Hfk & _ & Hst)];
      rewrite Hrow' in Hst; simpl in Hst.
    + rewrite Hrow in Hst. left. simpl in Hst. congruence.
    + injection Hst as Hst.
      destruct (Hwait rid run id row Hrr Hrq Hfk Hrow) as [Hq|Hsk].
      * right. split; [done|]. congruence.
      * left. congruence.
Qed.

(** The same over several turns, for a store whose edges are ordered and
    whose consumers wait. *)
Lemma turns_transitions (cs : list Db.Turn) (s : Store) (id : string) :
  edges_ordered (tasks s) → consumers_wait (tasks s) →
  match tasks s !! id with
  | Some row =>
      ∃ row', tasks (turns cs s) !! id = Some row' ∧
        edge_key row' = edge_key row ∧ work row' = work row ∧
        (row_status row' = row_status row ∨
         row_status row = TaskStatus.Queued ∧
         row_status row' ≠ TaskStatus.Queued)
  | None => tasks (turns cs s) !! id = None
  end.
Proof.
  revert s. induction cs as [|turn cs IH]; intros s Hord Hwait.
  - simpl. destruct (tasks s !! id) as [row|] eqn:Hrow; [|done].
    exists row. by split_and!; [| | |left].
  - simpl. fold (turns cs (Db.iteration turn s)).
    assert (edges_ordered (tasks (Db.iteration turn s))) as Hord'.
    { eapply edges_ordered_same_edges; [exact Hord|].
      apply db_iteration_same_edges. }
    specialize (IH (Db.iteration turn s) Hord'
                  (iteration_consumers_wait turn s Hord Hwait)).
    destruct (tasks s !! id) as [row|] eqn:Hrow.
    + destruct (iteration_transitions turn s id row Hord Hwait Hrow)
        as (row1 & Hrow1 & Hk1 & Hw1 & Hst1).
      rewrite Hrow1 in IH. destruct IH as (row' & Hrow' & Hk' & Hw' & Hst').
      exists row'. split; [done|]. split; [congruence|].
      split; [congruence|].
      destruct Hst1 as [Heq|[Hq Hnq]].
      * rewrite <- Heq. done.
      * right. split; [done|]. destruct Hst' as [Heq'|[Hq' _]]; congruence.
    + pose proof (db_iteration_same_edges turn s id) as Hk. rewrite Hrow in Hk.
      destruct (tasks (Db.iteration turn s) !! id); [done|]. done.
Qed.

(** [X9] From a reachable store, whatever the jobs and the database do in
    the turns that follow: a task row is never deleted and keeps its
    workflow, its step number, its dependant, its client and its type; no
    task row appears; and a row that is not queued keeps its status for
    ever, so a task is run at most once and a status is only ever left
    from Queued. *)
Theorem status_left_once (cs : list Db.Turn) (s : Store) (id : string) :
  reachable s →
  match tasks s !! id with
  | Some row =>
      ∃ row', tasks (turns cs s) !! id = Some row' ∧
        edge_key row' = edge_key row ∧ work row' = work row ∧
        (row_status row' = row_status row ∨
         row_status row = TaskStatus.Queued ∧
         row_status row' ≠ TaskStatus.Queued)
  | None => tasks (turns cs s) !! id = None
  end.
Proof.
  intros [Hord Hwait]%reachable_consumers_wait.
  by apply turns_transitions.
Qed.

Lemma status_left_once_witness :
  match tasks Sample.created !! "0" with
  | Some row =>
      ∃ row', tasks (turns [Db.first Sample.succeeding Sample.created]
                       Sample.created) !! "0"
              = Some row' ∧
        edge_key row' = edge_key row ∧ work row' = work row ∧
        (row_status row' = row_status row ∨
         row_status row = TaskStatus.Queued ∧
         row_status row' ≠ TaskStatus.Queued)
  | None => tasks (turns [Db.first Sample.succeeding Sample.created]
                     Sample.created) !! "0" = None
  end.
Proof.
  apply (status_left_once [Db.first Sample.succeeding Sample.created]
           Sample.created "0").
  apply reachable_first_create, reachable_empty.
Defined.

(** ** The scheduler: the queue drains *)

Lemma first_queued_Some (s : Store) (id : string) (row : TaskRow) :
  TaskWorker.first_queued s = Some (id, row) → id ∈ queued s.
Proof.
  intros (Hrow & Hq & _)%first_queued_least. apply elem_of_queued.
  by exists row.
Qed.

Lemma iteration_queued (turn : Db.Turn) (s : Store) (id : string)
    (row : TaskRow) :
  edges_ordered (tasks s) →
  TaskWorker.first_queued s = Some (id, row) →
  queued (Db.iteration turn s) ⊆ queued s ∖ {[id]}.
Proof.
  intros Hord Hfirst.
  pose proof (first_queued_no_self s id row Hord Hfirst) as Hself.
  destruct (iteration_statuses turn s id row Hfirst Hself) as [Hrun Hrest].
  intros k (row' & Hrow' & Hq)%elem_of_queued.
  assert (k ≠ id) as Hk.
  { intros ->. rewrite Hrow' in Hrun. simpl in Hrun.
    destruct Hrun as [?|[?|?]]; congruence. }
  apply elem_of_difference. split; [|set_solver].
  destruct (Hrest k Hk) as [Hst|(_ & _ & Hst)];
    rewrite Hrow' in Hst; simpl in Hst; [|congruence].
  destruct (tasks s !! k) as [r|] eqn:Hr; [|done].
  apply elem_of_queued. exists r. split; [done|]. simpl in Hst. congruence.
Qed.

Lemma iteration_idle (turn : Db.Turn) (s : Store) :
  queued s = ∅ → Db.iteration turn s = s.
Proof.
  intros Hempty. unfold Db.iteration, TaskWorker.findOne_queued.
  destruct (TaskWorker.first_queued s) as [[id row]|] eqn:Hfirst; [|done].
  apply first_queued_Some in Hfirst. set_solver.
Qed.

Lemma turns_queue (cs : list Db.Turn) (s : Store) :
  edges_ordered (tasks s) →
  queued (turns cs s) ⊆ queued s ∧
  ((size (queued s) ≤ length cs)%nat →
   queued (turns cs s) = ∅ ∧
   TaskWorker.findOne_queued (turns cs s) = None) ∧
  (queued s = ∅ → turns cs s = s).
Proof.
  revert s. induction cs as [|turn cs IH]; intros s Hord.
  - simpl. split; [done|]. split; [|done]. intros Hsize.
    assert (queued s = ∅) as Hempty.
    { apply leibniz_equiv, size_empty_inv. lia. }
    split; [done|].
    unfold TaskWorker.findOne_queued.
    destruct (TaskWorker.first_queued s) as [[id row]|] eqn:Hfirst; [|done].
    apply first_queued_Some in Hfirst. set_solver.
  - simpl. fold (turns cs (Db.iteration turn s)).
    assert (edges_ordered (tasks (Db.iteration turn s))) as Hord'.
    { eapply edges_ordered_same_edges; [exact Hord|].
      apply db_iteration_same_edges. }
    destruct (IH (Db.iteration turn s) Hord') as (Hsub & Hdrain & Hidle).
    destruct (TaskWorker.first_queued s) as [[id row]|] eqn:Hfirst.
    + pose proof (iteration_queued turn s id row Hord Hfirst) as Hstep.
      pose proof (first_queued_Some s id row Hfirst) as Hin.
      split; [set_solver|]. split.
      * intros Hsize. apply Hdrain.
        assert (queued (Db.iteration turn s) ⊂ queued s) as Hlt
          by set_solver.
        apply subset_size in Hlt. lia.
      * intros Hempty. set_solver.
    + pose proof (first_queued_None s Hfirst) as Hempty.
      rewrite (iteration_idle turn s Hempty) in *.
      split; [done|]. split; [|done].
      intros _. apply Hdrain. rewrite Hempty, size_empty. lia.
Qed.

(** [X10] From a reachable store, whatever the jobs and the database do:
    no turn of the scheduler queues a task; a turn that finds a queued
    task takes it off the queue, so after as many turns as there are
    queued tasks no task is queued and the query of the scheduler finds
    nothing; and when no task is queued the turns leave the store as it
    is. *)
Theorem queue_drains (cs : list Db.Turn) (s : Store) :
  reachable s →
  queued (turns cs s) ⊆ queued s ∧
  ((size (queued s) ≤ length cs)%nat →
   queued (turns cs s) = ∅ ∧
   TaskWorker.findOne_queued (turns cs s) = None) ∧
  (queued s = ∅ → turns cs s = s).
Proof.
  intros [Hord _]%reachable_consumers_wait. by apply turns_queue.
Qed.

Lemma queue_drains_witness :
  TaskWorker.findOne_queued
    (turns [Db.first Sample.succeeding Sample.created;
            Db.first Sample.failing_analysis Sample.after_success]
       Sample.created)
  = None.
Proof.
  refine (proj2 (proj1 (proj2
            (queue_drains [Db.first Sample.succeeding Sample.created;
                           Db.first Sample.failing_analysis
                             Sample.after_success]
               Sample.created _)) _)).
  - apply reachable_first_create, reachable_empty.
  - vm_compute. lia.
Defined.

(** ** The graph builder: the dependants come from [dependsOn] *)

Lemma foldl_eventually {A B : Type} (P Q : A → Prop) (f : A → B → A)
    (l : list B) (a : A) (x : B) :
  x ∈ l → P a →
  (∀ a y, P a → P (f a y)) →
  (∀ a, P a → Q (f a x)) →
  (∀ a y, Q a → Q (f a y)) →
  Q (foldl f a l).
Proof.
  intros Hin Ha HP HPQ HQ. revert a Ha.
  induction l as [|y l IH]; intros a Ha; [by apply elem_of_nil in Hin|].
  simpl. apply elem_of_cons in Hin as [->|Hin].
  - apply (foldl_invariant Q); [by apply HPQ|]. intros a' y' _. apply HQ.
  - apply IH; [done|]. by apply HP.
Qed.

Lemma find_index_first {A : Type} (p : A → bool) (l : list A) (k : nat)
    (x : A) :
  l !! k = Some x → p x = true →
  (∀ j y, l !! j = Some y → p y = true → j = k) →
  WorkflowFactory.find_index p l = Some k.
Proof.
  revert k. induction l as [|a l IH]; intros k Hk Hp Huniq; [done|].
  simpl. destruct (p a) eqn:Hpa.
  - f_equal. by apply (Huniq 0%nat a).
  - destruct k as [|k]; simplify_eq/=; [congruence|].
    rewrite (IH k); [done..|].
    intros j y Hj Hy. specialize (Huniq (S j) y Hj Hy). lia.
Qed.

Lemma filter_indices_spec {A : Type} (p : A → bool) (l : list A) (j : nat) :
  j ∈ WorkflowFactory.filter_indices p l ↔ ∃ x, l !! j = Some x ∧ p x = true.
Proof.
  split; [apply filter_indices_elem|].
  intros (x & Hx & Hp). unfold WorkflowFactory.filter_indices.
  apply list_elem_of_fmap. exists (j, x). split; [done|].
  apply list_elem_of_filter. split; [done|].
  apply list_elem_of_lookup. exists j. by rewrite list_lookup_imap, Hx.
Qed.

Section Wiring.
Import WorkflowFactory.

Lemma populateStep_wired (def : WorkflowDefinition)
    (done : list WorkflowStep) (cur : list NewTask) (x : WorkflowStep)
    (k : nat) :
  NoDup (map stepNumber (steps def)) →
  steps def !! k = Some x →
  wired def done cur → wired def (done ++ [x]) (populateStep cur x).
Proof.
  intros Hnd Hx [Hnum Hdeps].
  assert (∀ i si, steps def !! i = Some si → i ≠ k → si ≠ x) as Hother.
  { intros i si Hsi Hik ->. apply Hik.
    eapply NoDup_lookup; [exact Hnd| |];
      rewrite list_lookup_fmap; [by rewrite Hsi | by rewrite Hx]. }
  unfold populateStep. destruct (dependsOn x) as [ds|] eqn:Hds.
  2: { split; [done|]. intros i t si Ht Hsi.
       specialize (Hdeps i t si Ht Hsi).
       destruct (new_dependencies t) as [refs|]; [done|].
       destruct Hdeps as [?|Hnot]; [by left|].
       destruct (decide (i = k)) as [->|Hik].
       - left. congruence.
       - right. rewrite elem_of_app, list_elem_of_singleton.
         intros [?|?]; [done|]. by apply (Hother i si). }
  pose proof (Hnum k) as Hk. rewrite Hx in Hk. simpl in Hk.
  destruct (cur !! k) as [tk|] eqn:Htk; [|done].
  apply (inj Some) in Hk.
  rewrite (find_index_first _ cur k tk Htk).
  2: { by apply bool_decide_eq_true. }
  2: { intros j y Hy Hp. apply bool_decide_eq_true in Hp.
       pose proof (Hnum j) as Hj. rewrite Hy in Hj. simpl in Hj.
       eapply NoDup_lookup; [exact Hnd| |];
         rewrite list_lookup_fmap; [|by rewrite Hx].
       rewrite <- Hj. by rewrite Hp. }
  split.
  - intros i. rewrite list_lookup_alter. case_decide as Hik; [|done].
    subst i. rewrite <- Hnum. by destruct (cur !! k).
  - intros i t si. rewrite list_lookup_alter. case_decide as Hik.
    + subst i. rewrite Htk. simpl. intros [= <-] Hsi.
      rewrite Hx in Hsi. injection Hsi as <-. simpl.
      exists ds. split; [done|]. intros j. rewrite filter_indices_spec.
      pose proof (Hnum j) as Hj. split.
      * intros (y & Hy & Hinc). rewrite Hy in Hj. simpl in Hj.
        destruct (steps def !! j) as [sj|]; [|done]. exists sj.
        split; [done|]. simpl in Hj. congruence.
      * intros (sj & Hsj & Hinc). rewrite Hsj in Hj. simpl in Hj.
        destruct (cur !! j) as [y|]; [|done]. exists y.
        split; [done|]. simpl in Hj. congruence.
    + intros Ht Hsi. specialize (Hdeps i t si Ht Hsi).
      destruct (new_dependencies t) as [refs|]; [done|].
      destruct Hdeps as [?|Hnot]; [by left|].
      right. rewrite elem_of_app, list_elem_of_singleton.
      intros [?|?]; [done|]. by apply (Hother i si).
Qed.

Lemma populate_wired (def : WorkflowDefinition) (l done : list WorkflowStep)
    (cur : list NewTask) :
  NoDup (map stepNumber (steps def)) →
  (done ++ l)%list = steps def →
  wired def done cur → wired def (steps def) (foldl populateStep cur l).
Proof.
  intros Hnd. revert done cur.
  induction l as [|x l IH]; intros done cur Hsplit Hw; simpl.
  - by rewrite app_nil_r in Hsplit; subst.
  - apply (IH (done ++ [x])%list); [by rewrite <- app_assoc|].
    apply (populateStep_wired def done cur x (length done)); [done| |done].
    rewrite <- Hsplit. by rewrite lookup_app_r, Nat.sub_diag by lia.
Qed.

(** After [populateDependencies], the task at a position has
    [dependencies] exactly when its step has a [dependsOn], and they are
    the positions of the steps listed. *)
Lemma populateDependencies_wired (def : WorkflowDefinition) (w : Workflow) :
  NoDup (map stepNumber (steps def)) →
  wired def (steps def) (populateDependencies def (createTasks def w)).
Proof.
  intros Hnd. unfold populateDependencies.
  apply (populate_wired def (steps def) []); [done..|].
  unfold createTasks. split.
  - intros i. rewrite list_lookup_fmap. by destruct (steps def !! i).
  - intros i t si Ht Hsi. rewrite list_lookup_fmap, Hsi in Ht.
    injection Ht as <-. simpl. right. apply not_elem_of_nil.
Qed.

End Wiring.

Section Binding.
Import WorkflowFactory.

(** A row that some consumer of the batch lists among its dependencies is
    bound to a dependant. *)
Lemma bind_all_bound (ids : list string) (ts : list NewTask)
    (m : gmap string TaskRow) (i j : nat) (cid uid : string) (t : NewTask)
    (refs : list nat) :
  is_Some (m !! uid) →
  ids !! i = Some cid → ts !! i = Some t →
  new_dependencies t = Some refs → j ∈ refs → ids !! j = Some uid →
  ∃ r c,
    foldl (λ m it, match new_dependencies (snd it) with
                   | Some refs => bind_dependencies ids (fst it) refs m
                   | None => m
                   end) m (zip ids ts) !! uid = Some r ∧
    row_dependantId r = Some c.
Proof.
  intros Hm Hi Ht Hrefs Hj Hu.
  assert (∀ (a : gmap string TaskRow) c k,
            is_Some (a !! uid) →
            is_Some (alter (set_row_dependantId c) k a !! uid)) as HP.
  { intros a c k [r Hr]. rewrite lookup_alter. case_decide; [|by eexists].
    subst k. rewrite Hr. by eexists. }
  assert (∀ (a : gmap string TaskRow) c k,
            (∃ r c', a !! uid = Some r ∧ row_dependantId r = Some c') →
            ∃ r c', alter (set_row_dependantId (Some c)) k a !! uid = Some r ∧
                    row_dependantId r = Some c') as HQ.
  { intros a c k (r & c' & Hr & Hfk). rewrite lookup_alter.
    case_decide; [|by eexists _, _]. subst k. rewrite Hr. simpl.
    by eexists _, c. }
  assert (∀ (a : gmap string TaskRow) c rs,
            is_Some (a !! uid) →
            is_Some (bind_dependencies ids c rs a !! uid)) as HP'.
  { intros a c rs Ha. unfold bind_dependencies.
    apply (foldl_invariant (λ a, is_Some (a !! uid))); [done|].
    intros a' ref _ Ha'. destruct (ids !! ref); [by apply HP | done]. }
  assert (∀ (a : gmap string TaskRow) c rs,
            (∃ r c', a !! uid = Some r ∧ row_dependantId r = Some c') →
            ∃ r c', bind_dependencies ids c rs a !! uid = Some r ∧
                    row_dependantId r = Some c') as HQ'.
  { intros a c rs Ha. unfold bind_dependencies.
    apply (foldl_invariant
             (λ a, ∃ r c', a !! uid = Some r ∧ row_dependantId r = Some c'));
      [done|].
    intros a' ref _ Ha'. destruct (ids !! ref); [by apply HQ | done]. }
  apply (foldl_eventually (λ a, is_Some (a !! uid))
           (λ a, ∃ r c, a !! uid = Some r ∧ row_dependantId r = Some c)
           _ _ _ (cid, t)); [|done| | |].
  - apply list_elem_of_lookup. exists i. apply lookup_zip_with_Some.
    by exists cid, t.
  - intros a [c' t'] Ha. simpl.
    destruct (new_dependencies t'); [by apply HP' | done].
  - intros a Ha. simpl. rewrite Hrefs. unfold bind_dependencies.
    apply (foldl_eventually (λ a, is_Some (a !! uid))
             (λ a, ∃ r c, a !! uid = Some r ∧ row_dependantId r = Some c)
             _ _ _ j); [done..| | |].
    + intros a' ref Ha'. destruct (ids !! ref); [by apply HP | done].
    + intros a' [r Hr]. rewrite Hu, lookup_alter_eq, Hr. simpl.
      by eexists _, cid.
    + intros a' ref Ha'. destruct (ids !! ref); [by apply HQ | done].
  - intros a [c' t'] Ha. simpl.
    destruct (new_dependencies t'); [by apply HQ' | done].
Qed.

(** [X11] For a definition that passes validation, the dependant of the
    row created for a step is read off the [dependsOn] lists: if the row
    has a dependant, it is the row of a step whose [dependsOn] lists the
    number of the step; and if the row has none, no step lists that
    number.  So a step that exactly one step depends on is bound to that
    step; a step that several steps depend on is bound to one of them
    only. *)
Theorem dependants_from_dependsOn (raw : RawDefinition) (clientId : string)
    (input : JS.Value) (s : Store) (j : nat) (uid : string)
    (sj : WorkflowStep) (mj : Z) :
  let def := parseWorkflowDefinition raw in
  let s' := snd (createWorkflowFromYAML raw clientId input s) in
  let ids := fresh_list (length (steps def)) (dom (tasks s)) in
  validateWorkflowDefinition def = Return () →
  ids !! j = Some uid → steps def !! j = Some sj →
  stepNumber sj = Some mj →
  ∃ row, tasks s' !! uid = Some row ∧
    match row_dependantId row with
    | Some cid =>
        ∃ i si ds, ids !! i = Some cid ∧ steps def !! i = Some si ∧
                   dependsOn si = Some ds ∧ mj ∈ ds
    | None =>
        ∀ si ds, si ∈ steps def → dependsOn si = Some ds → mj ∉ ds
    end.
Proof.
  intros def s' ids Hval Hj Hsj Hmj. subst s'.
  unfold createWorkflowFromYAML. fold def. rewrite Hval.
  apply validate_Return in Hval as [Hall Hnd].
  unfold workflowRepository_insert.
  set (w := workflow_of_row _ _ None).
  set (s1 := Build_Store _ _ _).
  set (ts := populateDependencies def (createTasks def w)).
  cbn [snd].
  assert (length ts = length (steps def)) as Hlen.
  { unfold ts. rewrite populateDependencies_length. apply length_fmap. }
  assert (fresh_list (length ts) (dom (tasks s1)) = ids) as Hids
    by (by rewrite Hlen).
  destruct (populateDependencies_wired def w Hnd) as [Hnum Hdeps].
  fold ts in Hnum, Hdeps.
  assert (∀ i si, steps def !! i = Some si → is_Some (ts !! i)) as Hts.
  { intros i si Hsi. apply lookup_lt_is_Some. rewrite Hlen.
    by apply lookup_lt_Some in Hsi. }
  destruct (Hts j sj Hsj) as [tj Htj].
  pose proof (save_all_new ts s1 j uid tj) as Hnew.
  rewrite Hids in Hnew. specialize (Hnew Hj Htj).
  destruct (tasks (taskRepository_save_all ts s1) !! uid) as [row|] eqn:Hrow;
    [|done].
  exists row. split; [done|].
  unfold taskRepository_save_all in Hrow. cbn [tasks] in Hrow.
  rewrite Hids in Hrow.
  assert (∀ k id tk, ids !! k = Some id → ts !! k = Some tk →
            foldl (λ m it, <[it.1:=row_of_new it.2]> m) (tasks s1)
              (zip ids ts) !! id = Some (row_of_new tk)) as Hins.
  { intros k id tk Hk Htk. eapply insert_all_lookup; [|done..].
    apply NoDup_fresh_list. }
  destruct (row_dependantId row) as [cid|] eqn:Hfk.
  - pose proof Hrow as Hbound.
    eapply bind_all_edges in Hbound
      as (i & j' & t & refs & Hi & Ht & Hrefs & Hj' & Hju);
      [| |by apply list_elem_of_lookup; exists j|exact Hfk].
    2: { intros uid' u' [k Hk]%list_elem_of_lookup Hu'.
         destruct (ts !! k) as [tk|] eqn:Htk.
         - rewrite (Hins k uid' tk Hk Htk) in Hu'. by simplify_eq.
         - apply lookup_ge_None in Htk. apply lookup_lt_Some in Hk.
           unfold ids in Hk. rewrite length_fresh_list in Hk. lia. }
    assert (j' = j) as ->.
    { eapply NoDup_lookup; [apply (NoDup_fresh_list (length (steps def))
                                     (dom (tasks s)))|done..]. }
    assert (is_Some (steps def !! i)) as [si Hsi].
    { apply lookup_lt_is_Some. rewrite <- Hlen. by apply lookup_lt_Some in Ht. }
    specialize (Hdeps i t si Ht Hsi). rewrite Hrefs in Hdeps.
    destruct Hdeps as (ds & Hds & Hlist).
    apply Hlist in Hj' as (sj' & Hsj' & Hinc).
    rewrite Hsj in Hsj'. injection Hsj' as <-.
    rewrite Hmj in Hinc. apply bool_decide_eq_true in Hinc.
    by exists i, si, ds.
  - intros si ds [i Hsi]%list_elem_of_lookup Hds Hin.
    destruct (Hts i si Hsi) as [t Ht].
    specialize (Hdeps i t si Ht Hsi).
    destruct (new_dependencies t) as [refs|] eqn:Hrefs.
    2: { destruct Hdeps as [?|Hnot]; [congruence|].
         apply Hnot, list_elem_of_lookup. by exists i. }
    destruct Hdeps as (ds' & Hds' & Hlist).
    rewrite Hds in Hds'. injection Hds' as <-.
    assert (j ∈ refs) as Hjr.
    { apply Hlist. exists sj. split; [done|]. rewrite Hmj. simpl.
      by apply bool_decide_eq_true. }
    assert (is_Some (ids !! i)) as [cid Hi].
    { apply lookup_lt_is_Some. unfold ids. rewrite length_fresh_list.
      by apply lookup_lt_Some in Hsi. }
    destruct (bind_all_bound ids ts
                (foldl (λ m it, <[it.1:=row_of_new it.2]> m) (tasks s1)
                   (zip ids ts)) i j cid uid t refs)
      as (r & c & Hr & Hc); try done.
    { rewrite (Hins j uid tj Hj Htj). by eexists. }
    rewrite Hrow in Hr. injection Hr as <-. congruence.
Qed.

Lemma dependants_from_dependsOn_witness :
  ∃ row,
    tasks (snd (createWorkflowFromYAML Sample.two_steps "client-1"
                  Sample.geo_input empty_store)) !! "0" = Some row ∧
    match row_dependantId row with
    | Some cid =>
        ∃ i si ds,
          fresh_list
            (length (steps (parseWorkflowDefinition Sample.two_steps)))
            (dom (tasks empty_store)) !! i = Some cid ∧
          steps (parseWorkflowDefinition Sample.two_steps) !! i = Some si ∧
          dependsOn si = Some ds ∧ 1 ∈ ds
    | None =>
        ∀ si ds, si ∈ steps (parseWorkflowDefinition Sample.two_steps) →
                 dependsOn si = Some ds → 1 ∉ ds
    end.
Proof.
  apply (dependants_from_dependsOn Sample.two_steps "client-1"
           Sample.geo_input empty_store 0 "0"
           {| taskType := "analysis"; stepNumber := Some 1;
              dependsOn := None |} 1);
    [vm_compute; reflexivity | vm_compute; reflexivity | reflexivity
    | reflexivity].
Defined.

End Binding.

(** ** Validation: which error is reported *)

Section ValidationOrder.
Import WorkflowFactory.

Lemma validateSteps_app (pre post : list WorkflowStep) :
  Forall (λ step, validateStep step = Return ()) pre →
  validateSteps (pre ++ post) = validateSteps post.
Proof.
  induction 1 as [|step pre Hstep _ IH]; simpl; [done|]. by rewrite Hstep.
Qed.

(** [X12] Validation stops at the first step, in the order of the
    document, that fails a check, and reports the first check that this
    step fails, in the order: task type, step number, dependencies.  The
    steps after it are not looked at.  The message about step numbers
    that are not unique is reported only when every step passes its own
    checks. *)
Theorem validation_reports_first_failure (def : WorkflowDefinition) :
  (∀ pre step post e,
     steps def = (pre ++ step :: post)%list →
     Forall (λ step, validateStep step = Return ()) pre →
     validateStep step = Throw e →
     validateWorkflowDefinition def = Throw e) ∧
  (∀ step, taskType step = EmptyString →
     validateStep step = Throw TASK_TYPE_REQUIRED) ∧
  (∀ step, taskType step ≠ EmptyString →
     stepNumber step = None ∨ stepNumber step = Some 0 →
     validateStep step = Throw STEP_NUMBER_REQUIRED) ∧
  (validateWorkflowDefinition def = Throw STEP_NUMBERS_NOT_UNIQUE →
   Forall (λ step, validateStep step = Return ()) (steps def)).
Proof.
  split_and!.
  - intros pre step post e Hsteps Hpre Hstep.
    unfold validateWorkflowDefinition.
    rewrite Hsteps, validateSteps_app by done. simpl. by rewrite Hstep.
  - intros step Ht. unfold validateStep. by rewrite Ht.
  - intros step Ht Hn. unfold validateStep.
    apply String.eqb_neq in Ht. simpl. rewrite Ht. simpl.
    by destruct Hn as [-> | ->].
  - unfold validateWorkflowDefinition.
    destruct (validateSteps (steps def)) as [[]|e] eqn:Hs.
    + intros _. by apply validateSteps_Return.
    + intros [= ->]. apply validateSteps_Throw in Hs as (step & _ & Hthrow).
      apply validateStep_Throw in Hthrow
        as [[Heq _]|[[Heq _]|[Heq _]]]; discriminate Heq.
Qed.

End ValidationOrder.

(** ** The stored status of a workflow can be trusted *)

(** The workflow rows after the turn that runs the row [(id, row)]: all
    are kept, except that the row of the workflow of the task may have
    been recomputed; its status is then the aggregate of the task rows of
    the workflow, and it has a report. *)
Lemma iteration_workflows (turn : Db.Turn) (s : Store) (id : string)
    (row : TaskRow) (wid : string) :
  (∀ ts, Db.listing turn ts ≡ₚ ts) →
  TaskWorker.first_queued s = Some (id, row) →
  let s' := Db.iteration turn s in
  workflows s' !! wid = workflows s !! wid ∨
  (wid = row_workflowId row ∧ is_Some (workflows s !! wid) ∧
   ∃ wr, workflows s' !! wid = Some wr ∧
     wrow_status wr = TaskRunner.aggregate (tasks_of wid s') ∧
     is_Some (wrow_finalResult wr)).
Proof.
  intros Hlist Hfirst s'. subst s'.
  unfold Db.iteration, TaskWorker.findOne_queued.
  rewrite Hfirst. cbn [fmap option_fmap option_map fst snd].
  set (task := TaskWorker.load s id row).
  destruct (db_run_cases turn task s)
    as [[err0 Hnone]|[(job & v & Hget & Hjob)|(job & err & Hget & Hjob)]].
  - rewrite (db_run_stranded _ _ _ _ Hnone). by left.
  - rewrite (db_run_returns _ _ _ _ _ Hget Hjob).
    cbn [TaskRunner.store_after].
    set (s1 := taskRepository_save (started task) s).
    set (saved := Db.resultRepository_insert _ _ s1).
    set (task2 := set_result (Some (fst saved)) _).
    set (s3 := taskRepository_save task2 (snd saved)).
    set (s4 := match dependant task with
               | Some d => taskRepository_save d s3
               | None => s3
               end).
    assert (workflows s4 = workflows s) as Hws.
    { unfold s4, s3. by destruct (dependant task). }
    pose proof (db_recompute_tasks (Db.listing turn) task2 s4) as [Htasks _].
    rewrite (tasks_of_ext wid s4 _ Htasks).
    unfold Db.recompute.
    change (workflow task2)
      with ((λ w, workflow_of_row (row_workflowId row) w None)
              <$> workflows s !! row_workflowId row).
    destruct (workflows s !! row_workflowId row) as [wr|] eqn:Hwr; simpl;
      [|left; by rewrite Hws].
    unfold Db.workflowRepository_findOne. rewrite Hws, Hwr. simpl.
    unfold workflowRepository_save. simpl.
    destruct (decide (wid = row_workflowId row)) as [->|Hne].
    + right. split; [done|]. split; [by eexists|].
      rewrite lookup_insert_eq. eexists. split; [done|]. simpl.
      split; [by apply aggregate_perm | by eexists].
    + left. by rewrite lookup_insert_ne, Hws.
  - left. by rewrite (db_run_throws_workflows _ _ _ _ _ Hget Hjob).
Qed.

(** A workflow without task is not written by a turn. *)
Lemma iteration_bare_workflow (turn : Db.Turn) (s : Store) (wid : string) :
  (∀ id r, tasks s !! id = Some r → row_workflowId r ≠ wid) →
  workflows (Db.iteration turn s) !! wid = workflows s !! wid.
Proof.
  intros Hbare. unfold Db.iteration, TaskWorker.findOne_queued.
  destruct (TaskWorker.first_queued s) as [[id row]|] eqn:Hfirst; [|done].
  apply first_queued_least in Hfirst as (Hrow & _ & _).
  cbn [fmap option_fmap option_map fst snd].
  apply (db_run_keeps (λ s0, workflows s0 !! wid = workflows s !! wid));
    [| | |done].
  - by intros t s0 _ <-.
  - by intros res s0 _ <-.
  - intros t s0 Hw <-. apply db_recompute_workflows_ne. rewrite Hw.
    cbn [workflow TaskWorker.load].
    destruct (workflows s !! row_workflowId row) as [wr|]; [|done].
    intros w0 [= <-]. simpl. intros ->. by apply (Hbare id row).
Qed.

Lemma reachable_stored_status (s : Store) (wid : string) (wr : WorkflowRow) :
  reachable s → workflows s !! wid = Some wr →
  (wrow_status wr = WorkflowStatus.Completed →
   ∀ id r, tasks s !! id = Some r → row_workflowId r = wid →
           row_status r = TaskStatus.Completed) ∧
  (wrow_status wr = WorkflowStatus.Failed →
   ∃ id r, tasks s !! id = Some r ∧ row_workflowId r = wid ∧
           row_status r = TaskStatus.Failed) ∧
  (wrow_status wr = WorkflowStatus.Initial ↔ wrow_finalResult wr = None).
Proof.
  intros Hreach. revert wid wr.
  induction Hreach as [|wid0 clientId input s Hreach IH Hwid
                       |wid0 ids raw clientId input s Hreach IH Hval Hw Hnone
                          Hkeys
                       |turn s Hreach IH [_ Hlist]];
    intros wid wr Hwr.
  - simpl in Hwr. by rewrite lookup_empty in Hwr.
  - cbn [snd Db.workflowRepository_insert workflows tasks] in *.
    destruct (decide (wid = wid0)) as [->|Hne].
    + rewrite lookup_insert_eq in Hwr. injection Hwr as <-.
      split; [done|]. split; [done|]. done.
    + rewrite lookup_insert_ne in Hwr by done. by apply IH.
  - destruct (db_tasks_rows ids raw
                (workflow_of_row wid0
                   (WorkflowFactory.createWorkflow clientId input) None)
                s Hkeys) as (Hws & _ & Hold & Hnew).
    rewrite Hws in Hwr.
    destruct (IH wid wr Hwr) as (Hc & Hf & Hi).
    split; [|split; [|done]].
    + intros Hst id r Hr Hwid.
      destruct (tasks s !! id) as [r0|] eqn:Hr0.
      * pose proof (Hold id r0 Hr0) as Hr'. rewrite Hr in Hr'.
        injection Hr' as ->. by apply (Hc Hst id).
      * destruct (Hnew id r Hr Hr0) as (_ & _ & Hnw & _). simpl in Hnw.
        rewrite Hwid in Hnw. subst wid0. rewrite Hw in Hwr.
        injection Hwr as <-. done.
    + intros Hst. destruct (Hf Hst) as (id & r & Hr & Hwid & Hfail).
      exists id, r. split; [by apply Hold | done].
  - destruct (reachable_consumers_wait s Hreach) as [Hord Hwait].
    destruct (TaskWorker.first_queued s) as [[rid run]|] eqn:Hfirst.
    2: { rewrite (iteration_idle turn s (first_queued_None s Hfirst)) in *.
         by apply IH. }
    pose proof (first_queued_least s rid run Hfirst) as (Hrun & Hrq & _).
    destruct (iteration_workflows turn s rid run wid Hlist Hfirst)
      as [Hsame|(-> & _ & wr' & Hwr' & Hagg & Hrep)].
    + rewrite Hsame in Hwr. destruct (IH wid wr Hwr) as (Hc & Hf & Hi).
      split; [|split; [|done]].
      * intros Hst id r' Hr' Hw.
        pose proof (db_iteration_same_edges turn s id) as Hk. rewrite Hr' in Hk.
        destruct (tasks s !! id) as [r|] eqn:Hr; [|done].
        apply (inj Some) in Hk. injection Hk as Hkw _ _.
        assert (row_status r = TaskStatus.Completed) as Hrc
          by (apply (Hc Hst id); congruence).
        destruct (iteration_transitions turn s id r Hord Hwait Hr)
          as (r'' & Hr'' & _ & _ & Hst').
        rewrite Hr' in Hr''. injection Hr'' as <-.
        destruct Hst' as [?|[? _]]; congruence.
      * intros Hst. destruct (Hf Hst) as (id & r & Hr & Hw & Hfail).
        destruct (iteration_transitions turn s id r Hord Hwait Hr)
          as (r' & Hr' & Hk & _ & Hst').
        injection Hk as Hkw _ _.
        exists id, r'. split; [done|]. split; [congruence|].
        destruct Hst' as [?|[? _]]; congruence.
    + rewrite Hwr' in Hwr. injection Hwr as <-.
      destruct (aggregate_spec
                  (tasks_of (row_workflowId run) (Db.iteration turn s)))
        as (Hf & Hc & _ & Hi).
      rewrite <- Hagg in Hf, Hc, Hi. split_and!.
      * intros Hst id r Hr Hw.
        apply (proj1 Hc Hst (task_of_row id r)), elem_of_tasks_of.
        by exists id, r.
      * intros Hst.
        destruct (proj1 Hf Hst)
          as (t & (id & r & Hr & Hw & ->)%elem_of_tasks_of & Hfail).
        by exists id, r.
      * split; [done|]. intros Hnone. rewrite Hnone in Hrep.
        by destruct Hrep.
Qed.

(** [X13] In every reachable store, whatever keys the database generated
    and whatever the jobs did, the status stored for a workflow can be
    trusted where it is final: if it is Completed, every task row of the
    workflow is Completed; if it is Failed, some task row of the workflow
    is Failed; and the workflow has a report exactly when its status is
    not Initial.  So when the results route answers 200, the final result
    in the body is a report, never null; the route reads the workflow
    table only, so this holds in every store with the workflow table of a
    reachable store. *)
Theorem stored_status_sound (s : Store) (wid : string) :
  reachable s →
  (∀ wr, workflows s !! wid = Some wr →
     (wrow_status wr = WorkflowStatus.Completed →
      ∀ id r, tasks s !! id = Some r → row_workflowId r = wid →
              row_status r = TaskStatus.Completed) ∧
     (wrow_status wr = WorkflowStatus.Failed →
      ∃ id r, tasks s !! id = Some r ∧ row_workflowId r = wid ∧
              row_status r = TaskStatus.Failed) ∧
     (wrow_status wr = WorkflowStatus.Initial ↔ wrow_finalResult wr = None)) ∧
  (∀ s', workflows s' = workflows s →
     res_status (ResultsRoute.get_results wid s') = HttpStatus.Ok →
     ∃ report, res_json (ResultsRoute.get_results wid s') !! "finalResult"
               = Some (JS.Str report)).
Proof.
  intros Hreach. split.
  - intros wr Hwr. by apply reachable_stored_status.
  - intros s' Hs'.
    unfold ResultsRoute.get_results, workflowRepository_findOne.
    rewrite Hs'.
    destruct (workflows s !! wid) as [wr|] eqn:Hwr; simpl; [|done].
    destruct (reachable_stored_status s wid wr Hreach Hwr) as (_ & _ & Hi).
    destruct (Workflow_isCompleted _) eqn:Hc; simpl; [|done].
    apply Workflow_isCompleted_spec in Hc. simpl in Hc. intros _.
    destruct (wrow_finalResult wr) as [report|] eqn:Hrep.
    + exists report. unfold ResultsRoute.workflow_columns. simpl.
      rewrite Hrep. done.
    + pose proof (proj2 Hi eq_refl) as Hinit. destruct Hc; congruence.
Qed.

Lemma stored_status_sound_witness :
  ∃ report,
    res_json (ResultsRoute.get_results "0"
                (TaskWorker.iteration Sample.succeeding Sample.after_success))
      !! "finalResult" = Some (JS.Str report).
Proof.
  refine (proj2 (stored_status_sound
                   (TaskWorker.iteration Sample.succeeding
                      Sample.after_success) "0" _) _ eq_refl _).
  - apply reachable_first_iteration, reachable_first_iteration,
      reachable_first_create, reachable_empty.
  - vm_compute. reflexivity.
Defined.

(** ** The geometry jobs *)

Section GeometryJobs.
Import Geo.

Lemma scan_Return (within : Feature → Except JS.Value bool)
    (fs : list Feature) (v : JS.Value) :
  scan within fs = Return v ↔
  ∃ i f, fs !! i = Some f ∧ polygonal f = true ∧
         within f = Return true ∧ v = properties_name f ∧
         ∀ j g, (j < i)%nat → fs !! j = Some g → polygonal g = true →
                within g = Return false.
Proof.
  induction fs as [|f fs IH]; simpl.
  { split; [done | by intros (i & f & ? & _)]. }
  destruct (polygonal f) eqn:Hp.
  - destruct (within f) as [[]|e] eqn:Hw.
    + split.
      * intros [= <-]. exists 0%nat, f. split_and!; try done. intros; lia.
      * intros ([|i] & f' & Hf' & Hp' & Hw' & -> & Hbefore).
        -- by simplify_eq/=.
        -- specialize (Hbefore 0%nat f ltac:(lia) eq_refl Hp). congruence.
    + rewrite IH. split.
      * intros (i & f' & Hf' & Hp' & Hw' & -> & Hbefore).
        exists (S i), f'. split_and!; try done.
        intros [|j] g Hj Hg Hpg; simplify_eq/=; [done|].
        apply (Hbefore j g); [lia | done..].
      * intros ([|i] & f' & Hf' & Hp' & Hw' & -> & Hbefore).
        -- simplify_eq/=. congruence.
        -- exists i, f'. split_and!; try done.
           intros j g Hj Hg Hpg. apply (Hbefore (S j) g); [lia | done..].
    + split; [done|].
      intros ([|i] & f' & Hf' & Hp' & Hw' & -> & Hbefore).
      * simplify_eq/=. congruence.
      * specialize (Hbefore 0%nat f ltac:(lia) eq_refl Hp). congruence.
  - rewrite IH. split.
    + intros (i & f' & Hf' & Hp' & Hw' & -> & Hbefore).
      exists (S i), f'. split_and!; try done.
      intros [|j] g Hj Hg Hpg; simplify_eq/=; [congruence|].
      apply (Hbefore j g); [lia | done..].
    + intros ([|i] & f' & Hf' & Hp' & Hw' & -> & Hbefore).
      * simplify_eq/=. congruence.
      * exists i, f'. split_and!; try done.
        intros j g Hj Hg Hpg. apply (Hbefore (S j) g); [lia | done..].
Qed.

Lemma scan_none (within : Feature → Except JS.Value bool)
    (fs : list Feature) :
  (∀ f, f ∈ fs → polygonal f = true → within f = Return false) →
  scan within fs = Throw (JS.Error NO_COUNTRY).
Proof.
  intros Hall. induction fs as [|f fs IH]; simpl; [done|].
  destruct (polygonal f) eqn:Hp.
  - rewrite (Hall f) by (done || by left). apply IH.
    intros f' Hf'. apply Hall. by right.
  - apply IH. intros f' Hf'. apply Hall. by right.
Qed.

(** [X14] The analysis job.  Without input geometry (the input of the
    workflow is empty, or has no truthy [geoJson]) it throws the message
    about the missing geometry, whatever the library and the country
    mapping are.  With one, it returns [v] exactly when [v] is the name
    of the first feature of the mapping, in the order of the file, that
    is a polygon or a multi-polygon and contains the geometry, the
    library having answered no for every polygonal feature before it;
    features of another type are never handed to the library.  If the
    library answers no for every polygonal feature, it throws the message
    that no country was found. *)
Theorem analysis_returns_first_match (lib : Library) (s : Store) (task : Task)
    (context : JobContext) (g : JS.Value) :
  inputGeometry lib context = Return g →
  (JS.truthy g = false →
   DataAnalysisJob_run lib s task context = Throw (JS.Error NO_GEOMETRY)) ∧
  (JS.truthy g = true →
   (∀ v, DataAnalysisJob_run lib s task context = Return v ↔
      ∃ i f, features lib !! i = Some f ∧ polygonal f = true ∧
             booleanWithin lib g f = Return true ∧ v = properties_name f ∧
             ∀ j f', (j < i)%nat → features lib !! j = Some f' →
                     polygonal f' = true →
                     booleanWithin lib g f' = Return false) ∧
   ((∀ f, f ∈ features lib → polygonal f = true →
          booleanWithin lib g f = Return false) →
    DataAnalysisJob_run lib s task context = Throw (JS.Error NO_COUNTRY))).
Proof.
  intros Hg. unfold DataAnalysisJob_run. rewrite Hg. split.
  - by intros ->.
  - intros ->. simpl. split; [intros v; apply scan_Return | apply scan_none].
Qed.

Lemma analysis_returns_first_match_witness :
  DataAnalysisJob_run Atlas.lib Sample.created Sample.first_task
    (TaskRunner.getJobContext Sample.first_task)
  = Return (JS.Str "Germany").
Proof.
  apply (proj1 (proj2 (analysis_returns_first_match Atlas.lib Sample.created
                         Sample.first_task
                         (TaskRunner.getJobContext Sample.first_task)
                         (JS.Object [("type", JS.Str "Feature")])
                         eq_refl) eq_refl)).
  exists 2%nat, (Atlas.shape "MultiPolygon" "Germany").
  split_and!; try reflexivity.
  intros [|[|j]] f' Hj Hf' Hp; simplify_eq/=; [done..|lia].
Defined.

(** The payload of the result row that a failed run inserts. *)
Lemma run_throws_payload (jobs : Jobs) (task : Task) (s : Store) (job : Job)
    (err : JS.Value) :
  JobFactory.get jobs (taskType task) = Return job →
  job (taskRepository_save (started task) s) (started task)
    (TaskRunner.getJobContext (started task)) = Throw err →
  payload <$> results (TaskRunner.store_after (TaskRunner.run jobs task s))
                !! fresh (dom (results s))
  = Some (JS.Undefined, JS.or (JS.opt_get err "message") err).
Proof.
  intros Hget Hjob.
  rewrite (run_throws_store _ _ _ _ _ Hget Hjob).
  rewrite resultRepository_save_new.
  cbn [fst snd TaskRunner.store_after]. rewrite save_results_dom.
  destruct (dependant task) as [d|]; rewrite !save_results_payload;
    cbn [results]; by rewrite lookup_insert_eq.
Qed.

(** [X15] What the geometry jobs refuse, through the runner.  A task of
    type analysis or polygonArea whose workflow input has no truthy
    [geoJson] fails with the message about the missing geometry, without
    any call of the geometry library; a polygonArea task whose geometry
    the library finds invalid fails with the message about the invalid
    geometry, and the area is not computed; an analysis task whose
    geometry lies in no polygonal feature fails with the message that no
    country was found.  In each case the promise of [run] is rejected
    with that error, the task object is Failed, the new result row holds
    the message as its error and no data, and the workflow table is left
    as it was. *)
Theorem geometry_failures_recorded (lib : Library) (email report : Job)
    (task : Task) (s : Store) (g : JS.Value) :
  let jobs := {| DataAnalysisJob := DataAnalysisJob_run lib;
                 EmailNotificationJob := email;
                 PolygonAreaJob := PolygonAreaJob_run lib;
                 ReportGenerationJob := report |} in
  let r := TaskRunner.run jobs task s in
  let recorded message :=
    TaskRunner.outcome r = Throw (JS.Error message) ∧
    status (TaskRunner.task_after r) = TaskStatus.Failed ∧
    payload <$> results (TaskRunner.store_after r) !! fresh (dom (results s))
      = Some (JS.Undefined, JS.Str message) ∧
    workflows (TaskRunner.store_after r) = workflows s in
  inputGeometry lib (TaskRunner.getJobContext task) = Return g →
  (JS.truthy g = false →
   taskType task = "analysis" ∨ taskType task = "polygonArea" →
   recorded NO_GEOMETRY) ∧
  (JS.truthy g = true → taskType task = "polygonArea" →
   booleanValid lib g = Return false → recorded INVALID_GEOMETRY) ∧
  (JS.truthy g = true → taskType task = "analysis" →
   (∀ f, f ∈ features lib → polygonal f = true →
         booleanWithin lib g f = Return false) →
   recorded NO_COUNTRY).
Proof.
  intros jobs r recorded Hg.
  assert (∀ job message,
            JobFactory.get jobs (taskType task) = Return job →
            job (taskRepository_save (started task) s) (started task)
              (TaskRunner.getJobContext (started task))
            = Throw (JS.Error message) →
            message ≠ EmptyString → recorded message) as Hrec.
  { intros job message Hget Hjob Hmsg. unfold recorded, r.
    destruct (run_throws jobs task s job _ Hget Hjob)
      as (Ho & Hst & _ & _ & _ & Hws).
    split; [done|]. split; [done|]. split; [|done].
    rewrite (run_throws_payload jobs task s job _ Hget Hjob).
    do 2 f_equal. unfold JS.or. simpl.
    destruct message; [done|]. done. }
  rewrite <- getJobContext_started in Hg.
  split_and!.
  - intros Hfalsy [Hty|Hty].
    + apply (Hrec (DataAnalysisJob_run lib)); [by rewrite Hty| |done].
      unfold DataAnalysisJob_run. by rewrite Hg, Hfalsy.
    + apply (Hrec (PolygonAreaJob_run lib)); [by rewrite Hty| |done].
      unfold PolygonAreaJob_run. by rewrite Hg, Hfalsy.
  - intros Htruthy Hty Hinvalid.
    apply (Hrec (PolygonAreaJob_run lib)); [by rewrite Hty| |done].
    unfold PolygonAreaJob_run. by rewrite Hg, Htruthy, Hinvalid.
  - intros Htruthy Hty Hnone.
    apply (Hrec (DataAnalysisJob_run lib)); [by rewrite Hty| |done].
    unfold DataAnalysisJob_run. rewrite Hg, Htruthy. simpl.
    by apply scan_none.
Qed.

Lemma geometry_failures_recorded_witness :
  TaskRunner.outcome
    (TaskRunner.run
       {| DataAnalysisJob := DataAnalysisJob_run Atlas.lib;
          EmailNotificationJob := EmailNotificationJob Sample.succeeding;
          PolygonAreaJob := PolygonAreaJob_run Atlas.lib;
          ReportGenerationJob := ReportGenerationJob Sample.succeeding |}
       Atlas.blank empty_store)
  = Throw (JS.Error NO_GEOMETRY).
Proof.
  apply (proj1 (geometry_failures_recorded Atlas.lib
                  (EmailNotificationJob Sample.succeeding)
                  (ReportGenerationJob Sample.succeeding)
                  Atlas.blank empty_store JS.Undefined eq_refl));
    [reflexivity | by right].
Defined.

End GeometryJobs.

(** ** The notification job and the report job *)

(** The payload of the result row that a run inserts when the job
    returns. *)
Lemma run_returns_payload (jobs : Jobs) (task : Task) (s : Store) (job : Job)
    (v : JS.Value) :
  JobFactory.get jobs (taskType task) = Return job →
  job (taskRepository_save (started task) s) (started task)
    (TaskRunner.getJobContext (started task)) = Return v →
  let r := TaskRunner.run jobs task s in
  status (TaskRunner.task_after r) = TaskStatus.Completed ∧
  payload <$> results (TaskRunner.store_after r) !! fresh (dom (results s))
  = Some (JS.JSON_stringify (JS.or v (JS.Object [])), JS.Undefined).
Proof.
  intros Hget Hjob r. subst r.
  rewrite (run_returns _ _ _ _ _ Hget Hjob).
  rewrite resultRepository_save_new.
  cbn [fst snd TaskRunner.store_after TaskRunner.task_after].
  split; [done|].
  rewrite (proj2 (recompute_tasks _ _)), save_results_dom.
  destruct (dependant task) as [d|]; rewrite !save_results_payload;
    cbn [results]; by rewrite lookup_insert_eq.
Qed.

Lemma run_throws_dependant (jobs : Jobs) (task : Task) (s : Store) (job : Job)
    (err : JS.Value) (d : Task) :
  JobFactory.get jobs (taskType task) = Return job →
  job (taskRepository_save (started task) s) (started task)
    (TaskRunner.getJobContext (started task)) = Throw err →
  dependant task = Some d →
  row_status <$> tasks (TaskRunner.store_after (TaskRunner.run jobs task s))
                   !! taskId d
  = Some TaskStatus.Skipped.
Proof.
  intros Hget Hjob Hd.
  rewrite (run_throws_store _ _ _ _ _ Hget Hjob).
  cbn [TaskRunner.store_after]. rewrite Hd, save_status.
  by rewrite decide_True.
Qed.

(** [X16] A notification task, through the runner.  When the number
    drawn is below 0.2 the job rejects: the promise of [run] is rejected
    with the error of the failed mail, the task is Failed, the new result
    row holds that message as its error, and the dependant of the task,
    if it has one, is Skipped.  Otherwise the job resolves with nothing:
    the task is Completed and the new result row holds the payload of the
    empty object. *)
Theorem notification_outcome (random : QArith_base.Q)
    (analysis polygon report : Job) (task : Task) (s : Store) :
  let jobs := {| DataAnalysisJob := analysis;
                 EmailNotificationJob := EmailNotificationJob_run random;
                 PolygonAreaJob := polygon;
                 ReportGenerationJob := report |} in
  let r := TaskRunner.run jobs task s in
  let s' := TaskRunner.store_after r in
  taskType task = "notification" →
  (QArith_base.Qlt random (QArith_base.Qmake 2 10) →
   TaskRunner.outcome r = Throw (JS.Error "Failed to send email") ∧
   status (TaskRunner.task_after r) = TaskStatus.Failed ∧
   payload <$> results s' !! fresh (dom (results s))
     = Some (JS.Undefined, JS.Str "Failed to send email") ∧
   ∀ d, dependant task = Some d →
        row_status <$> tasks s' !! taskId d = Some TaskStatus.Skipped) ∧
  (QArith_base.Qle (QArith_base.Qmake 2 10) random →
   status (TaskRunner.task_after r) = TaskStatus.Completed ∧
   payload <$> results s' !! fresh (dom (results s))
     = Some (JS.Str "{}", JS.Undefined)).
Proof.
  intros jobs r s' Hty.
  assert (JobFactory.get jobs (taskType task)
          = Return (EmailNotificationJob_run random)) as Hget
    by (by rewrite Hty).
  unfold s', r. split.
  - intros Hlow.
    assert (EmailNotificationJob_run random
              (taskRepository_save (started task) s) (started task)
              (TaskRunner.getJobContext (started task))
            = Throw (JS.Error "Failed to send email")) as Hjob.
    { unfold EmailNotificationJob_run.
      destruct (QArith_base.Qlt_le_dec random _) as [_|Hle]; [done|].
      by apply QArith_base.Qle_not_lt in Hle. }
    destruct (run_throws jobs task s _ _ Hget Hjob)
      as (Ho & Hst & _ & _ & _ & _).
    split; [done|]. split; [done|]. split.
    + by rewrite (run_throws_payload jobs task s _ _ Hget Hjob).
    + intros d Hd. by apply (run_throws_dependant jobs task s _ _ d Hget Hjob).
  - intros Hhigh.
    assert (EmailNotificationJob_run random
              (taskRepository_save (started task) s) (started task)
              (TaskRunner.getJobContext (started task))
            = Return JS.Undefined) as Hjob.
    { unfold EmailNotificationJob_run.
      destruct (QArith_base.Qlt_le_dec random _) as [Hlt|_]; [|done].
      by apply QArith_base.Qle_not_lt in Hhigh. }
    apply (run_returns_payload jobs task s _ _ Hget Hjob).
Qed.

Lemma notification_outcome_witness :
  status (TaskRunner.task_after
            (TaskRunner.run
               {| DataAnalysisJob := DataAnalysisJob Sample.succeeding;
                  EmailNotificationJob :=
                    EmailNotificationJob_run (QArith_base.Qmake 1 2);
                  PolygonAreaJob := PolygonAreaJob Sample.succeeding;
                  ReportGenerationJob := ReportGenerationJob Sample.succeeding |}
               (Sample.second_task (JS.Str "Germany")) Sample.after_success))
  = TaskStatus.Completed.
Proof.
  refine (proj1 (proj2 (notification_outcome (QArith_base.Qmake 1 2)
                          (DataAnalysisJob Sample.succeeding)
                          (PolygonAreaJob Sample.succeeding)
                          (ReportGenerationJob Sample.succeeding)
                          (Sample.second_task (JS.Str "Germany"))
                          Sample.after_success eq_refl) _)).
  discriminate.
Defined.

Lemma result_of_None (id : string) (s : Store) :
  (∀ rid rr, results s !! rid = Some rr → rrow_taskId rr ≠ Some id) →
  Report.result_of id s = None.
Proof.
  intros Hnone. unfold Report.result_of.
  destruct (filter _ (map_to_list (results s))) as [|[rid rr] l] eqn:Hf;
    [done|].
  assert ((rid, rr) ∈ filter (λ kv, rrow_taskId kv.2 = Some id)
                        (map_to_list (results s))) as Hin
    by (rewrite Hf; by left).
  apply list_elem_of_filter in Hin as [Hid Hin].
  apply elem_of_map_to_list in Hin. by destruct (Hnone rid rr Hin).
Qed.

(** [X17] The report job, run by the runner for a task of type
    reportGeneration that has no result yet and whose workflow is stored.
    The job returns, so the task completes.  What it returns holds the
    identifier of the workflow, one element per task of the workflow and
    the report of the workflow as it is stored while the job runs: the
    status in the report is the status stored before this run, and the
    report task itself is among the tasks, in progress and without
    result, both in the array and in the text of the report. *)
Theorem report_lists_itself_in_progress (analysis email polygon : Job)
    (task : Task) (s : Store) (w : Workflow) (wr : WorkflowRow) :
  let jobs := {| DataAnalysisJob := analysis;
                 EmailNotificationJob := email;
                 PolygonAreaJob := polygon;
                 ReportGenerationJob := Report.ReportGenerationJob_run |} in
  let s1 := taskRepository_save (started task) s in
  let wid := wf_workflowId w in
  taskType task = "reportGeneration" →
  workflow task = Some w → workflowId task = wid →
  workflows s !! wid = Some wr →
  result task = None →
  (∀ rid rr, results s !! rid = Some rr → rrow_taskId rr ≠ Some (taskId task)) →
  ∃ ts own,
    Report.ReportGenerationJob_run s1 (started task)
      (TaskRunner.getJobContext (started task))
    = Return (JS.Object
        [ ("workflowId", JS.Str wid);
          ("tasks", JS.Array (map Report.entry ts));
          ("finalReport",
           JS.Str ("Workflow report:" +:+ JS.newline +:+
                   "Workflow ID: " +:+ wid +:+ "." +:+ JS.newline +:+
                   "Status: " +:+ WorkflowStatus.value (wrow_status wr) +:+
                   "." +:+ JS.newline +:+ "Tasks:" +:+ JS.newline +:+
                   JS.join JS.newline
                     (map (λ t, JS.tab +:+
                                WorkflowReportGenerator.stringifyTask t) ts))) ]) ∧
    length ts = length (tasks_of wid s1) ∧
    own ∈ ts ∧
    Report.entry own
    = JS.Object [ ("taskId", JS.Str (taskId task));
                  ("type", JS.Str "reportGeneration");
                  ("status", JS.Str "in_progress");
                  ("result", JS.Undefined); ("error", JS.Undefined) ] ∧
    WorkflowReportGenerator.stringifyTask own
    = "Task ID: " +:+ taskId task +:+
      ", Type: reportGeneration, Status: in_progress, Result: none, Error: none" ∧
    status (TaskRunner.task_after (TaskRunner.run jobs task s))
    = TaskStatus.Completed.
Proof.
  intros jobs s1 wid Hty Hw Hwid Hwr Hres Hnone.
  exists (Report.tasks_with_results wid s1).
  assert (columns <$> tasks s1 !! taskId task =
          Some {| row_clientId := clientId task;
                  row_status := TaskStatus.InProgress;
                  row_workflowId := wid;
                  row_progress := Some "starting job...";
                  row_taskType := "reportGeneration";
                  row_stepNumber := stepNumber task;
                  row_dependantId := None |}) as Hrow.
  { unfold s1. etrans; [exact (save_lookup (started task) s)|]. simpl.
    by rewrite Hty, Hwid. }
  destruct (tasks s1 !! taskId task) as [row|] eqn:Hrow1; [|done].
  apply (inj Some) in Hrow.
  assert (results s1 = results s) as Hrs
    by (by apply save_results_unlinked).
  assert (Report.result_of (taskId task) s1 = None) as Hown.
  { apply result_of_None. by rewrite Hrs. }
  exists (set_result None (task_of_row (taskId task) row)).
  assert (Report.ReportGenerationJob_run s1 (started task)
            (TaskRunner.getJobContext (started task))
          = Return (JS.Object
              [ ("workflowId", JS.Str wid);
                ("tasks",
                 JS.Array (map Report.entry
                             (Report.tasks_with_results wid s1)));
                ("finalReport",
                 JS.Str ("Workflow report:" +:+ JS.newline +:+
                         "Workflow ID: " +:+ wid +:+ "." +:+ JS.newline +:+
                         "Status: " +:+
                         WorkflowStatus.value (wrow_status wr) +:+
                         "." +:+ JS.newline +:+ "Tasks:" +:+ JS.newline +:+
                         JS.join JS.newline
                           (map (λ t, JS.tab +:+
                                      WorkflowReportGenerator.stringifyTask t)
                              (Report.tasks_with_results wid s1)))) ]))
    as Hjob.
  { unfold Report.ReportGenerationJob_run.
    change (workflow (started task)) with (workflow task). rewrite Hw.
    fold wid. unfold s1. rewrite save_workflows, Hwr. done. }
  split; [exact Hjob|]. split_and!.
  - unfold Report.tasks_with_results, tasks_of. by rewrite !length_map.
  - unfold Report.tasks_with_results. apply list_elem_of_fmap.
    exists (taskId task, row). split; [cbn [fst snd]; by rewrite Hown|].
    apply list_elem_of_filter. split.
    + simpl. change (row_workflowId row) with (row_workflowId (columns row)).
      by rewrite Hrow.
    + by apply elem_of_map_to_list.
  - unfold Report.entry. simpl.
    change (row_taskType row) with (row_taskType (columns row)).
    change (row_status row) with (row_status (columns row)).
    by rewrite Hrow.
  - change (set_result None (task_of_row (taskId task) row))
      with (task_of_row (taskId task) row).
    rewrite stringifyTask_of_row.
    change (row_taskType row) with (row_taskType (columns row)).
    change (row_status row) with (row_status (columns row)).
    by rewrite Hrow.
  - assert (JobFactory.get jobs (taskType task)
            = Return Report.ReportGenerationJob_run) as Hget
      by (by rewrite Hty).
    apply (run_returns_payload jobs task s _ _ Hget Hjob).
Qed.

Lemma report_lists_itself_in_progress_witness :
  TaskWorker.findOne_queued Report.created = Some Report.task ∧
  status (TaskRunner.task_after
            (TaskRunner.run
               {| DataAnalysisJob := DataAnalysisJob Sample.succeeding;
                  EmailNotificationJob := EmailNotificationJob Sample.succeeding;
                  PolygonAreaJob := PolygonAreaJob Sample.succeeding;
                  ReportGenerationJob := Report.ReportGenerationJob_run |}
               Report.task Report.created))
  = TaskStatus.Completed.
Proof.
  split; [vm_compute; reflexivity|].
  destruct (report_lists_itself_in_progress
              (DataAnalysisJob Sample.succeeding)
              (EmailNotificationJob Sample.succeeding)
              (PolygonAreaJob Sample.succeeding)
              Report.task Report.created Sample.workflow0
              (WorkflowFactory.createWorkflow "client-1" Sample.geo_input))
    as (ts & own & _ & _ & _ & _ & _ & Hdone);
    [reflexivity | reflexivity | reflexivity | vm_compute; reflexivity
    | reflexivity | intros rid rr Hrr; vm_compute in Hrr; discriminate Hrr |].
  exact Hdone.
Defined.

(** ** Recomputing the workflow *)


(** ** The graph has no cycle *)

Lemma edges_ordered_tc (m : gmap string TaskRow) (u c : string) :
  edges_ordered m → tc (edge m) u c →
  ∃ ru rc, m !! u = Some ru ∧ m !! c = Some rc ∧
           row_workflowId ru = row_workflowId rc ∧
           row_stepNumber ru < row_stepNumber rc.
Proof.
  intros Hord. induction 1 as [u c (ru & Hu & Hup)|u v c (ru & Hu & Hup) _ IH].
  - destruct (Hord u ru c Hu Hup) as (rc & Hc & Hw & Hlt). by exists ru, rc.
  - destruct (Hord u ru v Hu Hup) as (rv & Hv & Hw & Hlt).
    destruct IH as (rv' & rc & Hv' & Hc & Hw' & Hlt').
    rewrite Hv in Hv'. injection Hv' as <-.
    exists ru, rc. split_and!; [done..|congruence|lia].
Qed.

(** [X19] In every reachable store, whatever keys the database
    generated, the dependant edges form a graph without cycle: following the dependants from a task leads only to
    tasks of the same workflow with greater step numbers, so never back
    to the task, and every task that is the dependant of a stored task is
    stored too. *)
Theorem dependants_acyclic (s : Store) (u c : string) :
  reachable s →
  (tc (edge (tasks s)) u c →
   ∃ ru rc, tasks s !! u = Some ru ∧ tasks s !! c = Some rc ∧
            row_workflowId ru = row_workflowId rc ∧
            row_stepNumber ru < row_stepNumber rc) ∧
  ¬ tc (edge (tasks s)) u u.
Proof.
  intros Hord%reachable_edges_ordered. split.
  - by apply edges_ordered_tc.
  - intros (ru & ru' & Hu & Hu' & _ & Hlt)%edges_ordered_tc; [|done].
    rewrite Hu in Hu'. injection Hu' as <-. lia.
Qed.

Lemma dependants_acyclic_witness :
  ∃ ru rc, tasks Sample.created !! "0" = Some ru ∧
           tasks Sample.created !! "1" = Some rc ∧
           row_workflowId ru = row_workflowId rc ∧
           row_stepNumber ru < row_stepNumber rc.
Proof.
  apply (dependants_acyclic Sample.created "0" "1").
  - apply reachable_first_create, reachable_empty.
  - apply tc_once. eexists. split; [vm_compute; reflexivity | reflexivity].
Defined.

(** ** What the scheduler hands to the jobs *)

Lemma jobMap_lookup (jobs : Jobs) (taskType : string) :
  JobFactory.jobMap jobs !! taskType =
  if decide (taskType = "analysis") then Some (DataAnalysisJob jobs)
  else if decide (taskType = "notification")
       then Some (EmailNotificationJob jobs)
  else if decide (taskType = "polygonArea") then Some (PolygonAreaJob jobs)
  else if decide (taskType = "reportGeneration")
       then Some (ReportGenerationJob jobs)
  else None.
Proof.
  unfold JobFactory.jobMap. simpl.
  repeat case_decide; subst; simplify_map_eq; done.
Qed.

(** [X20] The scheduler loads the task it runs with its workflow and its
    dependant only, so the context that the runner hands to the job holds
    no output of an upstream task, whatever the upstream tasks produced.
    Hence what the jobs would do with upstream outputs has no effect on
    the system: two sets of jobs that agree on the contexts without
    outputs take every turn of the scheduler to the same store. *)
Theorem scheduler_passes_no_outputs (jobs jobs' : Jobs) (s : Store) :
  let agree (job job' : Job) :=
    ∀ s0 t w, job s0 t {| ctx_workflow := w; dependenciesOutputs := [] |}
              = job' s0 t {| ctx_workflow := w; dependenciesOutputs := [] |} in
  (∀ task, TaskWorker.findOne_queued s = Some task →
     TaskRunner.getJobContext (started task)
     = {| ctx_workflow := workflow task; dependenciesOutputs := [] |}) ∧
  (agree (DataAnalysisJob jobs) (DataAnalysisJob jobs') →
   agree (EmailNotificationJob jobs) (EmailNotificationJob jobs') →
   agree (PolygonAreaJob jobs) (PolygonAreaJob jobs') →
   agree (ReportGenerationJob jobs) (ReportGenerationJob jobs') →
   TaskWorker.iteration jobs s = TaskWorker.iteration jobs' s).
Proof.
  intros agree.
  assert (∀ task, TaskWorker.findOne_queued s = Some task →
            TaskRunner.getJobContext (started task)
            = {| ctx_workflow := workflow task; dependenciesOutputs := [] |})
    as Hctx.
  { intros task. unfold TaskWorker.findOne_queued.
    destruct (TaskWorker.first_queued s) as [[id row]|]; [|done].
    by intros [= <-]. }
  split; [done|].
  intros Ha He Hp Hr. unfold TaskWorker.iteration.
  destruct (TaskWorker.findOne_queued s) as [task|] eqn:Hfind; [|done].
  f_equal. unfold TaskRunner.run. fold (started task).
  unfold JobFactory.get. rewrite !jobMap_lookup.
  unfold TaskRunner.try_job. rewrite (Hctx task eq_refl).
  repeat case_decide; try done.
  - by rewrite Ha.
  - by rewrite He.
  - by rewrite Hp.
  - by rewrite Hr.
Qed.

(** ** A task in progress between two turns is stranded *)

Lemma jobMap_None (jobs : Jobs) (taskType : string) :
  JobFactory.jobMap jobs !! taskType = None ↔ taskType ∉ registered.
Proof.
  rewrite jobMap_lookup. unfold registered.
  rewrite !not_elem_of_cons.
  repeat case_decide; subst; split; try done; try naive_solver.
  intros _. split_and!; try done. apply not_elem_of_nil.
Qed.

(** The row that a turn has run is left in progress only when its type
    has no job. *)
Lemma iteration_in_progress (turn : Db.Turn) (s : Store) (id : string)
    (row : TaskRow) :
  TaskWorker.first_queued s = Some (id, row) →
  row_dependantId row ≠ Some id →
  row_status <$> tasks (Db.iteration turn s) !! id
    = Some TaskStatus.InProgress →
  row_taskType row ∉ registered.
Proof.
  intros Hfirst Hself.
  unfold Db.iteration, TaskWorker.findOne_queued.
  rewrite Hfirst. cbn [fmap option_fmap option_map fst snd].
  set (task := TaskWorker.load s id row).
  assert (∀ d, dependant task = Some d → taskId d ≠ id) as Hd.
  { intros d. simpl.
    destruct (row_dependantId row) as [did|] eqn:Hfk; [|done]. simpl.
    destruct (tasks s !! did) as [rd|]; [|done]. simpl.
    intros [= <-]. simpl. congruence. }
  destruct (db_run_cases turn task s)
    as [[err0 Hnone]|[(job & v & Hget & Hjob)|(job & err & Hget & Hjob)]].
  - intros _. apply (jobMap_None (Db.jobs turn)).
    by apply db_get_Throw in Hnone.
  - rewrite (db_run_returns _ _ _ _ _ Hget Hjob).
    cbn [TaskRunner.store_after].
    rewrite (proj1 (db_recompute_tasks _ _ _)).
    destruct (dependant task) as [d|] eqn:Hdt.
    + rewrite save_status, decide_False by (by apply not_eq_sym, (Hd d)).
      rewrite save_status. by rewrite decide_True.
    + rewrite save_status. by rewrite decide_True.
  - rewrite (db_run_throws_store _ _ _ _ _ Hget Hjob).
    cbn [TaskRunner.store_after].
    destruct (dependant task) as [d|] eqn:Hdt.
    + rewrite save_status, decide_False by (by apply not_eq_sym, (Hd d)).
      rewrite save_status. by rewrite decide_True.
    + rewrite save_status. by rewrite decide_True.
Qed.

Lemma reachable_in_progress (s : Store) (id : string) (row : TaskRow) :
  reachable s → tasks s !! id = Some row →
  row_status row = TaskStatus.InProgress → row_taskType row ∉ registered.
Proof.
  intros Hreach. revert id row.
  induction Hreach as [|wid clientId input s Hreach IH Hwid
                       |wid ids raw clientId input s Hreach IH Hval Hw Hnone
                          Hkeys
                       |turn s Hreach IH _];
    intros id row Hrow Hst.
  - simpl in Hrow. by rewrite lookup_empty in Hrow.
  - by apply (IH id).
  - destruct (db_tasks_rows ids raw
                (workflow_of_row wid
                   (WorkflowFactory.createWorkflow clientId input) None)
                s Hkeys) as (_ & _ & Hold & Hnew).
    destruct (tasks s !! id) as [r0|] eqn:Hr0.
    + pose proof (Hold id r0 Hr0) as Hr. rewrite Hrow in Hr.
      injection Hr as ->. by apply (IH id).
    + destruct (Hnew id row Hrow Hr0) as (_ & Hq & _). congruence.
  - destruct (reachable_consumers_wait s Hreach) as [Hord Hwait].
    pose proof (iteration_work turn s id) as Hwork. rewrite Hrow in Hwork.
    destruct (tasks s !! id) as [r0|] eqn:Hr0; [|done].
    apply (inj Some) in Hwork. injection Hwork as _ Hty. rewrite Hty.
    destruct (TaskWorker.first_queued s) as [[rid run]|] eqn:Hfirst.
    2: { rewrite (iteration_idle turn s (first_queued_None s Hfirst)) in Hrow.
         rewrite Hr0 in Hrow. injection Hrow as <-. by apply (IH id). }
    pose proof (first_queued_no_self s rid run Hord Hfirst) as Hself.
    destruct (decide (id = rid)) as [->|Hne].
    + pose proof (first_queued_least s rid run Hfirst) as (Hrun & _ & _).
      rewrite Hr0 in Hrun. injection Hrun as ->.
      apply (iteration_in_progress turn s rid run Hfirst Hself).
      by rewrite Hrow, <- Hst.
    + destruct (iteration_statuses turn s rid run Hfirst Hself) as [_ Hrest].
      destruct (Hrest id Hne) as [Hsame|(_ & _ & Hsk)];
        rewrite Hrow in *; simpl in *; [|congruence].
      rewrite Hr0 in Hsame. injection Hsame as Hsame.
      apply (IH id r0 Hr0). congruence.
Qed.

(** [X21] In every reachable store, that is in every store that the
    scheduler finds between two turns, a task row that is in progress is
    a task whose type is none of the four types with a job: it was left
    there by the lookup of the job, which threw, and it stays there.  So
    once no task of a workflow is queued and all its tasks have types
    with a job, every task of the workflow is Completed, Failed or
    Skipped.  During a run this is not so: from its first write on, the
    row of the task that is run is in progress, whatever its type. *)
Theorem in_progress_is_stranded (s : Store) (wid : string) :
  reachable s →
  (∀ id row, tasks s !! id = Some row →
     row_status row = TaskStatus.InProgress →
     row_taskType row ∉ registered) ∧
  ((∀ id row, tasks s !! id = Some row → row_workflowId row = wid →
      row_status row ≠ TaskStatus.Queued ∧ row_taskType row ∈ registered) →
   ∀ id row, tasks s !! id = Some row → row_workflowId row = wid →
     row_status row = TaskStatus.Completed ∨
     row_status row = TaskStatus.Failed ∨
     row_status row = TaskStatus.Skipped) ∧
  (∀ turn task,
     row_status
       <$> tasks (taskRepository_save (started task) s) !! taskId task
     = Some TaskStatus.InProgress ∧
     (∀ err, Db.get turn (taskType task) = Throw err →
        TaskRunner.store_after (Db.run turn task s)
        = taskRepository_save (started task) s)).
Proof.
  intros Hreach. split; [intros id row; by apply reachable_in_progress|].
  split.
  - intros Hall id row Hrow Hw.
    destruct (Hall id row Hrow Hw) as [Hq Hreg].
    destruct (row_status row) eqn:Hst; try done; auto.
    by destruct (reachable_in_progress s id row Hreach Hrow Hst).
  - intros turn task. split.
    + by rewrite save_status, decide_True.
    + intros err Hget. by rewrite (db_run_stranded _ _ _ _ Hget).
Qed.

Lemma in_progress_is_stranded_witness :
  ∃ row,
    tasks (TaskWorker.iteration Sample.succeeding Sample.after_success) !! "1"
    = Some row ∧
    (row_status row = TaskStatus.Completed ∨
     row_status row = TaskStatus.Failed ∨
     row_status row = TaskStatus.Skipped).
Proof.
  eexists. split; [vm_compute; reflexivity|].
  refine (proj1 (proj2 (in_progress_is_stranded
                          (TaskWorker.iteration Sample.succeeding
                             Sample.after_success) "0" _)) _ "1" _ _ _).
  - apply reachable_first_iteration, reachable_first_iteration,
      reachable_first_create, reachable_empty.
  - intros id row Hrow%elem_of_map_to_list _.
    remember (map_to_list
                (tasks (TaskWorker.iteration Sample.succeeding
                          Sample.after_success))) as l eqn:Hl.
    vm_compute in Hl. subst l.
    repeat (apply elem_of_cons in Hrow as [Hrow|Hrow]);
      [injection Hrow as -> ->; split; [discriminate | compute_done]..
      | by apply elem_of_nil in Hrow].
  - vm_compute. reflexivity.
  - reflexivity.
Defined.

(** ** The results and the tasks they belong to *)





(** ** The query of the scheduler has one answer *)

Section StepNumbers.
Import WorkflowFactory.

(** The step number of a new task row is the one of its step. *)
Lemma db_tasks_steps (ids : list string) (raw : RawDefinition) (w : Workflow)
    (s : Store) (i : nat) (id : string) (r : TaskRow) :
  Db.fresh_task_keys ids raw s →
  ids !! i = Some id →
  tasks (Db.taskRepository_save_all ids (Db.newTasks raw w) s) !! id = Some r →
  ∃ step, steps (parseWorkflowDefinition raw) !! i = Some step ∧
          row_stepNumber r = default 1 (stepNumber step).
Proof.
  intros (Hnd & Hlen & Hfree) Hi Hr.
  pose proof (built_tasks_length raw w) as Hlen'.
  unfold Db.newTasks in *.
  set (def := parseWorkflowDefinition raw) in *.
  set (ts := populateDependencies def (createTasks def w)) in *.
  assert (is_Some (ts !! i)) as [t Ht].
  { apply lookup_lt_is_Some. apply lookup_lt_Some in Hi. lia. }
  pose proof (db_save_all_new ids ts s i id t Hnd Hi Ht) as Hc.
  rewrite Hr in Hc. simpl in Hc. apply (inj Some) in Hc.
  assert (row_of_new <$> ts !! i = Some (row_of_new t)) as Hrow
    by (by rewrite Ht).
  rewrite <- list_lookup_fmap in Hrow. unfold ts in Hrow.
  rewrite populateDependencies_rows in Hrow. unfold createTasks in Hrow.
  rewrite <- list_fmap_compose, list_lookup_fmap in Hrow.
  destruct (steps def !! i) as [step|]; [|done]. simpl in Hrow.
  apply (inj Some) in Hrow. exists step. split; [done|].
  change (row_stepNumber r) with (row_stepNumber (columns r)).
  by rewrite Hc, <- Hrow.
Qed.

Lemma tasks_steps_unique (wid : string) (ids : list string)
    (raw : RawDefinition) (clientId : string) (input : JS.Value) (s : Store) :
  validateWorkflowDefinition (parseWorkflowDefinition raw) = Return () →
  (∀ id r, tasks s !! id = Some r → row_workflowId r ≠ wid) →
  Db.fresh_task_keys ids raw s →
  steps_unique (tasks s) →
  steps_unique
    (tasks (Db.taskRepository_save_all ids
              (Db.newTasks raw
                 (workflow_of_row wid (createWorkflow clientId input) None))
              s)).
Proof.
  intros Hval Hnone Hkeys Huniq.
  set (w := workflow_of_row wid (createWorkflow clientId input) None).
  destruct (db_tasks_rows ids raw w s Hkeys) as (_ & _ & Hold & Hnew).
  apply validate_Return in Hval as [Hall Hnd].
  rewrite Forall_forall in Hall.
  intros id1 id2 r1 r2 Hr1 Hr2 Hw Hn.
  destruct (tasks s !! id1) as [r1'|] eqn:H1, (tasks s !! id2) as [r2'|] eqn:H2.
  - pose proof (Hold id1 r1' H1) as H1'. pose proof (Hold id2 r2' H2) as H2'.
    fold w in H1', H2'. rewrite Hr1 in H1'. rewrite Hr2 in H2'.
    simplify_eq. by apply (Huniq id1 id2 r1' r2').
  - pose proof (Hold id1 r1' H1) as H1'. fold w in H1'. rewrite Hr1 in H1'.
    simplify_eq.
    destruct (Hnew id2 r2 Hr2 H2) as (_ & _ & Hw2 & _).
    destruct (Hnone id1 r1' H1). by rewrite Hw, Hw2.
  - pose proof (Hold id2 r2' H2) as H2'. fold w in H2'. rewrite Hr2 in H2'.
    simplify_eq.
    destruct (Hnew id1 r1 Hr1 H1) as (_ & _ & Hw1 & _).
    destruct (Hnone id2 r2' H2). by rewrite <- Hw, Hw1.
  - destruct (Hnew id1 r1 Hr1 H1) as (Hin1 & _).
    destruct (Hnew id2 r2 Hr2 H2) as (Hin2 & _).
    apply list_elem_of_lookup in Hin1 as [i1 Hi1].
    apply list_elem_of_lookup in Hin2 as [i2 Hi2].
    destruct (db_tasks_steps ids raw w s i1 id1 r1 Hkeys Hi1 Hr1)
      as (step1 & Hs1 & Hn1).
    destruct (db_tasks_steps ids raw w s i2 id2 r2 Hkeys Hi2 Hr2)
      as (step2 & Hs2 & Hn2).
    assert (stepNumber step1 = stepNumber step2) as Heq.
    { apply list_elem_of_lookup_2 in Hs1 as Hin1.
      apply list_elem_of_lookup_2 in Hs2 as Hin2.
      apply Hall, validateStep_Return in Hin1 as (_ & n1 & Hsn1 & _).
      apply Hall, validateStep_Return in Hin2 as (_ & n2 & Hsn2 & _).
      rewrite Hsn1, Hsn2 in *. simpl in *. congruence. }
    assert (i1 = i2) as ->.
    { eapply NoDup_lookup; [exact Hnd| |];
        rewrite list_lookup_fmap; [by rewrite Hs1 | by rewrite Hs2, Heq]. }
    congruence.
Qed.

End StepNumbers.

Lemma same_edges_steps_unique (m m' : gmap string TaskRow) :
  same_edges m m' → steps_unique m → steps_unique m'.
Proof.
  intros Hsame Huniq id1 id2 r1 r2 Hr1 Hr2 Hw Hn.
  pose proof (Hsame id1) as H1. pose proof (Hsame id2) as H2.
  rewrite Hr1 in H1. rewrite Hr2 in H2.
  destruct (m !! id1) as [r1'|] eqn:Hr1'; [|done].
  destruct (m !! id2) as [r2'|] eqn:Hr2'; [|done].
  apply (inj Some) in H1. apply (inj Some) in H2.
  injection H1 as Hw1 Hn1 _. injection H2 as Hw2 Hn2 _.
  apply (Huniq id1 id2 r1' r2'); [done..|congruence|congruence].
Qed.

Lemma reachable_steps_unique (s : Store) :
  reachable s → steps_unique (tasks s).
Proof.
  induction 1 as [|wid clientId input s _ IH Hwid
                  |wid ids raw clientId input s _ IH Hval Hw Hnone Hkeys
                  |c s _ IH _].
  - intros id1 id2 r1 r2 Hr1. simpl in Hr1. by rewrite lookup_empty in Hr1.
  - done.
  - by apply tasks_steps_unique.
  - eapply same_edges_steps_unique; [apply db_iteration_same_edges | done].
Qed.

Lemma string_compare_Gt (a b : string) :
  String.compare a b = Gt → String.compare b a = Lt.
Proof.
  intros H. rewrite String.compare_antisym, H. done.
Qed.

(** [X26] In every reachable store no two tasks of a workflow have the
    same step number, so the order of the query of the scheduler is
    strict on the queued tasks and the query has one answer: the task it
    returns comes strictly before every other queued task, by the key of
    the workflow and then by the step number.  And the query returns no
    task exactly when no task is queued. *)
Theorem selection_determined (s : Store) :
  reachable s →
  steps_unique (tasks s) ∧
  (∀ task id r, TaskWorker.findOne_queued s = Some task →
     tasks s !! id = Some r → row_status r = TaskStatus.Queued →
     id ≠ taskId task →
     ∃ row, tasks s !! taskId task = Some row ∧ comes_before row r) ∧
  (TaskWorker.findOne_queued s = None ↔ queued s = ∅).
Proof.
  intros Hreach. pose proof (reachable_steps_unique s Hreach) as Huniq.
  split; [done|]. split.
  - intros task id r Hfind Hr Hq Hne.
    apply findOne_queued_attached in Hfind as (_ & _ & Hfirst).
    apply first_queued_least in Hfirst as (Hrow & _ & Hleast).
    eexists. split; [exact Hrow|].
    specialize (Hleast id r Hr Hq).
    unfold TaskWorker.key_ltb, comes_before in *. simpl in *.
    destruct (String.compare (row_workflowId r) (workflowId task)) eqn:Hc;
      [|done|].
    + apply String.compare_eq_iff in Hc. right. split; [done|].
      apply Z.ltb_ge in Hleast.
      destruct (decide (stepNumber task = row_stepNumber r)) as [Heq|Hneq];
        [|lia].
      destruct Hne.
      by apply (Huniq id (taskId task) r _ Hr Hrow).
    + left. by apply string_compare_Gt.
  - unfold TaskWorker.findOne_queued. split.
    + destruct (TaskWorker.first_queued s) as [[id row]|] eqn:Hfirst; [done|].
      intros _. by apply first_queued_None.
    + intros Hempty.
      destruct (TaskWorker.first_queued s) as [[id row]|] eqn:Hfirst; [|done].
      apply first_queued_Some in Hfirst. set_solver.
Qed.

Lemma selection_determined_witness :
  ∃ row, tasks Sample.created !! taskId Sample.first_task = Some row ∧
         comes_before row Sample.second_row.
Proof.
  refine (proj1 (proj2 (selection_determined Sample.created _))
            Sample.first_task "1" Sample.second_row _ _ _ _).
  - apply reachable_first_create, reachable_empty.
  - vm_compute. reflexivity.
  - vm_compute. reflexivity.
  - reflexivity.
  - discriminate.
Defined.
